(** * bitsy hacks: the [save] hack and the [narrat] dialog tag

    A shallow embedding of the two hack scripts.  Both scripts run inside a
    host (the browser and the bitsy engine); the parts of the host they touch
    are modelled as an explicit world that every function threads through:
    the engine fields the hack reads and writes, [localStorage], the interval
    timers and a log of the host calls that have no modelled result
    ([console.warn], [window.narrat.jump], ...).

    JavaScript exceptions are modelled by a completion type: a function that
    throws keeps the writes it made before the throw. *)

From Stdlib Require Import ZArith Lia Ascii String.
From stdpp Require Import base option list strings gmap pretty.

(** ** JavaScript values *)

(** Numbers: the integer-valued doubles and the three non-finite values.
    Coordinates, item counts and sequence indices of the engine are integers;
    fractions are outside the model, and an integer stands for the double of
    the same value, which is exact below 2^53 in magnitude. *)
Inductive number : Type :=
| Finite (z : Z)
| PosInfinity
| NegInfinity
| NaN.

(** The values that engine fields and parsed JSON text can hold.  An object is
    its list of own properties (keys unique), in the order in which they were
    created; the order in which the host enumerates them shows in JSON text
    only and is applied there.  What a property inherited from a prototype
    reads is outside the model; that a computed key names one is not
    ([object_prototype_key]). *)
Unset Elimination Schemes.
Inductive value : Type :=
| JUndefined
| JNull
| JBool (b : bool)
| JNumber (n : number)
| JString (s : string)
| JArray (elements : list value)
| JObject (members : list (string * value)).
Set Elimination Schemes.

Inductive error : Type :=
| TypeError
| SyntaxError.

Inductive completion (A : Type) : Type :=
| Normal (a : A)
| Throw (e : error).
Arguments Normal {A} a.
Arguments Throw {A} e.

(** [!v] is [negb (ToBoolean v)]. *)
Definition ToBoolean (v : value) : bool :=
  match v with
  | JUndefined | JNull => false
  | JBool b => b
  | JNumber (Finite z) => negb (z =? 0)%Z
  | JNumber NaN => false
  | JNumber _ => true
  | JString EmptyString => false
  | JString _ => true
  | JArray _ | JObject _ => true
  end.

(** [n < Infinity] *)
Definition lt_Infinity (n : number) : bool :=
  match n with
  | Finite _ | NegInfinity => true
  | PosInfinity | NaN => false
  end.

Definition number_to_string (n : number) : string :=
  match n with
  | Finite z => pretty z
  | PosInfinity => "Infinity"
  | NegInfinity => "-Infinity"
  | NaN => "NaN"
  end.

(** The string a value becomes when it is used as a property key
    ([bitsy.room[entry[0]]]).  An array is the join of its elements with
    commas, [null] and [undefined] elements giving the empty string. *)
Fixpoint ToString (v : value) : string :=
  match v with
  | JUndefined => "undefined"
  | JNull => "null"
  | JBool true => "true"
  | JBool false => "false"
  | JNumber n => number_to_string n
  | JString s => s
  | JArray l =>
      (fix join (l : list value) : string :=
         match l with
         | [] => ""
         | e :: l' =>
             let s := match e with
                      | JUndefined | JNull => ""
                      | _ => ToString e
                      end in
             match l' with
             | [] => s
             | _ => s +:+ "," +:+ join l'
             end
         end) l
  | JObject _ => "[object Object]"
  end.

(** Own properties of an object. *)
Fixpoint own_get (p : string) (members : list (string * value)) : value :=
  match members with
  | [] => JUndefined
  | (k, v) :: members' => if String.eqb k p then v else own_get p members'
  end.

(** [o[p] = v]: an existing property keeps its place, a new one is added
    last. *)
Fixpoint own_set (p : string) (v : value) (members : list (string * value))
  : list (string * value) :=
  match members with
  | [] => [(p, v)]
  | (k, w) :: members' =>
      if String.eqb k p then (k, v) :: members'
      else (k, w) :: own_set p v members'
  end.

(** The names every object inherits from [Object.prototype]; what they
    read is a function of the host or, for [__proto__], the prototype object
    itself. *)
Definition object_prototype_key (key : string) : bool :=
  existsb (String.eqb key)
    ["constructor"; "hasOwnProperty"; "isPrototypeOf"; "propertyIsEnumerable";
     "toLocaleString"; "toString"; "valueOf"; "__proto__";
     "__defineGetter__"; "__defineSetter__"; "__lookupGetter__";
     "__lookupSetter__"].

(** [v.p] for the identifier names the hack reads from a snapshot ([room],
    [x], [y], [inventory], [items], [variables], [sequenceIndices],
    [shuffles]); none of them is a property of a string, a number, a boolean
    or an array.  Reading a property of [null] or [undefined] throws. *)
Definition Get (v : value) (p : string) : completion value :=
  match v with
  | JUndefined | JNull => Throw TypeError
  | JObject members => Normal (own_get p members)
  | _ => Normal JUndefined
  end.

(** [v[i]] for a literal index [i]. *)
Definition GetIndex (v : value) (i : nat) : completion value :=
  match v with
  | JUndefined | JNull => Throw TypeError
  | JArray l => Normal (default JUndefined (l !! i))
  | JString s =>
      Normal (match String.get i s with
              | Some c => JString (String c EmptyString)
              | None => JUndefined
              end)
  | JObject members => Normal (own_get (pretty i) members)
  | _ => Normal JUndefined
  end.

(** ** The engine *)

(** The key comparison of a JavaScript [Map] on primitive keys.  Arrays and
    objects are compared by identity there; the keys the hack passes come out
    of [JSON.parse] and are fresh, so a compound key equals no other key. *)
Definition SameValueZero (a b : value) : bool :=
  match a, b with
  | JUndefined, JUndefined => true
  | JNull, JNull => true
  | JBool a, JBool b => Bool.eqb a b
  | JNumber (Finite m), JNumber (Finite n) => (m =? n)%Z
  | JNumber PosInfinity, JNumber PosInfinity => true
  | JNumber NegInfinity, JNumber NegInfinity => true
  | JNumber NaN, JNumber NaN => true
  | JString s, JString t => String.eqb s t
  | _, _ => false
  end.

Module Sprite.
(** The fields of [bitsy.player()] the hack touches. *)
Record t : Type := Make {
  room : value;
  x : value;
  y : value;
  inventory : value
}.
End Sprite.

Module SaveHack.
(** [bitsy.saveHack] (lines 158-177): the dialog progress the injected code
    records. *)
Record t : Type := Make {
  sequenceIndices : value;
  shuffles : value
}.
End SaveHack.

Module Bitsy.
(** The engine state the hack reads and writes.  [room] maps a room id to
    the [items] field of that room, the only field of a room the hack uses;
    [variable] is the script interpreter's [Map] of dialog variables, in
    insertion order. *)
Record t : Type := Make {
  curRoom : value;
  player : Sprite.t;
  room : list (string * value);
  variable : list (value * value);
  saveHack : SaveHack.t;
  isEnding : bool
}.

(** [scriptInterpreter.GetVariableNames()] *)
Definition GetVariableNames (vars : list (value * value)) : list value :=
  map fst vars.

(** [scriptInterpreter.GetVariable(name)] *)
Fixpoint GetVariable (name : value) (vars : list (value * value)) : value :=
  match vars with
  | [] => JUndefined
  | (k, v) :: vars' =>
      if SameValueZero k name then v else GetVariable name vars'
  end.

(** [scriptInterpreter.SetVariable(name, value)] *)
Fixpoint SetVariable (name v : value) (vars : list (value * value))
  : list (value * value) :=
  match vars with
  | [] => [(name, v)]
  | (k, w) :: vars' =>
      if SameValueZero k name then (k, v) :: vars'
      else (k, w) :: SetVariable name v vars'
  end.

(** [bitsy.room[id]]: is there such a room? *)
Fixpoint has_room (id : string) (rooms : list (string * value)) : bool :=
  match rooms with
  | [] => false
  | (k, _) :: rooms' => if String.eqb k id then true else has_room id rooms'
  end.

(** [bitsy.room[id].items = its] for an existing room. *)
Fixpoint set_room_items (id : string) (its : value)
  (rooms : list (string * value)) : list (string * value) :=
  match rooms with
  | [] => []
  | (k, old) :: rooms' =>
      if String.eqb k id then (k, its) :: rooms'
      else (k, old) :: set_room_items id its rooms'
  end.
End Bitsy.

(** ** The host *)

Module HackOptions.
(** [hackOptions] (lines 76-88). *)
Record t : Type := Make {
  autosaveInterval : number;
  loadOnStart : bool;
  clearOnEnd : bool;
  clearOnStart : bool;
  position : bool;
  variables : bool;
  items : bool;
  dialog : bool;
  key : string
}.

Definition default : t :=
  {| autosaveInterval := PosInfinity;
     loadOnStart := true;
     clearOnEnd := false;
     clearOnStart := false;
     position := true;
     variables := true;
     items := true;
     dialog := true;
     key := "snapshot" |}.

Definition set_loadOnStart (b : bool) (o : t) : t :=
  {| autosaveInterval := autosaveInterval o;
     loadOnStart := b;
     clearOnEnd := clearOnEnd o;
     clearOnStart := clearOnStart o;
     position := position o;
     variables := variables o;
     items := items o;
     dialog := dialog o;
     key := key o |}.
End HackOptions.

(** Host calls whose only modelled effect is that they happened. *)
Inductive host_call : Type :=
| console_warn (msg : string)
| narrat_jump (label : value)
| EndDialog
| startNarrating (title : value).

(** The callbacks the hack hands to [setInterval]. *)
Inductive callback : Type :=
| cb_save.

Record world : Type := World {
  hackOptions : HackOptions.t;
  bitsy : Bitsy.t;
  localStorage : gmap string string;
  (** [var autosaveInterval] (line 197): the id of the installed timer *)
  autosaveInterval : option nat;
  (** the host's interval timers: id, callback and delay *)
  intervals : list (nat * (callback * number));
  next_interval : nat;
  calls : list host_call
}.

Definition with_hackOptions (f : HackOptions.t -> HackOptions.t) (w : world) : world :=
  {| hackOptions := f (hackOptions w); bitsy := bitsy w;
     localStorage := localStorage w; autosaveInterval := autosaveInterval w;
     intervals := intervals w; next_interval := next_interval w;
     calls := calls w |}.

Definition with_bitsy (f : Bitsy.t -> Bitsy.t) (w : world) : world :=
  {| hackOptions := hackOptions w; bitsy := f (bitsy w);
     localStorage := localStorage w; autosaveInterval := autosaveInterval w;
     intervals := intervals w; next_interval := next_interval w;
     calls := calls w |}.

Definition with_localStorage (f : gmap string string -> gmap string string)
  (w : world) : world :=
  {| hackOptions := hackOptions w; bitsy := bitsy w;
     localStorage := f (localStorage w); autosaveInterval := autosaveInterval w;
     intervals := intervals w; next_interval := next_interval w;
     calls := calls w |}.

Definition with_call (c : host_call) (w : world) : world :=
  {| hackOptions := hackOptions w; bitsy := bitsy w;
     localStorage := localStorage w; autosaveInterval := autosaveInterval w;
     intervals := intervals w; next_interval := next_interval w;
     calls := calls w ++ [c] |}.

(** ** Computations over the world *)

Definition M (A : Type) : Type := world -> world * completion A.

Definition ret {A} (a : A) : M A := fun w => (w, Normal a).

Definition bind {A B} (m : M A) (k : A -> M B) : M B :=
  fun w =>
    match m w with
    | (w', Normal a) => k a w'
    | (w', Throw e) => (w', Throw e)
    end.

Definition throw {A} (e : error) : M A := fun w => (w, Throw e).

Definition lift {A} (c : completion A) : M A := fun w => (w, c).

Definition gets {A} (f : world -> A) : M A := fun w => (w, Normal (f w)).

Definition modify (f : world -> world) : M unit := fun w => (f w, Normal tt).

Definition when (b : bool) (m : M unit) : M unit := if b then m else ret tt.

Declare Scope js_scope.
Delimit Scope js_scope with js.
Notation "x <- m ;; k" := (bind m (fun x => k))
  (at level 100, m at next level, right associativity) : js_scope.
Notation "m ;;; k" := (bind m (fun _ => k))
  (at level 100, right associativity) : js_scope.
Local Open Scope js_scope.

(** [a.forEach(f)] on the elements of an array. *)
Fixpoint forEach (f : value -> M unit) (l : list value) : M unit :=
  match l with
  | [] => ret tt
  | e :: l' => f e ;;; forEach f l'
  end.

(** [v.forEach(f)] for a truthy [v]: only an array has the method, calling
    the missing method of anything else throws. *)
Definition call_forEach (v : value) (f : value -> M unit) : M unit :=
  match v with
  | JArray l => forEach f l
  | _ => throw TypeError
  end.

(** The field writes of [load] and the reads of [save]. *)
Definition set_room (v : value) (b : Bitsy.t) : Bitsy.t :=
  let p := Bitsy.player b in
  {| Bitsy.curRoom := v;
     Bitsy.player := {| Sprite.room := v; Sprite.x := Sprite.x p;
                        Sprite.y := Sprite.y p;
                        Sprite.inventory := Sprite.inventory p |};
     Bitsy.room := Bitsy.room b; Bitsy.variable := Bitsy.variable b;
     Bitsy.saveHack := Bitsy.saveHack b; Bitsy.isEnding := Bitsy.isEnding b |}.

Definition set_player (f : Sprite.t -> Sprite.t) (b : Bitsy.t) : Bitsy.t :=
  {| Bitsy.curRoom := Bitsy.curRoom b; Bitsy.player := f (Bitsy.player b);
     Bitsy.room := Bitsy.room b; Bitsy.variable := Bitsy.variable b;
     Bitsy.saveHack := Bitsy.saveHack b; Bitsy.isEnding := Bitsy.isEnding b |}.

Definition set_x (v : value) (p : Sprite.t) : Sprite.t :=
  {| Sprite.room := Sprite.room p; Sprite.x := v; Sprite.y := Sprite.y p;
     Sprite.inventory := Sprite.inventory p |}.

Definition set_y (v : value) (p : Sprite.t) : Sprite.t :=
  {| Sprite.room := Sprite.room p; Sprite.x := Sprite.x p; Sprite.y := v;
     Sprite.inventory := Sprite.inventory p |}.

Definition set_inventory (v : value) (p : Sprite.t) : Sprite.t :=
  {| Sprite.room := Sprite.room p; Sprite.x := Sprite.x p;
     Sprite.y := Sprite.y p; Sprite.inventory := v |}.

Definition set_rooms (f : list (string * value) -> list (string * value))
  (b : Bitsy.t) : Bitsy.t :=
  {| Bitsy.curRoom := Bitsy.curRoom b; Bitsy.player := Bitsy.player b;
     Bitsy.room := f (Bitsy.room b); Bitsy.variable := Bitsy.variable b;
     Bitsy.saveHack := Bitsy.saveHack b; Bitsy.isEnding := Bitsy.isEnding b |}.

Definition set_variables (f : list (value * value) -> list (value * value))
  (b : Bitsy.t) : Bitsy.t :=
  {| Bitsy.curRoom := Bitsy.curRoom b; Bitsy.player := Bitsy.player b;
     Bitsy.room := Bitsy.room b; Bitsy.variable := f (Bitsy.variable b);
     Bitsy.saveHack := Bitsy.saveHack b; Bitsy.isEnding := Bitsy.isEnding b |}.

Definition set_saveHack (s : SaveHack.t) (b : Bitsy.t) : Bitsy.t :=
  {| Bitsy.curRoom := Bitsy.curRoom b; Bitsy.player := Bitsy.player b;
     Bitsy.room := Bitsy.room b; Bitsy.variable := Bitsy.variable b;
     Bitsy.saveHack := s; Bitsy.isEnding := Bitsy.isEnding b |}.

(** ** The save hack *)

(** [JSON.stringify] and [JSON.parse] belong to the host.  [JSON_parse]
    answers [None] where [JSON.parse] throws a [SyntaxError]. *)
Class JSON : Type := {
  JSON_stringify : value -> string;
  JSON_parse : string -> option value
}.

Section save_hack.
Context `{codec : JSON}.

(** The snapshot object [save] builds (lines 91-111). *)
Definition build_snapshot (o : HackOptions.t) (b : Bitsy.t)
  : list (string * value) :=
  let snapshot := [] in
  let snapshot :=
    if HackOptions.position o then
      let snapshot := own_set "room" (Bitsy.curRoom b) snapshot in
      let snapshot := own_set "x" (Sprite.x (Bitsy.player b)) snapshot in
      own_set "y" (Sprite.y (Bitsy.player b)) snapshot
    else snapshot in
  let snapshot :=
    if HackOptions.items o then
      let snapshot :=
        own_set "inventory" (Sprite.inventory (Bitsy.player b)) snapshot in
      own_set "items"
        (JArray (map (fun room : string * value =>
                        JArray [JString (fst room); snd room])
                     (Bitsy.room b)))
        snapshot
    else snapshot in
  let snapshot :=
    if HackOptions.variables o then
      own_set "variables"
        (JArray (map (fun variable : value =>
                        JArray [variable;
                                Bitsy.GetVariable variable (Bitsy.variable b)])
                     (Bitsy.GetVariableNames (Bitsy.variable b))))
        snapshot
    else snapshot in
  if HackOptions.dialog o then
    let snapshot :=
      own_set "sequenceIndices"
        (SaveHack.sequenceIndices (Bitsy.saveHack b)) snapshot in
    own_set "shuffles" (SaveHack.shuffles (Bitsy.saveHack b)) snapshot
  else snapshot.

(** [save] (lines 90-113) *)
Definition save : M unit :=
  o <- gets hackOptions ;;
  b <- gets bitsy ;;
  let snapshot := JObject (build_snapshot o b) in
  modify (with_localStorage
            (fun st => <[HackOptions.key o := JSON_stringify snapshot]> st)).

(** The callback of [snapshot.items.forEach] (lines 137-139):
    [bitsy.room[entry[0]].items = entry[1]].  A key that names a room sets
    the items of the room.  A key that names no room but a property that
    [bitsy.room] inherits reads a host object: the code sets [items] on that
    object, which is no part of the world, and goes on.  Any other key reads
    [undefined], whose [items] cannot be set.  (What a later read of [items]
    inherits after a write through [__proto__] is outside the model.) *)
Definition load_item (entry : value) : M unit :=
  id <- lift (GetIndex entry 0) ;;
  rooms <- gets (fun w => Bitsy.room (bitsy w)) ;;
  if Bitsy.has_room (ToString id) rooms then
    its <- lift (GetIndex entry 1) ;;
    modify (with_bitsy (set_rooms (Bitsy.set_room_items (ToString id) its)))
  else if object_prototype_key (ToString id) then
    its <- lift (GetIndex entry 1) ;;
    ret tt
  else throw TypeError.

(** The callback of [snapshot.variables.forEach] (lines 143-145). *)
Definition load_variable (variable : value) : M unit :=
  name <- lift (GetIndex variable 0) ;;
  v <- lift (GetIndex variable 1) ;;
  modify (with_bitsy (set_variables (Bitsy.SetVariable name v))).

(** The four guarded blocks of [load] (lines 123-150). *)
Definition load_position (snapshot : value) : M unit :=
  o <- gets hackOptions ;;
  when (HackOptions.position o)
    (room <- lift (Get snapshot "room") ;;
     when (ToBoolean room) (modify (with_bitsy (set_room room))) ;;;
     x <- lift (Get snapshot "x") ;;
     if ToBoolean x then
       y <- lift (Get snapshot "y") ;;
       when (ToBoolean y)
         (x <- lift (Get snapshot "x") ;;
          modify (with_bitsy (set_player (set_x x))) ;;;
          y <- lift (Get snapshot "y") ;;
          modify (with_bitsy (set_player (set_y y))))
     else ret tt).

Definition load_items (snapshot : value) : M unit :=
  o <- gets hackOptions ;;
  when (HackOptions.items o)
    (inventory <- lift (Get snapshot "inventory") ;;
     when (ToBoolean inventory)
       (modify (with_bitsy (set_player (set_inventory inventory)))) ;;;
     its <- lift (Get snapshot "items") ;;
     when (ToBoolean its) (call_forEach its load_item)).

Definition load_variables (snapshot : value) : M unit :=
  o <- gets hackOptions ;;
  if HackOptions.variables o then
    variables <- lift (Get snapshot "variables") ;;
    when (ToBoolean variables) (call_forEach variables load_variable)
  else ret tt.

Definition load_dialog (snapshot : value) : M unit :=
  o <- gets hackOptions ;;
  if HackOptions.dialog o then
    sequenceIndices <- lift (Get snapshot "sequenceIndices") ;;
    when (ToBoolean sequenceIndices)
      (shuffles <- lift (Get snapshot "shuffles") ;;
       modify (with_bitsy (set_saveHack
         {| SaveHack.sequenceIndices := sequenceIndices;
            SaveHack.shuffles := shuffles |})))
  else ret tt.

Definition load_snapshot (snapshot : value) : M unit :=
  load_position snapshot ;;;
  load_items snapshot ;;;
  load_variables snapshot ;;;
  load_dialog snapshot.

(** [load] (lines 115-151).  [getItem] gives [null] for a missing key; the
    guard [!snapshot] also stops on the empty string. *)
Definition load : M unit :=
  o <- gets hackOptions ;;
  snapshot <- gets (fun w => localStorage w !! HackOptions.key o) ;;
  match snapshot with
  | None | Some EmptyString => ret tt
  | Some text =>
      match JSON_parse text with
      | None => throw SyntaxError
      | Some snapshot => load_snapshot snapshot
      end
  end.

(** [clear] (lines 153-155) *)
Definition clear : M unit :=
  o <- gets hackOptions ;;
  modify (with_localStorage (fun st => delete (HackOptions.key o) st)).

(** *** Dialog progress (lines 157-194) *)

(** The names that an object, a number or a boolean inherits from the
    built-in prototypes ([Object.prototype], [Number.prototype],
    [Boolean.prototype]), to which neither the hack nor the engine adds. *)
Definition inherited_key (key : string) : bool :=
  existsb (String.eqb key)
    ["constructor"; "hasOwnProperty"; "isPrototypeOf"; "propertyIsEnumerable";
     "toLocaleString"; "toString"; "valueOf"; "__proto__";
     "__defineGetter__"; "__defineSetter__"; "__lookupGetter__";
     "__lookupSetter__"; "toExponential"; "toFixed"; "toPrecision"].

Definition has_own (p : string) (members : list (string * value)) : bool :=
  existsb (fun kv => String.eqb (fst kv) p) members.

(** [o[key]] for a computed key.  A property of [null] or [undefined] cannot
    be read.  An own property reads its value and a name that is neither own
    nor inherited reads [undefined]; what an inherited name reads is a
    function or an accessor of the host, for which the model has no answer.
    An array and a string also answer to their index keys and to [length],
    which the model does not enumerate: for them there is no answer
    either. *)
Definition GetComputed (o : value) (key : string) : option (completion value) :=
  match o with
  | JUndefined | JNull => Some (Throw TypeError)
  | JObject members =>
      if has_own key members || negb (inherited_key key)
      then Some (Normal (own_get key members))
      else None
  | JBool _ | JNumber _ =>
      if inherited_key key then None else Some (Normal JUndefined)
  | JString _ | JArray _ => None
  end.

(** [o[key] = v] for a computed key, in the strict mode of module code; the
    answer is what [o] has become.  A property of [null] or [undefined]
    cannot be written, and neither can a property of a primitive.  An object
    gets the property set, a new one last.  The name [__proto__], when it is
    not an own property, is the accessor of [Object.prototype]: its setter
    ignores a primitive target and a primitive value, and changes the
    prototype of an object otherwise, for which the model has no answer. *)
Definition PutComputed (o : value) (key : string) (v : value)
  : option (completion value) :=
  match o with
  | JUndefined | JNull => Some (Throw TypeError)
  | JObject members =>
      if has_own key members || negb (String.eqb key "__proto__")
      then Some (Normal (JObject (own_set key v members)))
      else match v with
           | JNull | JArray _ | JObject _ => None
           | _ => Some (Normal o)
           end
  | JBool _ | JNumber _ | JString _ =>
      if String.eqb key "__proto__" then Some (Normal o)
      else Some (Throw TypeError)
  | JArray _ => None
  end.

Definition set_sequenceIndices (t : value) (b : Bitsy.t) : Bitsy.t :=
  set_saveHack
    {| SaveHack.sequenceIndices := t;
       SaveHack.shuffles := SaveHack.shuffles (Bitsy.saveHack b) |} b.

Definition set_shuffles (t : value) (b : Bitsy.t) : Bitsy.t :=
  set_saveHack
    {| SaveHack.sequenceIndices :=
         SaveHack.sequenceIndices (Bitsy.saveHack b);
       SaveHack.shuffles := t |} b.

(** [bitsy.saveHack.saveSeqIdx(node, index)] (lines 161-164); [id] is what
    [node.GetId()] answers, and the property key is its string. *)
Definition saveSeqIdx (id index : value) (w : world)
  : option (world * completion unit) :=
  let key := ToString id in
  match PutComputed
          (SaveHack.sequenceIndices (Bitsy.saveHack (bitsy w))) key index with
  | None => None
  | Some (Throw e) => Some (w, Throw e)
  | Some (Normal t) => Some (with_bitsy (set_sequenceIndices t) w, Normal tt)
  end.

(** [bitsy.saveHack.loadSeqIdx(node)] (lines 165-168) *)
Definition loadSeqIdx (id : value) (w : world) : option (completion value) :=
  let key := ToString id in
  GetComputed (SaveHack.sequenceIndices (Bitsy.saveHack (bitsy w))) key.

(** [bitsy.saveHack.saveShuffle(node, options)] (lines 169-172) *)
Definition saveShuffle (id options : value) (w : world)
  : option (world * completion unit) :=
  let key := ToString id in
  match PutComputed
          (SaveHack.shuffles (Bitsy.saveHack (bitsy w))) key options with
  | None => None
  | Some (Throw e) => Some (w, Throw e)
  | Some (Normal t) => Some (with_bitsy (set_shuffles t) w, Normal tt)
  end.

(** [bitsy.saveHack.loadShuffle(node)] (lines 173-176) *)
Definition loadShuffle (id : value) (w : world) : option (completion value) :=
  let key := ToString id in
  GetComputed (SaveHack.shuffles (Bitsy.saveHack (bitsy w))) key.

(** The statements injected before a sequence node uses its index
    (line 190): [var i = window.saveHack.loadSeqIdx(this);
    index = i === undefined ? index : i;].  The answer is the new value of
    [index]. *)
Definition resume_index (id index : value) (w : world)
  : option (completion value) :=
  match loadSeqIdx id w with
  | None => None
  | Some (Throw e) => Some (Throw e)
  | Some (Normal i) =>
      Some (Normal (match i with JUndefined => index | _ => i end))
  end.

(** The statements injected in place of [optionsShuffled[index]] in a
    shuffle node (lines 183-188), up to the expression [options[index]] they
    end in.  The answer is the new values of [index] and of
    [optionsShuffled]. *)
Definition resume_shuffle (id index optionsShuffled : value) (w : world)
  : option (world * completion (value * value)) :=
  match resume_index id index w with
  | None => None
  | Some (Throw e) => Some (w, Throw e)
  | Some (Normal index) =>
      match loadShuffle id w with
      | None => None
      | Some (Throw e) => Some (w, Throw e)
      | Some (Normal saved) =>
          let optionsShuffled :=
            if ToBoolean saved then saved else optionsShuffled in
          match saveShuffle id optionsShuffled w with
          | None => None
          | Some (w', Throw e) => Some (w', Throw e)
          | Some (w', Normal _) => Some (w', Normal (index, optionsShuffled))
          end
      end
  end.

(** *** Timers and hooks *)

Definition with_timer (id : option nat)
  (f : list (nat * (callback * number)) -> list (nat * (callback * number)))
  (fresh : nat -> nat) (w : world) : world :=
  {| hackOptions := hackOptions w; bitsy := bitsy w;
     localStorage := localStorage w; autosaveInterval := id;
     intervals := f (intervals w); next_interval := fresh (next_interval w);
     calls := calls w |}.

(** [clearInterval(id)]; an id that names no timer ([undefined] before the
    first autosave timer) is ignored. *)
Definition clearInterval (id : option nat) : M unit :=
  modify (fun w =>
    match id with
    | None => w
    | Some i =>
        with_timer (autosaveInterval w)
          (filter (fun t => fst t <> i)) (fun n => n) w
    end).

(** [setInterval(cb, delay)] returns the id of the new timer. *)
Definition setInterval (cb : callback) (delay : number) : M nat :=
  fun w =>
    let id := next_interval w in
    (with_timer (autosaveInterval w) (fun ts => ts ++ [(id, (cb, delay))]) S w,
     Normal id).

(** hook up autosave (lines 196-203) *)
Definition onready_autosave : M unit :=
  o <- gets hackOptions ;;
  when (lt_Infinity (HackOptions.autosaveInterval o))
    (old <- gets autosaveInterval ;;
     clearInterval old ;;;
     id <- setInterval cb_save (HackOptions.autosaveInterval o) ;;
     modify (fun w => with_timer (Some id) (fun ts => ts) (fun n => n) w)).

(** hook up autoload (lines 205-210) *)
Definition onready_autoload : M unit :=
  o <- gets hackOptions ;;
  when (HackOptions.loadOnStart o) load.

(** hook up clear on end (lines 212-219) *)
Definition before_reset_cur_game : M unit :=
  o <- gets hackOptions ;;
  when (HackOptions.clearOnEnd o)
    (b <- gets bitsy ;;
     when (Bitsy.isEnding b) clear).

(** hook up clear on start (lines 221-226) *)
Definition before_startExportedGame : M unit :=
  o <- gets hackOptions ;;
  when (HackOptions.clearOnStart o) clear.

(** The engine functions as the hooks wrap them.  The engine's own part of
    [reset_cur_game] and of [startExportedGame] reloads the game data, which
    puts every engine field to the given [fresh] state except the hack's own
    [saveHack] object, and ends in [onready]; the [after] hooks run in the
    order in which they were registered. *)
Definition reload_game (fresh : Bitsy.t) : M unit :=
  modify (with_bitsy (fun b => set_saveHack (Bitsy.saveHack b) fresh)).

Definition onready : M unit :=
  onready_autosave ;;;
  onready_autoload.

Definition reset_cur_game (fresh : Bitsy.t) : M unit :=
  before_reset_cur_game ;;;
  reload_game fresh ;;;
  onready.

Definition startExportedGame (fresh : Bitsy.t) : M unit :=
  before_startExportedGame ;;;
  reload_game fresh ;;;
  onready.

(** [dialogLoad] (lines 229-236) *)
Definition dialogLoad (fresh : Bitsy.t) (parameters : list value) : M unit :=
  loadOnStart <- gets (fun w => HackOptions.loadOnStart (hackOptions w)) ;;
  modify (with_hackOptions (HackOptions.set_loadOnStart true)) ;;;
  reset_cur_game fresh ;;;
  modify (with_hackOptions (HackOptions.set_loadOnStart loadOnStart)) ;;;
  modify (with_call EndDialog) ;;;
  let title := default JUndefined (parameters !! 0%nat) in
  modify (with_call (startNarrating
                       (if ToBoolean title then title else JString ""))).

(** An interval timer fires: the host calls the callback of the timer, if
    the timer is still installed. *)
Definition interval_callback (id : nat) (w : world) : option callback :=
  fst <$> (snd <$> find (fun t => bool_decide (fst t = id)) (intervals w)).

Definition fire_interval (id : nat) : M unit :=
  cb <- gets (interval_callback id) ;;
  match cb with
  | Some cb_save => save
  | None => ret tt
  end.

(** *** Everything that can happen to the hack

    The dialog tags (each in its plain and its [Now] form, lines 237-239),
    the two wrapped engine functions, a timer firing, and the game itself
    changing the engine state. *)
Inductive event : Type :=
| tag_save
| tag_load (fresh : Bitsy.t) (parameters : list value)
| tag_clear
| engine_reset_cur_game (fresh : Bitsy.t)
| engine_startExportedGame (fresh : Bitsy.t)
| timer (id : nat)
| play (b : Bitsy.t).

Definition handle (e : event) : M unit :=
  match e with
  | tag_save => save
  | tag_load fresh parameters => dialogLoad fresh parameters
  | tag_clear => clear
  | engine_reset_cur_game fresh => reset_cur_game fresh
  | engine_startExportedGame fresh => startExportedGame fresh
  | timer id => fire_interval id
  | play b => modify (with_bitsy (fun _ => b))
  end.

(** An uncaught exception ends the handler of one event, not the game. *)
Fixpoint run (es : list event) (w : world) : world :=
  match es with
  | [] => w
  | e :: es' => run es' (fst (handle e w))
  end.

(** The three operations of the hack on their own. *)
Inductive operation : Type :=
| op_save
| op_load
| op_clear.

Definition perform (op : operation) : M unit :=
  match op with
  | op_save => save
  | op_load => load
  | op_clear => clear
  end.

Fixpoint perform_all (ops : list operation) (w : world) : world :=
  match ops with
  | [] => w
  | op :: ops' => perform_all ops' (fst (perform op w))
  end.

End save_hack.

(** ** The narrat hack *)

(** [narratJump] (lines 23-29) *)
Definition narratJump (targetLabel : value) : M unit :=
  if negb (ToBoolean targetLabel) then
    modify (with_call (console_warn "Tried to jump to narrat label, but no label"))
  else
    modify (with_call (narrat_jump targetLabel)).

(** The function registered for the [narrat] dialog tag (lines 31-33);
    [parameters[0]] of a shorter list is [undefined]. *)
Definition narrat_tag (parameters : list value) : M unit :=
  narratJump (default JUndefined (parameters !! 0%nat)).

(** ** A JSON text codec

    An executable instance of the host's [JSON] object for the values of the
    model: compact output as [JSON.stringify] writes it, and a parser for JSON
    text with integer numbers.  It stands for the host's object on the
    values of the model only, integers below 2^53 in magnitude: a number with
    a fraction or an exponent is not a number of the model and is refused
    here, where [JSON.parse] takes it, and a larger integer is kept as it is
    written, where the host rounds it to a double.  The statements about
    [save] and [load] are made for any codec; this one runs the sample
    worlds, whose texts are of that kind. *)

Module JsonText.

Definition dquote : ascii := "034"%char.
Definition backslash : ascii := "092"%char.

Definition hex_digit (n : nat) : ascii :=
  if (n <? 10)%nat then ascii_of_nat (48 + n) else ascii_of_nat (87 + n).

(** The escapes of [JSON.stringify]: the quote, the backslash and the control
    characters. *)
Definition escape (c : ascii) : string :=
  let n := nat_of_ascii c in
  if Ascii.eqb c dquote then String backslash (String dquote "")
  else if Ascii.eqb c backslash then String backslash (String backslash "")
  else if (n =? 8)%nat then "\b"
  else if (n =? 9)%nat then "\t"
  else if (n =? 10)%nat then "\n"
  else if (n =? 12)%nat then "\f"
  else if (n =? 13)%nat then "\r"
  else if (n <? 32)%nat then
    "\u00" +:+ String (hex_digit (n / 16)) (String (hex_digit (n mod 16)) "")
  else String c "".

Fixpoint quote_body (s : string) : string :=
  match s with
  | EmptyString => ""
  | String c s' => escape c +:+ quote_body s'
  end.

Definition quote (s : string) : string :=
  String dquote (quote_body s +:+ String dquote "").

Definition is_digit (c : ascii) : bool :=
  let n := nat_of_ascii c in (48 <=? n)%nat && (n <=? 57)%nat.

Definition starts_with (p : ascii -> bool) (s : string) : bool :=
  match s with
  | EmptyString => false
  | String c _ => p c
  end.

Fixpoint parse_digits (acc : Z) (s : string) : Z * string :=
  match s with
  | EmptyString => (acc, "")
  | String c s' =>
      if is_digit c
      then parse_digits (10 * acc + Z.of_nat (nat_of_ascii c - 48))%Z s'
      else (acc, s)
  end.

(** The keys of an object that are array indices: the decimal numerals below
    2^32 - 1, written without a sign or a leading zero. *)
Definition array_index (k : string) : option Z :=
  match k with
  | EmptyString => None
  | _ =>
      let '(n, rest) := parse_digits 0 k in
      match rest with
      | EmptyString =>
          if String.eqb (pretty n) k && (n <? 4294967295)%Z
          then Some n else None
      | _ => None
      end
  end.

Fixpoint insert_index (n : Z) (kv : string * value)
  (l : list (Z * (string * value))) : list (Z * (string * value)) :=
  match l with
  | [] => [(n, kv)]
  | (m, kv') :: l' =>
      if (n <? m)%Z then (n, kv) :: l else (m, kv') :: insert_index n kv l'
  end.

(** The order in which the host enumerates the own properties of an object:
    the array indices in ascending order, then the other keys in the order in
    which they were created. *)
Definition property_order (ms : list (string * value))
  : list (string * value) :=
  map snd
    (foldl (fun acc kv =>
              match array_index (fst kv) with
              | Some n => insert_index n kv acc
              | None => acc
              end) [] ms)
  ++ List.filter (fun kv =>
                    match array_index (fst kv) with
                    | Some _ => false
                    | None => true
                    end) ms.

(** A value with the members of every object in property order. *)
Fixpoint in_property_order (v : value) : value :=
  match v with
  | JArray l =>
      JArray ((fix elements (l : list value) : list value :=
                 match l with
                 | [] => []
                 | e :: l' => in_property_order e :: elements l'
                 end) l)
  | JObject ms =>
      JObject
        (property_order
           ((fix members (ms : list (string * value))
               : list (string * value) :=
               match ms with
               | [] => []
               | (k, v) :: ms' => (k, in_property_order v) :: members ms'
               end) ms))
  | _ => v
  end.

(** [JSON.stringify(v)]; [None] is the answer [undefined].  A property whose
    value is [undefined] is left out of an object; an [undefined] element of
    an array and a number that is not finite are written [null]. *)
Fixpoint stringify (v : value) : option string :=
  match v with
  | JUndefined => None
  | JNull => Some "null"
  | JBool true => Some "true"
  | JBool false => Some "false"
  | JNumber (Finite z) => Some (pretty z)
  | JNumber _ => Some "null"
  | JString s => Some (quote s)
  | JArray l =>
      Some ("[" +:+
            (fix elements (l : list value) : string :=
               match l with
               | [] => ""
               | e :: l' =>
                   let s := default "null" (stringify e) in
                   match l' with
                   | [] => s
                   | _ => s +:+ "," +:+ elements l'
                   end
               end) l +:+ "]")
  | JObject ms =>
      Some ("{" +:+
            (fix members (first : bool) (ms : list (string * value)) : string :=
               match ms with
               | [] => ""
               | (k, v) :: ms' =>
                   match stringify v with
                   | None => members first ms'
                   | Some s =>
                       (if first then "" else ",") +:+ quote k +:+ ":" +:+ s
                       +:+ members false ms'
                   end
               end) true ms +:+ "}")
  end.

Definition is_ws (c : ascii) : bool :=
  let n := nat_of_ascii c in
  (n =? 32)%nat || (n =? 9)%nat || (n =? 10)%nat || (n =? 13)%nat.

Fixpoint skip_ws (s : string) : string :=
  match s with
  | EmptyString => ""
  | String c s' => if is_ws c then skip_ws s' else s
  end.

(** An integer: an optional minus sign and digits without a leading zero. *)
Definition parse_number (s : string) : option (value * string) :=
  let '(negative, digits) :=
    match s with
    | String c s' => if Ascii.eqb c "-" then (true, s') else (false, s)
    | EmptyString => (false, s)
    end in
  match digits with
  | EmptyString => None
  | String c s' =>
      if negb (is_digit c) then None
      else if Ascii.eqb c "0" && starts_with is_digit s' then None
      else
        let '(n, rest) := parse_digits 0 digits in
        if starts_with (fun d => Ascii.eqb d "." || Ascii.eqb d "e"
                                 || Ascii.eqb d "E") rest
        then None
        else Some (JNumber (Finite (if negative then - n else n)%Z), rest)
  end.

Definition hex_value (c : ascii) : option nat :=
  let n := nat_of_ascii c in
  if is_digit c then Some (n - 48)
  else if (97 <=? n)%nat && (n <=? 102)%nat then Some (n - 87)
  else if (65 <=? n)%nat && (n <=? 70)%nat then Some (n - 55)
  else None.

Definition unescape (c : ascii) : option ascii :=
  if Ascii.eqb c dquote then Some dquote
  else if Ascii.eqb c backslash then Some backslash
  else if Ascii.eqb c "/" then Some "/"%char
  else if Ascii.eqb c "b" then Some (ascii_of_nat 8)
  else if Ascii.eqb c "t" then Some (ascii_of_nat 9)
  else if Ascii.eqb c "n" then Some (ascii_of_nat 10)
  else if Ascii.eqb c "f" then Some (ascii_of_nat 12)
  else if Ascii.eqb c "r" then Some (ascii_of_nat 13)
  else None.

(** The rest of a string literal after its opening quote. *)
Fixpoint parse_string (s : string) : option (string * string) :=
  match s with
  | EmptyString => None
  | String c s' =>
      if Ascii.eqb c dquote then Some ("", s')
      else if Ascii.eqb c backslash then
        match s' with
        | EmptyString => None
        | String e s'' =>
            if Ascii.eqb e "u" then
              match s'' with
              | String a (String b (String h (String l s3))) =>
                  if Ascii.eqb a "0" && Ascii.eqb b "0" then
                    match hex_value h, hex_value l, parse_string s3 with
                    | Some h, Some l, Some (body, rest) =>
                        Some (String (ascii_of_nat (16 * h + l)) body, rest)
                    | _, _, _ => None
                    end
                  else None
              | _ => None
              end
            else
              match unescape e, parse_string s'' with
              | Some c', Some (body, rest) => Some (String c' body, rest)
              | _, _ => None
              end
        end
      else if (nat_of_ascii c <? 32)%nat then None
      else
        match parse_string s' with
        | Some (body, rest) => Some (String c body, rest)
        | None => None
        end
  end.

Definition literal (word : string) (v : value) (s : string)
  : option (value * string) :=
  if String.prefix word s
  then Some (v, String.substring (String.length word)
                  (String.length s - String.length word) s)
  else None.

Fixpoint parse_value (fuel : nat) (s : string) : option (value * string) :=
  match fuel with
  | O => None
  | S fuel =>
      match skip_ws s with
      | EmptyString => None
      | String c rest =>
          if Ascii.eqb c "n" then literal "ull" JNull rest
          else if Ascii.eqb c "t" then literal "rue" (JBool true) rest
          else if Ascii.eqb c "f" then literal "alse" (JBool false) rest
          else if Ascii.eqb c dquote then
            match parse_string rest with
            | Some (str, rest') => Some (JString str, rest')
            | None => None
            end
          else if Ascii.eqb c "[" then
            if starts_with (Ascii.eqb "]") (skip_ws rest)
            then Some (JArray [], String.substring 1
                         (String.length (skip_ws rest) - 1) (skip_ws rest))
            else
              match parse_elements fuel rest with
              | Some (l, rest') => Some (JArray l, rest')
              | None => None
              end
          else if Ascii.eqb c "{" then
            if starts_with (Ascii.eqb "}") (skip_ws rest)
            then Some (JObject [], String.substring 1
                         (String.length (skip_ws rest) - 1) (skip_ws rest))
            else
              match parse_members fuel [] rest with
              | Some (ms, rest') => Some (JObject ms, rest')
              | None => None
              end
          else parse_number (String c rest)
      end
  end
with parse_elements (fuel : nat) (s : string) : option (list value * string) :=
  match fuel with
  | O => None
  | S fuel =>
      match parse_value fuel s with
      | None => None
      | Some (v, rest) =>
          match skip_ws rest with
          | EmptyString => None
          | String c rest' =>
              if Ascii.eqb c "," then
                match parse_elements fuel rest' with
                | Some (l, rest'') => Some (v :: l, rest'')
                | None => None
                end
              else if Ascii.eqb c "]" then Some ([v], rest')
              else None
          end
      end
  end
with parse_members (fuel : nat) (acc : list (string * value)) (s : string)
  : option (list (string * value) * string) :=
  match fuel with
  | O => None
  | S fuel =>
      match skip_ws s with
      | EmptyString => None
      | String q s1 =>
          if negb (Ascii.eqb q dquote) then None
          else
            match parse_string s1 with
            | None => None
            | Some (k, s2) =>
                match skip_ws s2 with
                | EmptyString => None
                | String colon s3 =>
                    if negb (Ascii.eqb colon ":") then None
                    else
                      match parse_value fuel s3 with
                      | None => None
                      | Some (v, s4) =>
                          (* a repeated key overwrites the earlier value *)
                          let acc := own_set k v acc in
                          match skip_ws s4 with
                          | EmptyString => None
                          | String c s5 =>
                              if Ascii.eqb c "," then parse_members fuel acc s5
                              else if Ascii.eqb c "}" then Some (acc, s5)
                              else None
                          end
                      end
                end
            end
      end
  end.

(** [JSON.parse(text)]: one value and nothing but white space after it. *)
Definition parse (text : string) : option value :=
  match parse_value (2 * String.length text + 2) text with
  | Some (v, rest) =>
      match skip_ws rest with
      | EmptyString => Some v
      | _ => None
      end
  | None => None
  end.

(** [localStorage.setItem] stores the string form of its argument, which for
    the answer [undefined] is the word itself.  The members of an object are
    written, and those of a parsed object are listed, in property order. *)
Definition codec : JSON :=
  {| JSON_stringify :=
       fun v => default "undefined" (stringify (in_property_order v));
     JSON_parse := fun text => in_property_order <$> parse text |}.

End JsonText.

Local Open Scope js_scope.

(** ** Vocabulary of the statements *)

(** The four feature flags of [hackOptions], the snapshot fields each one
    guards in [save], and the engine fields each one guards in [load]. *)
Inductive flag : Type :=
| Position
| Items
| Variables
| Dialog.

Definition enabled (f : flag) (o : HackOptions.t) : bool :=
  match f with
  | Position => HackOptions.position o
  | Items => HackOptions.items o
  | Variables => HackOptions.variables o
  | Dialog => HackOptions.dialog o
  end.

Definition set_flag (f : flag) (v : bool) (o : HackOptions.t) : HackOptions.t :=
  {| HackOptions.autosaveInterval := HackOptions.autosaveInterval o;
     HackOptions.loadOnStart := HackOptions.loadOnStart o;
     HackOptions.clearOnEnd := HackOptions.clearOnEnd o;
     HackOptions.clearOnStart := HackOptions.clearOnStart o;
     HackOptions.position :=
       match f with Position => v | _ => HackOptions.position o end;
     HackOptions.variables :=
       match f with Variables => v | _ => HackOptions.variables o end;
     HackOptions.items :=
       match f with Items => v | _ => HackOptions.items o end;
     HackOptions.dialog :=
       match f with Dialog => v | _ => HackOptions.dialog o end;
     HackOptions.key := HackOptions.key o |}.

Definition snapshot_fields (f : flag) : list string :=
  match f with
  | Position => ["room"; "x"; "y"]
  | Items => ["inventory"; "items"]
  | Variables => ["variables"]
  | Dialog => ["sequenceIndices"; "shuffles"]
  end.

(** Two engine states agree on the fields a flag guards. *)
Definition same_part (f : flag) (b b' : Bitsy.t) : Prop :=
  match f with
  | Position =>
      Bitsy.curRoom b' = Bitsy.curRoom b
      /\ Sprite.room (Bitsy.player b') = Sprite.room (Bitsy.player b)
      /\ Sprite.x (Bitsy.player b') = Sprite.x (Bitsy.player b)
      /\ Sprite.y (Bitsy.player b') = Sprite.y (Bitsy.player b)
  | Items =>
      Sprite.inventory (Bitsy.player b') = Sprite.inventory (Bitsy.player b)
      /\ Bitsy.room b' = Bitsy.room b
  | Variables => Bitsy.variable b' = Bitsy.variable b
  | Dialog => Bitsy.saveHack b' = Bitsy.saveHack b
  end.

(** Two worlds differ at most in the engine state. *)
Definition same_host (w w' : world) : Prop :=
  hackOptions w' = hackOptions w
  /\ localStorage w' = localStorage w
  /\ autosaveInterval w' = autosaveInterval w
  /\ intervals w' = intervals w
  /\ next_interval w' = next_interval w
  /\ calls w' = calls w.

(** Two worlds differ at most in the engine fields that [g] guards. *)
Definition touches_only (g : flag) (w w' : world) : Prop :=
  same_host w w'
  /\ Bitsy.isEnding (bitsy w') = Bitsy.isEnding (bitsy w)
  /\ forall f, f <> g -> same_part f (bitsy w) (bitsy w').

(** Every run of [m] relates the world before to the world after. *)
Definition preserves (R : world -> world -> Prop) {A} (m : M A) : Prop :=
  forall w, R w (fst (m w)).

(** The value of a snapshot field, where reading it does not throw. *)
Definition field (snapshot : value) (p : string) : value :=
  match Get snapshot p with
  | Normal v => v
  | Throw _ => JUndefined
  end.

Definition nullish (v : value) : bool :=
  match v with
  | JUndefined | JNull => true
  | _ => false
  end.

Definition is_array (v : value) : bool :=
  match v with
  | JArray _ => true
  | _ => false
  end.

(** The block of [load] that a flag guards. *)
Definition load_block (g : flag) : value -> M unit :=
  match g with
  | Position => load_position
  | Items => load_items
  | Variables => load_variables
  | Dialog => load_dialog
  end.

(** The blocks of the given flags, one after the other. *)
Fixpoint load_blocks (gs : list flag) (snapshot : value) : M unit :=
  match gs with
  | [] => ret tt
  | g :: gs' => load_block g snapshot ;;; load_blocks gs' snapshot
  end.

(** Two worlds of which the first has flag [f] off: they agree on the
    other flags and on the engine fields the other flags guard. *)
Definition agree_but (f : flag) (w1 w2 : world) : Prop :=
  enabled f (hackOptions w1) = false
  /\ forall g, g <> f ->
       enabled g (hackOptions w1) = enabled g (hackOptions w2)
       /\ same_part g (bitsy w1) (bitsy w2).

#[local] Instance flag_eq_dec : EqDecision flag.
Proof. solve_decision. Defined.

(** The engine state after the first block of [load] on a snapshot whose
    fields can be read (lines 124-130). *)
Definition restore_position (snapshot : value) (b : Bitsy.t) : Bitsy.t :=
  let b :=
    if ToBoolean (field snapshot "room")
    then set_room (field snapshot "room") b else b in
  if ToBoolean (field snapshot "x") && ToBoolean (field snapshot "y")
  then set_player (set_y (field snapshot "y"))
         (set_player (set_x (field snapshot "x")) b)
  else b.

Definition restore_inventory (snapshot : value) (b : Bitsy.t) : Bitsy.t :=
  if ToBoolean (field snapshot "inventory")
  then set_player (set_inventory (field snapshot "inventory")) b else b.

Definition restore_dialog (snapshot : value) (b : Bitsy.t) : Bitsy.t :=
  if ToBoolean (field snapshot "sequenceIndices")
  then set_saveHack
         {| SaveHack.sequenceIndices := field snapshot "sequenceIndices";
            SaveHack.shuffles := field snapshot "shuffles" |} b
  else b.

(** ** Sample worlds *)

Definition tea : value :=
  JObject [("id", JString "tea"); ("x", JNumber (Finite 3));
           ("y", JNumber (Finite 4))].

(** A game at its start: the player stands at (4, 4) of room 0. *)
Definition game_start : Bitsy.t :=
  {| Bitsy.curRoom := JString "0";
     Bitsy.player :=
       {| Sprite.room := JString "0"; Sprite.x := JNumber (Finite 4);
          Sprite.y := JNumber (Finite 4); Sprite.inventory := JObject [] |};
     Bitsy.room := [("0", JArray [tea]); ("1", JArray [])];
     Bitsy.variable := [(JString "a", JNumber (Finite 42))];
     Bitsy.saveHack :=
       {| SaveHack.sequenceIndices := JObject [];
          SaveHack.shuffles := JObject [] |};
     Bitsy.isEnding := false |}.

(** The same game later: the tea is picked up, the player stands at (7, 2)
    of room 1 and some dialog has run. *)
Definition game_later : Bitsy.t :=
  {| Bitsy.curRoom := JString "1";
     Bitsy.player :=
       {| Sprite.room := JString "1"; Sprite.x := JNumber (Finite 7);
          Sprite.y := JNumber (Finite 2);
          Sprite.inventory := JObject [("tea", JNumber (Finite 1))] |};
     Bitsy.room := [("0", JArray []); ("1", JArray [])];
     Bitsy.variable :=
       [(JString "a", JNumber (Finite 5)); (JString "met", JBool true)];
     Bitsy.saveHack :=
       {| SaveHack.sequenceIndices := JObject [("12", JNumber (Finite 2))];
          SaveHack.shuffles :=
            JObject [("13", JArray [JNumber (Finite 2); JNumber (Finite 0);
                                    JNumber (Finite 1)])] |};
     Bitsy.isEnding := false |}.

(** The later game with the player in the leftmost column. *)
Definition game_at_edge : Bitsy.t :=
  set_player (set_x (JNumber (Finite 0))) game_later.

Definition world_of (o : HackOptions.t) (b : Bitsy.t)
  (st : gmap string string) : world :=
  {| hackOptions := o; bitsy := b; localStorage := st;
     autosaveInterval := None; intervals := []; next_interval := 0;
     calls := [] |}.

(** The text [JSON.stringify] writes for a value. *)
Definition text_of (v : value) : string :=
  @JSON_stringify JsonText.codec v.

(** The element [entry[i]] where reading it does not throw. *)
Definition index (entry : value) (i : nat) : value :=
  match GetIndex entry i with
  | Normal v => v
  | Throw _ => JUndefined
  end.

(** The room table and the dialog variables after the two [forEach] loops of
    [load] have run to their end (lines 137-139 and 143-145). *)
Definition restore_items (entries : list value)
  (rooms : list (string * value)) : list (string * value) :=
  foldl (fun rooms entry =>
           Bitsy.set_room_items (ToString (index entry 0)) (index entry 1)
             rooms)
    rooms entries.

Definition restore_variables (entries : list value)
  (vars : list (value * value)) : list (value * value) :=
  foldl (fun vars entry =>
           Bitsy.SetVariable (index entry 0) (index entry 1) vars)
    vars entries.

(** The number of times a timer ran [save] in a run of events. *)
Fixpoint autosaves `{codec : JSON} (es : list event) (w : world) : nat :=
  match es with
  | [] => 0
  | e :: es' =>
      (match e with
       | timer id =>
           match interval_callback id w with
           | Some cb_save => 1
           | None => 0
           end
       | _ => 0
       end + autosaves es' (fst (handle e w)))%nat
  end.

(** Autosave is off and no timer is installed. *)
Definition no_autosave (w : world) : Prop :=
  HackOptions.autosaveInterval (hackOptions w) = PosInfinity
  /\ intervals w = [].

(** A property of the world, once true, stays true. *)
Definition keeps (P : world -> Prop) (w w' : world) : Prop := P w -> P w'.

Definition same_storage (w w' : world) : Prop :=
  localStorage w' = localStorage w
  /\ HackOptions.key (hackOptions w') = HackOptions.key (hackOptions w)
  /\ HackOptions.clearOnEnd (hackOptions w')
     = HackOptions.clearOnEnd (hackOptions w)
  /\ HackOptions.clearOnStart (hackOptions w')
     = HackOptions.clearOnStart (hackOptions w).

(** The events that go through the [reset_cur_game] hook, and the one that
    goes through the [startExportedGame] hook. *)
Definition resets (e : event) : bool :=
  match e with
  | tag_load _ _ | engine_reset_cur_game _ => true
  | _ => false
  end.

Definition starts (e : event) : bool :=
  match e with
  | engine_startExportedGame _ => true
  | _ => false
  end.

(** The event finds a snapshot stored and leaves none. *)
Definition removes_snapshot `{codec : JSON} (e : event) (w : world) : Prop :=
  is_Some (localStorage w !! HackOptions.key (hackOptions w))
  /\ localStorage (fst (handle e w)) !! HackOptions.key (hackOptions w) = None.

(** The default options with [clearOnStart] switched on, and with an
    autosave every five seconds. *)
Definition clear_on_start : HackOptions.t :=
  {| HackOptions.autosaveInterval := PosInfinity;
     HackOptions.loadOnStart := true;
     HackOptions.clearOnEnd := false;
     HackOptions.clearOnStart := true;
     HackOptions.position := true;
     HackOptions.variables := true;
     HackOptions.items := true;
     HackOptions.dialog := true;
     HackOptions.key := "snapshot" |}.

Definition autosave_5s : HackOptions.t :=
  {| HackOptions.autosaveInterval := Finite 5000;
     HackOptions.loadOnStart := true;
     HackOptions.clearOnEnd := false;
     HackOptions.clearOnStart := false;
     HackOptions.position := true;
     HackOptions.variables := true;
     HackOptions.items := true;
     HackOptions.dialog := true;
     HackOptions.key := "snapshot" |}.

(** A record nobody saved: [x] without [y], a number under [items]. *)
Definition unchecked_snapshot : value :=
  JObject [("x", JNumber (Finite 3));
           ("items", JNumber (Finite 5));
           ("sequenceIndices", JObject [("12", JNumber (Finite 1))])].

(** A record with every field of a wrong type that [load] still takes. *)
Definition mistyped_snapshot : value :=
  JObject [("room", JNumber (Finite 7));
           ("x", JString "left"); ("y", JBool true);
           ("inventory", JString "empty");
           ("items", JArray [JArray [JString "1"; JNumber (Finite 9)]]);
           ("variables", JArray [JArray [JString "a"; JArray []]]);
           ("sequenceIndices", JNumber (Finite 1))].

(** The names of the dialog variables are primitives and differ from each
    other, as the names the engine gives them do. *)
Fixpoint distinct_names (vars : list (value * value)) : Prop :=
  match vars with
  | [] => True
  | (name, _) :: vars' =>
      SameValueZero name name = true
      /\ Forall (fun kv => SameValueZero (fst kv) name = false) vars'
      /\ distinct_names vars'
  end.

(** At most the one autosave timer is installed, and the variable
    [autosaveInterval] names it. *)
Definition one_timer (w : world) : Prop :=
  (autosaveInterval w = None /\ intervals w = [])
  \/ exists id d,
       autosaveInterval w = Some id /\ intervals w = [(id, (cb_save, d))].

(** The rooms are the same, and the dialog variables of before are still
    there, in their places. *)
Definition keeps_names (w w' : world) : Prop :=
  map fst (Bitsy.room (bitsy w')) = map fst (Bitsy.room (bitsy w))
  /\ exists added,
       Bitsy.GetVariableNames (Bitsy.variable (bitsy w'))
       = Bitsy.GetVariableNames (Bitsy.variable (bitsy w)) ++ added.


(** An entry of the [items] field that [load] gets past, and one at which it
    throws.  The first can be indexed and names a room, whose items it sets,
    or a property that [bitsy.room] inherits, which sets no room.  The
    second cannot be indexed, or names neither. *)
Definition entry_passes (rooms : list (string * value)) (entry : value) : Prop :=
  nullish entry = false
  /\ (Bitsy.has_room (ToString (index entry 0)) rooms
      || object_prototype_key (ToString (index entry 0))) = true.

Definition entry_throws (rooms : list (string * value)) (entry : value) : Prop :=
  nullish entry = true
  \/ (Bitsy.has_room (ToString (index entry 0)) rooms
      || object_prototype_key (ToString (index entry 0))) = false.


(** The place of a flag's block in [load] (lines 123, 132, 142, 147). *)
Definition block_order (f : flag) : nat :=
  match f with
  | Position => 0
  | Items => 1
  | Variables => 2
  | Dialog => 3
  end.

(** The [items] block of [load] has nothing to stop at: its flag is off, or
    [items] is falsy, or [items] is an array all of whose entries pass. *)
Definition items_block_completes (o : HackOptions.t) (snapshot : value)
  (rooms : list (string * value)) : Prop :=
  HackOptions.items o = false
  \/ ToBoolean (field snapshot "items") = false
  \/ exists entries,
       field snapshot "items" = JArray entries
       /\ Forall (entry_passes rooms) entries.

(** The same for the [variables] block, whose entries need only be
    indexable. *)
Definition variables_block_completes (o : HackOptions.t) (snapshot : value)
  : Prop :=
  HackOptions.variables o = false
  \/ ToBoolean (field snapshot "variables") = false
  \/ exists entries,
       field snapshot "variables" = JArray entries
       /\ Forall (fun entry => nullish entry = false) entries.

(** A record with a number under [items] and an entry under [variables],
    and one whose [items] names a room the game does not have. *)
Definition snapshot_with_bad_items : value :=
  JObject [("items", JNumber (Finite 5));
           ("variables", JArray [JArray [JString "a"; JNumber (Finite 1)]])].

Definition snapshot_with_unknown_room : value :=
  JObject [("items", JArray [JArray [JString "cellar"; JArray []]]);
           ("variables", JArray [JArray [JString "a"; JNumber (Finite 1)]])].

(** The world in which the [load] of a reset runs, timers apart: the
    snapshot is gone when the [clearOnEnd] hook removed it, and the engine is
    the freshly reloaded game with the hack's own [saveHack] object. *)
Definition after_reset (fresh : Bitsy.t) (w : world) : world :=
  with_bitsy (fun b => set_saveHack (Bitsy.saveHack b) fresh)
    (if HackOptions.clearOnEnd (hackOptions w) && Bitsy.isEnding (bitsy w)
     then with_localStorage
            (fun st => delete (HackOptions.key (hackOptions w)) st) w
     else w).

(** The title the [load] tag shows: [parameters[0] || '']. *)
Definition load_title (parameters : list value) : value :=
  let title := default JUndefined (parameters !! 0%nat) in
  if ToBoolean title then title else JString "".

(** The default options with [clearOnEnd] on, and with [loadOnStart]
    off. *)
Definition clear_on_end : HackOptions.t :=
  {| HackOptions.autosaveInterval := PosInfinity;
     HackOptions.loadOnStart := true;
     HackOptions.clearOnEnd := true;
     HackOptions.clearOnStart := false;
     HackOptions.position := true;
     HackOptions.variables := true;
     HackOptions.items := true;
     HackOptions.dialog := true;
     HackOptions.key := "snapshot" |}.

Definition no_load_on_start : HackOptions.t :=
  HackOptions.set_loadOnStart false HackOptions.default.

(** The later game at an ending. *)
Definition game_ended : Bitsy.t :=
  {| Bitsy.curRoom := Bitsy.curRoom game_later;
     Bitsy.player := Bitsy.player game_later;
     Bitsy.room := Bitsy.room game_later;
     Bitsy.variable := Bitsy.variable game_later;
     Bitsy.saveHack := Bitsy.saveHack game_later;
     Bitsy.isEnding := true |}.


(** * Properties *)

(** ** Computations that leave part of the world alone *)

Section frames.
Context (R : world -> world -> Prop) `{!PreOrder R}.

Lemma preserves_ret {A} (a : A) : preserves R (ret a).
Proof. intros w. simpl. reflexivity. Qed.

Lemma preserves_throw {A} (e : error) : preserves R (@throw A e).
Proof. intros w. simpl. reflexivity. Qed.

Lemma preserves_lift {A} (c : completion A) : preserves R (lift c).
Proof. intros w. simpl. reflexivity. Qed.

Lemma preserves_gets {A} (f : world -> A) : preserves R (gets f).
Proof. intros w. simpl. reflexivity. Qed.

Lemma preserves_bind {A B} (m : M A) (k : A -> M B) :
  preserves R m -> (forall a, preserves R (k a)) -> preserves R (bind m k).
Proof.
  intros Hm Hk w. unfold bind.
  specialize (Hm w). destruct (m w) as [w' [a|e]]; simpl in *.
  - etransitivity; [exact Hm | apply Hk].
  - exact Hm.
Qed.

Lemma preserves_when (b : bool) (m : M unit) :
  preserves R m -> preserves R (when b m).
Proof. intros Hm. destruct b; simpl; [exact Hm | apply preserves_ret]. Qed.

Lemma preserves_if {A} (b : bool) (m1 m2 : M A) :
  preserves R m1 -> preserves R m2 -> preserves R (if b then m1 else m2).
Proof. destruct b; auto. Qed.

Lemma preserves_forEach (f : value -> M unit) (l : list value) :
  (forall e, preserves R (f e)) -> preserves R (forEach f l).
Proof.
  intros Hf. induction l as [|e l IH]; simpl.
  - apply preserves_ret.
  - apply preserves_bind; auto.
Qed.

Lemma preserves_call_forEach (v : value) (f : value -> M unit) :
  (forall e, preserves R (f e)) -> preserves R (call_forEach v f).
Proof.
  intros Hf. destruct v; simpl;
    try apply preserves_throw. now apply preserves_forEach.
Qed.

End frames.

Ltac frame_order :=
  lazymatch goal with
  | |- PreOrder _ => apply _
  | _ => idtac
  end.

Ltac frame_step :=
  first
    [ apply preserves_ret; frame_order
    | apply preserves_throw; frame_order
    | apply preserves_lift; frame_order
    | apply preserves_gets; frame_order
    | apply preserves_bind; frame_order; [| intros ?]
    | apply preserves_when; frame_order
    | apply preserves_if; frame_order
    | apply preserves_call_forEach; frame_order; intros ?
    | apply preserves_forEach; frame_order; intros ? ].

#[local] Instance same_host_preorder : PreOrder same_host.
Proof.
  split.
  - intros w. repeat split.
  - intros w1 w2 w3 H12 H23. unfold same_host in *.
    destruct H12 as (?&?&?&?&?&?), H23 as (?&?&?&?&?&?).
    repeat split; congruence.
Qed.

#[local] Instance same_part_equivalence (f : flag) : Equivalence (same_part f).
Proof.
  split.
  - intros b. destruct f; simpl; auto.
  - intros b b'. destruct f; simpl; intuition congruence.
  - intros b1 b2 b3. destruct f; simpl; intuition congruence.
Qed.

#[local] Instance touches_only_preorder (g : flag) : PreOrder (touches_only g).
Proof.
  split.
  - intros w. split; [reflexivity | split; [reflexivity |]].
    intros f _. reflexivity.
  - intros w1 w2 w3 (Hh & He & Hp) (Hh' & He' & Hp').
    split; [etransitivity; eassumption | split; [congruence |]].
    intros f Hf. etransitivity; [apply Hp | apply Hp']; assumption.
Qed.

Lemma touches_only_with_bitsy (g : flag) (h : Bitsy.t -> Bitsy.t) :
  (forall b, Bitsy.isEnding (h b) = Bitsy.isEnding b
             /\ forall f, f <> g -> same_part f b (h b)) ->
  preserves (touches_only g) (modify (with_bitsy h)).
Proof.
  intros Hh w. destruct (Hh (bitsy w)) as [He Hp].
  split; [repeat split | split; [exact He | exact Hp]].
Qed.

(** ** What each block of [load] touches *)

Ltac touch :=
  lazymatch goal with
  | |- preserves _ (modify (with_bitsy ?h)) =>
      apply (touches_only_with_bitsy _ h);
      let b := fresh "b" in
      let f := fresh "f" in
      intros b; split; [reflexivity |];
      intros f ?; destruct f; simpl; try congruence; auto
  end.

Lemma load_position_touches (snapshot : value) :
  preserves (touches_only Position) (load_position snapshot).
Proof. unfold load_position. repeat frame_step; touch. Qed.

Lemma load_items_touches (snapshot : value) :
  preserves (touches_only Items) (load_items snapshot).
Proof. unfold load_items, load_item. repeat frame_step; touch. Qed.

Lemma load_variables_touches (snapshot : value) :
  preserves (touches_only Variables) (load_variables snapshot).
Proof. unfold load_variables, load_variable. repeat frame_step; touch. Qed.

Lemma load_dialog_touches (snapshot : value) :
  preserves (touches_only Dialog) (load_dialog snapshot).
Proof. unfold load_dialog. repeat frame_step; touch. Qed.

Lemma load_block_touches (g : flag) (snapshot : value) :
  preserves (touches_only g) (load_block g snapshot).
Proof.
  destruct g; simpl;
    [ apply load_position_touches | apply load_items_touches
    | apply load_variables_touches | apply load_dialog_touches ].
Qed.

(** A block whose flag is off does nothing. *)
Lemma load_block_off (g : flag) (snapshot : value) (w : world) :
  enabled g (hackOptions w) = false ->
  load_block g snapshot w = (w, Normal tt).
Proof.
  intros Hoff.
  destruct g; simpl in *;
    unfold load_position, load_items, load_variables, load_dialog,
      bind, gets, when; simpl; rewrite Hoff; reflexivity.
Qed.

Lemma touches_only_same_host (g : flag) (w w' : world) :
  touches_only g w w' -> same_host w w'.
Proof. intros [H _]. exact H. Qed.

Lemma load_block_same_host (g : flag) (snapshot : value) (w : world) :
  same_host w (fst (load_block g snapshot w)).
Proof. eapply touches_only_same_host, load_block_touches. Qed.

(** With its flag off, the fields of [f] survive every block. *)
Lemma load_block_keeps (f g : flag) (snapshot : value) (w : world) :
  enabled f (hackOptions w) = false ->
  same_part f (bitsy w) (bitsy (fst (load_block g snapshot w))).
Proof.
  intros Hoff. destruct (decide (g = f)) as [->|Hne].
  - rewrite load_block_off by assumption. reflexivity.
  - destruct (load_block_touches g snapshot w) as (_ & _ & Hp). auto.
Qed.

Lemma load_blocks_same_host (gs : list flag) (snapshot : value) (w : world) :
  same_host w (fst (load_blocks gs snapshot w)).
Proof.
  revert w. induction gs as [|g gs IH]; intros w; simpl.
  - reflexivity.
  - unfold bind. pose proof (load_block_same_host g snapshot w) as Hg.
    destruct (load_block g snapshot w) as [w' [[]|e]]; simpl in *.
    + etransitivity; [exact Hg | apply IH].
    + exact Hg.
Qed.

Lemma load_blocks_keeps (f : flag) (gs : list flag) (snapshot : value)
  (w : world) :
  enabled f (hackOptions w) = false ->
  same_part f (bitsy w) (bitsy (fst (load_blocks gs snapshot w))).
Proof.
  revert w. induction gs as [|g gs IH]; intros w Hoff; simpl.
  - reflexivity.
  - unfold bind.
    pose proof (load_block_keeps f g snapshot w Hoff) as Hk.
    pose proof (load_block_same_host g snapshot w) as (Ho & _).
    destruct (load_block g snapshot w) as [w' [[]|e]]; simpl in *.
    + etransitivity; [exact Hk | apply IH; congruence].
    + exact Hk.
Qed.

Lemma load_snapshot_blocks (snapshot : value) (w : world) :
  load_snapshot snapshot w
  = load_blocks [Position; Items; Variables; Dialog] snapshot w.
Proof.
  unfold load_snapshot. simpl. unfold bind.
  destruct (load_position snapshot w) as [w1 [[]|?]]; [|reflexivity].
  destruct (load_items snapshot w1) as [w2 [[]|?]]; [|reflexivity].
  destruct (load_variables snapshot w2) as [w3 [[]|?]]; [|reflexivity].
  destruct (load_dialog snapshot w3) as [w4 [[]|?]]; reflexivity.
Qed.

(** ** What each block of [load] depends on *)

Lemma load_item_eq (entry : value) (w : world) :
  load_item entry w =
  match GetIndex entry 0 with
  | Throw e => (w, Throw e)
  | Normal id =>
      if Bitsy.has_room (ToString id) (Bitsy.room (bitsy w)) then
        match GetIndex entry 1 with
        | Throw e => (w, Throw e)
        | Normal its =>
            (with_bitsy
               (set_rooms (Bitsy.set_room_items (ToString id) its)) w,
             Normal tt)
        end
      else if object_prototype_key (ToString id) then
        match GetIndex entry 1 with
        | Throw e => (w, Throw e)
        | Normal _ => (w, Normal tt)
        end
      else (w, Throw TypeError)
  end.
Proof.
  unfold load_item, bind, lift, gets, modify, throw, ret.
  destruct (GetIndex entry 0); [|reflexivity].
  destruct (Bitsy.has_room _ _).
  - destruct (GetIndex entry 1); reflexivity.
  - destruct (object_prototype_key _); [|reflexivity].
    destruct (GetIndex entry 1); reflexivity.
Qed.

Lemma load_variable_eq (entry : value) (w : world) :
  load_variable entry w =
  match GetIndex entry 0, GetIndex entry 1 with
  | Normal name, Normal v =>
      (with_bitsy (set_variables (Bitsy.SetVariable name v)) w, Normal tt)
  | Throw e, _ | _, Throw e => (w, Throw e)
  end.
Proof.
  unfold load_variable, bind, lift, modify.
  destruct (GetIndex entry 0); [|reflexivity].
  destruct (GetIndex entry 1); reflexivity.
Qed.

Lemma forEach_load_item_deterministic (l : list value) (w1 w2 : world) :
  same_part Items (bitsy w1) (bitsy w2) ->
  snd (forEach load_item l w1) = snd (forEach load_item l w2)
  /\ same_part Items (bitsy (fst (forEach load_item l w1)))
                     (bitsy (fst (forEach load_item l w2))).
Proof.
  revert w1 w2. induction l as [|e l IH]; intros w1 w2 Hsame; simpl.
  - auto.
  - unfold bind. rewrite !load_item_eq.
    destruct Hsame as [Hinv Hrooms]. rewrite Hrooms.
    destruct (GetIndex e 0) as [id|]; simpl; [|split; [reflexivity|split; assumption]].
    destruct (Bitsy.has_room _ _); simpl.
    + destruct (GetIndex e 1) as [its|]; simpl;
        [|split; [reflexivity|split; assumption]].
      apply IH. split; simpl; [assumption | congruence].
    + destruct (object_prototype_key _); simpl;
        [|split; [reflexivity|split; assumption]].
      destruct (GetIndex e 1) as [its|]; simpl;
        [|split; [reflexivity|split; assumption]].
      apply IH. split; assumption.
Qed.

Lemma forEach_load_variable_deterministic (l : list value) (w1 w2 : world) :
  same_part Variables (bitsy w1) (bitsy w2) ->
  snd (forEach load_variable l w1) = snd (forEach load_variable l w2)
  /\ same_part Variables (bitsy (fst (forEach load_variable l w1)))
                         (bitsy (fst (forEach load_variable l w2))).
Proof.
  revert w1 w2. induction l as [|e l IH]; intros w1 w2 Hsame; simpl.
  - auto.
  - unfold bind. rewrite !load_variable_eq.
    destruct (GetIndex e 0) as [name|]; simpl; [|auto].
    destruct (GetIndex e 1) as [v|]; simpl; [|auto].
    apply IH. simpl in *. congruence.
Qed.

(** Reading a field of a snapshot throws exactly when the snapshot is
    [null] or [undefined]. *)
Lemma Get_field (snapshot : value) (p : string) :
  Get snapshot p
  = if nullish snapshot then Throw TypeError else Normal (field snapshot p).
Proof. unfold field. destruct snapshot; reflexivity. Qed.

Lemma load_position_eq (snapshot : value) (w : world) :
  load_position snapshot w =
  if negb (HackOptions.position (hackOptions w)) then (w, Normal tt)
  else if nullish snapshot then (w, Throw TypeError)
  else (with_bitsy (restore_position snapshot) w, Normal tt).
Proof.
  unfold load_position, restore_position, bind, gets, lift, when, modify, ret.
  destruct (HackOptions.position (hackOptions w)); simpl; [|reflexivity].
  rewrite !Get_field. destruct (nullish snapshot); [reflexivity|].
  destruct w as [o b st a i n c].
  destruct (ToBoolean (field snapshot "room")),
    (ToBoolean (field snapshot "x")), (ToBoolean (field snapshot "y"));
    reflexivity.
Qed.

Lemma load_items_eq (snapshot : value) (w : world) :
  load_items snapshot w =
  if negb (HackOptions.items (hackOptions w)) then (w, Normal tt)
  else if nullish snapshot then (w, Throw TypeError)
  else
    let w' := with_bitsy (restore_inventory snapshot) w in
    if ToBoolean (field snapshot "items")
    then call_forEach (field snapshot "items") load_item w'
    else (w', Normal tt).
Proof.
  unfold load_items, restore_inventory, bind, gets, lift, when, modify, ret.
  destruct (HackOptions.items (hackOptions w)); simpl; [|reflexivity].
  rewrite !Get_field. destruct (nullish snapshot); [reflexivity|].
  destruct w as [o b st a i n c].
  destruct (ToBoolean (field snapshot "inventory")),
    (ToBoolean (field snapshot "items")); reflexivity.
Qed.

Lemma load_variables_eq (snapshot : value) (w : world) :
  load_variables snapshot w =
  if negb (HackOptions.variables (hackOptions w)) then (w, Normal tt)
  else if nullish snapshot then (w, Throw TypeError)
  else if ToBoolean (field snapshot "variables")
  then call_forEach (field snapshot "variables") load_variable w
  else (w, Normal tt).
Proof.
  unfold load_variables, bind, gets, lift, when, ret.
  destruct (HackOptions.variables (hackOptions w)); simpl; [|reflexivity].
  rewrite Get_field. destruct (nullish snapshot); [reflexivity|].
  destruct (ToBoolean (field snapshot "variables")); reflexivity.
Qed.

Lemma load_dialog_eq (snapshot : value) (w : world) :
  load_dialog snapshot w =
  if negb (HackOptions.dialog (hackOptions w)) then (w, Normal tt)
  else if nullish snapshot then (w, Throw TypeError)
  else (with_bitsy (restore_dialog snapshot) w, Normal tt).
Proof.
  unfold load_dialog, restore_dialog, bind, gets, lift, when, modify, ret.
  destruct (HackOptions.dialog (hackOptions w)); simpl; [|reflexivity].
  rewrite !Get_field. destruct (nullish snapshot); [reflexivity|].
  destruct w as [o b st a i n c].
  destruct (ToBoolean (field snapshot "sequenceIndices")); reflexivity.
Qed.

(** The completion of a block and the fields it leaves behind are decided by
    the snapshot, the flag of the block and the fields the block guards. *)
Lemma load_block_deterministic (g : flag) (snapshot : value) (w1 w2 : world) :
  enabled g (hackOptions w1) = enabled g (hackOptions w2) ->
  same_part g (bitsy w1) (bitsy w2) ->
  snd (load_block g snapshot w1) = snd (load_block g snapshot w2)
  /\ same_part g (bitsy (fst (load_block g snapshot w1)))
                 (bitsy (fst (load_block g snapshot w2))).
Proof.
  intros Hflag Hsame. destruct g; simpl in Hflag |- *.
  - rewrite !load_position_eq, <- Hflag.
    destruct (HackOptions.position (hackOptions w1)); simpl; [|auto].
    destruct (nullish snapshot); simpl; [auto|].
    split; [reflexivity|]. unfold restore_position.
    destruct Hsame as (?&?&?&?).
    destruct (ToBoolean (field snapshot "room")),
      (ToBoolean (field snapshot "x")), (ToBoolean (field snapshot "y"));
      simpl; auto.
  - rewrite !load_items_eq, <- Hflag.
    destruct (HackOptions.items (hackOptions w1)); simpl; [|auto].
    destruct (nullish snapshot); simpl; [auto|].
    assert (Hsame' :
      same_part Items (bitsy (with_bitsy (restore_inventory snapshot) w1))
                      (bitsy (with_bitsy (restore_inventory snapshot) w2))).
    { unfold restore_inventory. destruct Hsame.
      destruct (ToBoolean (field snapshot "inventory")); split; simpl; auto. }
    destruct (ToBoolean (field snapshot "items")); [|auto].
    destruct (field snapshot "items"); simpl; auto.
    apply forEach_load_item_deterministic; assumption.
  - rewrite !load_variables_eq, <- Hflag.
    destruct (HackOptions.variables (hackOptions w1)); simpl; [|auto].
    destruct (nullish snapshot); simpl; [auto|].
    destruct (ToBoolean (field snapshot "variables")); [|auto].
    destruct (field snapshot "variables"); simpl; auto.
    apply forEach_load_variable_deterministic; assumption.
  - rewrite !load_dialog_eq, <- Hflag.
    destruct (HackOptions.dialog (hackOptions w1)); simpl; [|auto].
    destruct (nullish snapshot); simpl; [auto|].
    split; [reflexivity|]. unfold restore_dialog. simpl in Hsame.
    destruct (ToBoolean (field snapshot "sequenceIndices")); simpl; auto.
Qed.

(** Switching one flag off does not change what the other blocks do: where
    the run with the flag on completes, the run with the flag off completes
    as well, and the two agree on every field another flag guards. *)
Lemma load_blocks_agree (f : flag) (gs : list flag) (snapshot : value)
  (w1 w2 : world) :
  agree_but f w1 w2 ->
  snd (load_blocks gs snapshot w2) = Normal tt ->
  snd (load_blocks gs snapshot w1) = Normal tt
  /\ agree_but f (fst (load_blocks gs snapshot w1))
                 (fst (load_blocks gs snapshot w2)).
Proof.
  revert w1 w2. induction gs as [|g gs IH]; intros w1 w2 Hagree Hnormal.
  - simpl. auto.
  - simpl in *. unfold bind in *.
    destruct Hagree as [Hoff Hrest].
    pose proof (load_block_touches g snapshot w1) as ((Ho1 & _) & _ & Hp1).
    pose proof (load_block_touches g snapshot w2) as ((Ho2 & _) & _ & Hp2).
    destruct (decide (g = f)) as [->|Hne].
    + rewrite (load_block_off f snapshot w1 Hoff) in *.
      destruct (load_block f snapshot w2) as [w2' [[]|e]];
        simpl in *; [|discriminate].
      apply IH; [|assumption].
      split; [assumption|]. intros g Hg.
      destruct (Hrest g Hg) as [Hflag Hsame].
      split; [congruence|].
      etransitivity; [exact Hsame | apply Hp2; assumption].
    + destruct (Hrest g Hne) as [Hflag Hsame].
      destruct (load_block_deterministic g snapshot w1 w2 Hflag Hsame)
        as [Hc Hs].
      destruct (load_block g snapshot w1) as [w1' c1],
        (load_block g snapshot w2) as [w2' c2]; simpl in *. subst c2.
      destruct c1 as [[]|e]; [|discriminate].
      apply IH; [|assumption].
      split; [congruence|]. intros g' Hg'.
      destruct (Hrest g' Hg') as [Hflag' Hsame'].
      split; [congruence|].
      destruct (decide (g' = g)) as [->|Hne']; [exact Hs|].
      etransitivity; [symmetry; apply Hp1; assumption|].
      etransitivity; [exact Hsame'|].
      apply Hp2; assumption.
Qed.

(** ** The three operations *)

Section operations.
Context `{codec : JSON}.

Lemma load_eq (w : world) :
  load w =
  match localStorage w !! HackOptions.key (hackOptions w) with
  | None | Some EmptyString => (w, Normal tt)
  | Some text =>
      match JSON_parse text with
      | None => (w, Throw SyntaxError)
      | Some snapshot => load_snapshot snapshot w
      end
  end.
Proof.
  unfold load, bind, gets. simpl.
  destruct (localStorage w !! _) as [[|c text]|]; try reflexivity.
  destruct (JSON_parse _); reflexivity.
Qed.

Lemma save_eq (w : world) :
  save w =
  (with_localStorage
     (fun st => <[HackOptions.key (hackOptions w) :=
                    JSON_stringify
                      (JObject (build_snapshot (hackOptions w) (bitsy w)))]> st)
     w, Normal tt).
Proof. reflexivity. Qed.

Lemma clear_eq (w : world) :
  clear w =
  (with_localStorage (fun st => delete (HackOptions.key (hackOptions w)) st) w,
   Normal tt).
Proof. reflexivity. Qed.

Lemma load_snapshot_same_host (snapshot : value) (w : world) :
  same_host w (fst (load_snapshot snapshot w)).
Proof. rewrite load_snapshot_blocks. apply load_blocks_same_host. Qed.

Lemma load_same_host : preserves same_host load.
Proof.
  intros w. rewrite load_eq.
  destruct (localStorage w !! _) as [[|c text]|]; try reflexivity.
  destruct (JSON_parse _); [apply load_snapshot_same_host | reflexivity].
Qed.

(** C2. When nothing is stored under [hackOptions.key], [load] returns
    without an exception and leaves the whole world, and with it the room,
    the player, the inventory, the items of the rooms, the dialog variables
    and the dialog progress, as it was. *)
Theorem load_without_snapshot (w : world) :
  localStorage w !! HackOptions.key (hackOptions w) = None ->
  load w = (w, Normal tt).
Proof. intros Hnone. rewrite load_eq, Hnone. reflexivity. Qed.

Lemma perform_hackOptions (op : operation) (w : world) :
  hackOptions (fst (perform op w)) = hackOptions w.
Proof.
  destruct op; simpl; [reflexivity | | reflexivity].
  apply load_same_host.
Qed.

Lemma perform_localStorage (op : operation) (w : world) :
  localStorage (fst (perform op w)) =
  match op with
  | op_save =>
      <[HackOptions.key (hackOptions w) :=
          JSON_stringify (JObject (build_snapshot (hackOptions w) (bitsy w)))]>
        (localStorage w)
  | op_load => localStorage w
  | op_clear => delete (HackOptions.key (hackOptions w)) (localStorage w)
  end.
Proof.
  destruct op; simpl; [reflexivity | | reflexivity].
  apply load_same_host.
Qed.

Lemma perform_all_hackOptions (ops : list operation) (w : world) :
  hackOptions (perform_all ops w) = hackOptions w.
Proof.
  revert w. induction ops as [|op ops IH]; intros w; simpl; [reflexivity|].
  rewrite IH. apply perform_hackOptions.
Qed.

Lemma perform_all_other_keys (ops : list operation) (w : world) (k : string) :
  k <> HackOptions.key (hackOptions w) ->
  localStorage (perform_all ops w) !! k = localStorage w !! k.
Proof.
  revert w. induction ops as [|op ops IH]; intros w Hk; simpl; [reflexivity|].
  rewrite IH by (rewrite perform_hackOptions; exact Hk).
  rewrite perform_localStorage. destruct op.
  - apply lookup_insert_ne. congruence.
  - reflexivity.
  - apply lookup_delete_ne. congruence.
Qed.

(** C3. Whatever sequence of [save], [load] and [clear] runs, the key stays
    the one of [hackOptions] and no other key of [localStorage] is written,
    so the storage holds at most the one snapshot besides what it held
    before; a [save] puts under that key the text of a record built from the
    engine state alone, whatever was stored there, and [clear] removes the
    key. *)
Theorem single_slot (ops : list operation) (w : world) (k : string) :
  k <> HackOptions.key (hackOptions w) ->
  let w' := perform_all ops w in
  let slot := HackOptions.key (hackOptions w) in
  localStorage w' !! k = localStorage w !! k
  /\ dom (localStorage w') ⊆ dom (localStorage w) ∪ {[slot]}
  /\ HackOptions.key (hackOptions w') = slot
  /\ localStorage (fst (save w'))
     = <[slot := JSON_stringify
                   (JObject (build_snapshot (hackOptions w') (bitsy w')))]>
         (localStorage w')
  /\ localStorage (fst (load w')) = localStorage w'
  /\ localStorage (fst (clear w')) = delete slot (localStorage w')
  /\ localStorage (fst (clear w')) !! slot = None.
Proof.
  intros Hk w' slot.
  assert (Hkey : hackOptions w' = hackOptions w)
    by apply perform_all_hackOptions.
  split; [apply perform_all_other_keys; exact Hk|].
  split.
  { intros j Hj. apply elem_of_union.
    destruct (decide (j = slot)) as [->|Hne].
    - right. apply elem_of_singleton. reflexivity.
    - left. apply elem_of_dom. apply elem_of_dom in Hj.
      unfold w' in Hj. rewrite perform_all_other_keys in Hj; assumption. }
  split; [unfold slot; rewrite Hkey; reflexivity|].
  split; [rewrite save_eq; simpl; rewrite Hkey; reflexivity|].
  split; [apply load_same_host|].
  split; [rewrite clear_eq; simpl; rewrite Hkey; reflexivity|].
  rewrite clear_eq. simpl. rewrite Hkey. apply lookup_delete_eq.
Qed.

(** C4. With the four flags on, what [save] stores is the text of a record
    with exactly the fields [room], [x], [y], [inventory], [items] (each room
    id paired with the item list of the room), [variables] (each name paired
    with its value), [sequenceIndices] and [shuffles], in this order, taken
    from the engine state. *)
Theorem snapshot_contents (w : world) :
  let o := hackOptions w in
  let b := bitsy w in
  HackOptions.position o = true ->
  HackOptions.items o = true ->
  HackOptions.variables o = true ->
  HackOptions.dialog o = true ->
  let snapshot :=
    [("room", Bitsy.curRoom b);
     ("x", Sprite.x (Bitsy.player b));
     ("y", Sprite.y (Bitsy.player b));
     ("inventory", Sprite.inventory (Bitsy.player b));
     ("items", JArray (map (fun r => JArray [JString (fst r); snd r])
                         (Bitsy.room b)));
     ("variables",
      JArray (map (fun name => JArray [name; Bitsy.GetVariable name
                                                (Bitsy.variable b)])
                (Bitsy.GetVariableNames (Bitsy.variable b))));
     ("sequenceIndices", SaveHack.sequenceIndices (Bitsy.saveHack b));
     ("shuffles", SaveHack.shuffles (Bitsy.saveHack b))] in
  build_snapshot o b = snapshot
  /\ map fst (build_snapshot o b)
     = ["room"; "x"; "y"; "inventory"; "items"; "variables";
        "sequenceIndices"; "shuffles"]
  /\ localStorage (fst (save w)) !! HackOptions.key o
     = Some (JSON_stringify (JObject snapshot)).
Proof.
  intros o b Hp Hi Hv Hd snapshot.
  assert (Hs : build_snapshot o b = snapshot).
  { unfold build_snapshot. rewrite Hp, Hi, Hv, Hd. reflexivity. }
  split; [exact Hs|]. split; [rewrite Hs; reflexivity|].
  rewrite save_eq. simpl. fold o b. rewrite Hs. apply lookup_insert_eq.
Qed.

End operations.

(** C10. The [narrat] tag reads its first parameter.  When the parameter is
    missing or falsy the only host call is the warning and the jump is not
    called; when it is truthy the only host call is [window.narrat.jump]
    with that label. *)
Theorem narrat_guard (parameters : list value) (w : world) :
  let label := default JUndefined (parameters !! 0%nat) in
  narrat_tag parameters w
  = (with_call
       (if ToBoolean label then narrat_jump label
        else console_warn "Tried to jump to narrat label, but no label") w,
     Normal tt)
  /\ (In (narrat_jump label) (calls (fst (narrat_tag parameters w)))
      <-> ToBoolean label = true \/ In (narrat_jump label) (calls w)).
Proof.
  intros label. unfold narrat_tag, narratJump. fold label.
  destruct (ToBoolean label) eqn:Htruthy; simpl.
  - split; [reflexivity|]. rewrite in_app_iff. simpl. tauto.
  - split; [reflexivity|]. rewrite in_app_iff. simpl.
    split; [intros [?|[?|[]]]; [auto | discriminate] | intros [?|?]; [discriminate | auto]].
Qed.

(** ** The blocks of [load] in sequence *)

Lemma load_blocks_app (gs1 gs2 : list flag) (snapshot : value) (w : world) :
  load_blocks (gs1 ++ gs2) snapshot w =
  match load_blocks gs1 snapshot w with
  | (w1, Normal _) => load_blocks gs2 snapshot w1
  | (w1, Throw e) => (w1, Throw e)
  end.
Proof.
  revert w. induction gs1 as [|g gs1 IH]; intros w; simpl; [reflexivity|].
  unfold bind. destruct (load_block g snapshot w) as [w' [[]|e]]; auto.
Qed.

(** Blocks of other flags leave the fields of [f] alone. *)
Lemma load_blocks_frame (f : flag) (gs : list flag) (snapshot : value)
  (w : world) :
  ~ In f gs ->
  same_part f (bitsy w) (bitsy (fst (load_blocks gs snapshot w))).
Proof.
  revert w. induction gs as [|g gs IH]; intros w Hnotin; simpl.
  - reflexivity.
  - unfold bind.
    destruct (load_block_touches g snapshot w) as (_ & _ & Hp).
    assert (Hg : same_part f (bitsy w) (bitsy (fst (load_block g snapshot w)))).
    { apply Hp. intros ->. apply Hnotin. left. reflexivity. }
    destruct (load_block g snapshot w) as [w' [[]|e]]; simpl in *.
    + etransitivity; [exact Hg|]. apply IH.
      intros Hin. apply Hnotin. right. exact Hin.
    + exact Hg.
Qed.

(** When the blocks before the block of [g] complete, the fields of [g] end
    as the block of [g] alone leaves them. *)
Lemma load_blocks_part (g : flag) (gs1 gs2 : list flag) (snapshot : value)
  (w : world) :
  ~ In g gs1 -> ~ In g gs2 ->
  snd (load_blocks gs1 snapshot w) = Normal tt ->
  same_part g (bitsy (fst (load_block g snapshot w)))
              (bitsy (fst (load_blocks (gs1 ++ g :: gs2) snapshot w)))
  /\ (snd (load_block g snapshot w) <> Normal tt ->
      snd (load_blocks (gs1 ++ g :: gs2) snapshot w)
      = snd (load_block g snapshot w)).
Proof.
  intros Hgs1 Hgs2 Hnormal. rewrite load_blocks_app.
  pose proof (load_blocks_frame g gs1 snapshot w Hgs1) as Hpre.
  pose proof (load_blocks_same_host gs1 snapshot w) as (Ho & _).
  destruct (load_blocks gs1 snapshot w) as [w1 c1]; simpl in *. subst c1.
  destruct (load_block_deterministic g snapshot w w1) as [Hc Hs];
    [congruence | exact Hpre |].
  simpl. unfold bind.
  pose proof (load_blocks_frame g gs2 snapshot) as Hpost.
  destruct (load_block g snapshot w1) as [w2 c2]; simpl in *.
  rewrite Hc. destruct c2 as [[]|e]; simpl.
  - split; [|congruence].
    etransitivity; [exact Hs | apply Hpost; exact Hgs2].
  - split; [exact Hs | reflexivity].
Qed.

(** ** The feature flags *)

Lemma enabled_set_flag_other (f g : flag) (v : bool) (o : HackOptions.t) :
  g <> f -> enabled g (set_flag f v o) = enabled g o.
Proof. intros Hne. destruct f, g; try reflexivity; congruence. Qed.

Lemma own_get_own_set (p q : string) (v : value)
  (members : list (string * value)) :
  own_get p (own_set q v members)
  = if String.eqb q p then v else own_get p members.
Proof.
  induction members as [|[k u] members IH]; simpl.
  - reflexivity.
  - destruct (String.eqb_spec k q) as [->|Hkq]; simpl.
    + destruct (String.eqb q p); reflexivity.
    + rewrite IH. destruct (String.eqb_spec k p) as [->|Hkp]; [|reflexivity].
      destruct (String.eqb_spec q p); [congruence | reflexivity].
Qed.

Lemma in_keys_own_set (p q : string) (v : value)
  (members : list (string * value)) :
  In p (map fst (own_set q v members)) -> p = q \/ In p (map fst members).
Proof.
  induction members as [|[k u] members IH]; simpl.
  - intros [->|[]]. left. reflexivity.
  - destruct (String.eqb_spec k q) as [->|Hkq]; simpl.
    + tauto.
    + intros [->|Hin]; [tauto|]. destruct (IH Hin); tauto.
Qed.

Ltac snapshot_flags o :=
  unfold build_snapshot;
  destruct o as [? ? ? ? [] [] [] [] ?];
  cbn [HackOptions.position HackOptions.items HackOptions.variables
       HackOptions.dialog set_flag enabled] in *.

Lemma build_snapshot_omits (f : flag) (o : HackOptions.t) (b : Bitsy.t)
  (p : string) :
  enabled f o = false ->
  In p (snapshot_fields f) ->
  ~ In p (map fst (build_snapshot o b)).
Proof.
  intros Hoff Hp Hin.
  destruct f; snapshot_flags o; try discriminate;
    repeat match goal with
           | H : In _ (map fst (own_set _ _ _)) |- _ =>
               apply in_keys_own_set in H; destruct H as [->|H]
           end;
    simpl in *; destruct_or?; subst; try contradiction; try discriminate.
Qed.

Lemma build_snapshot_other_fields (f : flag) (o : HackOptions.t) (b : Bitsy.t)
  (p : string) :
  enabled f o = false ->
  ~ In p (snapshot_fields f) ->
  own_get p (build_snapshot o b)
  = own_get p (build_snapshot (set_flag f true o) b).
Proof.
  intros Hoff Hp.
  destruct f; snapshot_flags o; try discriminate;
    rewrite ?own_get_own_set;
    repeat match goal with
           | |- context [String.eqb ?a p] =>
               destruct (String.eqb_spec a p);
               [subst; try reflexivity; exfalso; apply Hp; simpl; tauto|]
           end; reflexivity.
Qed.

(** With one flag off in the first world, the blocks of the other flags end
    the same way in both worlds and leave them in agreement. *)
Lemma load_blocks_agree_completion (f : flag) (gs : list flag)
  (snapshot : value) (w1 w2 : world) :
  agree_but f w1 w2 -> ~ In f gs ->
  snd (load_blocks gs snapshot w1) = snd (load_blocks gs snapshot w2)
  /\ agree_but f (fst (load_blocks gs snapshot w1))
                 (fst (load_blocks gs snapshot w2)).
Proof.
  revert w1 w2. induction gs as [|g gs IH]; intros w1 w2 Hagree Hnotin.
  - simpl. auto.
  - simpl in *. unfold bind.
    assert (Hne : g <> f) by (intros ->; apply Hnotin; left; reflexivity).
    destruct Hagree as [Hoff Hrest].
    pose proof (load_block_touches g snapshot w1) as ((Ho1 & _) & _ & Hp1).
    pose proof (load_block_touches g snapshot w2) as ((Ho2 & _) & _ & Hp2).
    destruct (Hrest g Hne) as [Hflag Hsame].
    destruct (load_block_deterministic g snapshot w1 w2 Hflag Hsame)
      as [Hc Hs].
    assert (Hafter : agree_but f (fst (load_block g snapshot w1))
                                 (fst (load_block g snapshot w2))).
    { split; [congruence|]. intros g' Hg'.
      destruct (Hrest g' Hg') as [Hflag' Hsame'].
      split; [congruence|].
      destruct (decide (g' = g)) as [->|Hne']; [exact Hs|].
      etransitivity; [symmetry; apply Hp1; assumption|].
      etransitivity; [exact Hsame'|].
      apply Hp2; assumption. }
    destruct (load_block g snapshot w1) as [w1' c1],
      (load_block g snapshot w2) as [w2' c2]; simpl in *. subst c2.
    destruct c1 as [[]|e]; [|auto].
    apply IH; [exact Hafter|]. intros Hin. apply Hnotin. right. exact Hin.
Qed.

(** The run with flag [f] off against the run with the flag on.  The fields
    of the blocks before the block of [f] end the same.  When the block of
    [f] completes with the flag on, the two runs end the same way and agree
    on the fields of every other flag. *)
Lemma load_blocks_flag_off (f : flag) (pre post : list flag)
  (snapshot : value) (w1 w2 : world) :
  agree_but f w1 w2 -> ~ In f pre -> ~ In f post ->
  (forall g, In g pre -> ~ In g post) ->
  let r1 := load_blocks (pre ++ f :: post) snapshot w1 in
  let r2 := load_blocks (pre ++ f :: post) snapshot w2 in
  (forall g, In g pre -> same_part g (bitsy (fst r1)) (bitsy (fst r2)))
  /\ (snd (load_block f snapshot w2) = Normal tt ->
      snd r1 = snd r2
      /\ forall g, g <> f -> same_part g (bitsy (fst r1)) (bitsy (fst r2))).
Proof.
  intros Hagree Hpre Hpost Hdisj r1 r2. subst r1 r2.
  rewrite !load_blocks_app.
  destruct (load_blocks_agree_completion f pre snapshot w1 w2 Hagree Hpre)
    as [Hc Hafter].
  pose proof (load_blocks_frame f pre snapshot w2 Hpre) as Hf2.
  pose proof (load_blocks_same_host pre snapshot w2) as (Ho2 & _).
  destruct (load_blocks pre snapshot w1) as [u1 c1],
    (load_blocks pre snapshot w2) as [u2 c2]; simpl in Hc, Hafter, Hf2, Ho2.
  subst c2. destruct c1 as [[]|e].
  2: { simpl. split.
       - intros g Hg. apply Hafter. intros ->. contradiction.
       - intros _. split; [reflexivity|]. intros g Hg. apply Hafter. exact Hg. }
  destruct Hafter as [Hoff Hrest].
  cbn [load_blocks]. unfold bind.
  rewrite (load_block_off f snapshot u1 Hoff).
  pose proof (load_block_touches f snapshot u2) as ((Hov & _) & _ & Hpv).
  destruct (load_block_deterministic f snapshot w2 u2) as [Hcf _];
    [congruence | exact Hf2 |].
  destruct (load_block f snapshot u2) as [v2 c]; simpl in Hov, Hpv, Hcf.
  assert (Hagree' : agree_but f u1 v2).
  { split; [exact Hoff|]. intros g Hg. destruct (Hrest g Hg) as [Hflag Hsame].
    split; [congruence|]. etransitivity; [exact Hsame | apply Hpv; exact Hg]. }
  split.
  - intros g Hg.
    assert (Hgf : g <> f) by (intros ->; contradiction).
    pose proof (load_blocks_frame g post snapshot u1 (Hdisj g Hg)) as H1.
    etransitivity; [symmetry; exact H1|].
    destruct Hagree' as [_ Hrest'].
    destruct c as [[]|e]; simpl.
    + etransitivity; [apply Hrest'; exact Hgf|].
      apply (load_blocks_frame g post snapshot v2 (Hdisj g Hg)).
    + apply Hrest'. exact Hgf.
  - intros Hnormal. rewrite Hnormal in Hcf. subst c.
    destruct (load_blocks_agree_completion f post snapshot u1 v2 Hagree' Hpost)
      as [Hc' [_ Hrest'']].
    split; [exact Hc'|]. intros g Hg. apply Hrest''. exact Hg.
Qed.

(** The blocks of [load] before and after the block of a flag. *)
Lemma load_blocks_around (f : flag) :
  exists pre post,
    [Position; Items; Variables; Dialog] = pre ++ f :: post
    /\ ~ In f pre /\ ~ In f post
    /\ (forall g, In g pre -> ~ In g post)
    /\ (forall g, (block_order g < block_order f)%nat -> In g pre).
Proof.
  destruct f;
    [ exists [], [Items; Variables; Dialog]
    | exists [Position], [Variables; Dialog]
    | exists [Position; Items], [Dialog]
    | exists [Position; Items; Variables], [] ];
    (split; [reflexivity|]);
    (split; [simpl; intuition discriminate|]);
    (split; [simpl; intuition discriminate|]);
    (split; [intros []; simpl; intuition discriminate|]);
    intros []; simpl; intros Hlt; auto; lia.
Qed.

Section flags.
Context `{codec : JSON}.

(** C5, as the code has it.  With a flag off, [save] writes none of the
    snapshot fields the flag guards and [load] leaves the engine fields the
    flag guards as they were, whatever is stored and however [load] ends.
    The snapshot fields the other flags guard are what [save] writes with
    the flag on.  In [load], the engine fields of a flag whose block runs
    before the block of the disabled flag end as they end with the flag on.
    The fields of every other flag, and the way [load] ends, are the same as
    with the flag on whenever the block of the disabled flag, run with the
    flag on, completes on what is stored (there is nothing to complete on
    when nothing is stored, or an empty or unreadable text); in particular
    whenever [load] with the flag on runs to its end. *)
Theorem feature_flag_framing (f : flag) (w : world) :
  enabled f (hackOptions w) = false ->
  let o := hackOptions w in
  let b := bitsy w in
  let on := with_hackOptions (set_flag f true) w in
  (forall p, In p (snapshot_fields f) ->
             ~ In p (map fst (build_snapshot o b)))
  /\ same_part f b (bitsy (fst (load w)))
  /\ (forall p, ~ In p (snapshot_fields f) ->
        own_get p (build_snapshot o b)
        = own_get p (build_snapshot (hackOptions on) b))
  /\ (forall g, (block_order g < block_order f)%nat ->
        same_part g (bitsy (fst (load w))) (bitsy (fst (load on))))
  /\ ((forall text snapshot,
         localStorage w !! HackOptions.key o = Some text ->
         text <> "" ->
         JSON_parse text = Some snapshot ->
         snd (load_block f snapshot on) = Normal tt) ->
      snd (load w) = snd (load on)
      /\ forall g, g <> f ->
           same_part g (bitsy (fst (load w))) (bitsy (fst (load on))))
  /\ (snd (load on) = Normal tt ->
      snd (load w) = Normal tt
      /\ forall g, g <> f ->
           same_part g (bitsy (fst (load w))) (bitsy (fst (load on)))).
Proof.
  intros Hoff o b on.
  assert (Hagree : agree_but f w on).
  { split; [exact Hoff|]. intros g Hg. split; [|reflexivity].
    symmetry. apply enabled_set_flag_other. exact Hg. }
  destruct (load_blocks_around f)
    as (pre & post & Hlist & Hpre & Hpost & Hdisj & Hbefore).
  split; [intros p; apply build_snapshot_omits; exact Hoff|].
  split.
  { rewrite load_eq.
    destruct (localStorage w !! _) as [[|c text]|]; try reflexivity.
    destruct (JSON_parse _) as [snapshot|]; [|reflexivity].
    rewrite load_snapshot_blocks. apply load_blocks_keeps. exact Hoff. }
  split; [intros p; apply build_snapshot_other_fields; exact Hoff|].
  rewrite !load_eq.
  change (localStorage on) with (localStorage w).
  change (HackOptions.key (hackOptions on))
    with (HackOptions.key (hackOptions w)).
  fold o.
  destruct (localStorage w !! HackOptions.key o) as [[|c text]|].
  - split; [intros g _; reflexivity|].
    split; intros _; (split; [|intros g _]); reflexivity.
  - destruct (JSON_parse (String c text)) as [snapshot|] eqn:Hparsed.
    + rewrite !load_snapshot_blocks, Hlist.
      destruct (load_blocks_flag_off f pre post snapshot w on Hagree Hpre
                  Hpost Hdisj) as [Hearlier Hlater].
      split; [intros g Hg; apply Hearlier, Hbefore; exact Hg|].
      split.
      { intros Hblock. apply Hlater.
        apply (Hblock (String c text) snapshot);
          [reflexivity | discriminate | exact Hparsed]. }
      intros Hnormal. rewrite <- Hlist in *.
      destruct (load_blocks_agree f [Position; Items; Variables; Dialog]
                  snapshot w on Hagree Hnormal) as [Hn [_ Hrest]].
      split; [exact Hn|]. intros g Hg. apply Hrest. exact Hg.
    + split; [intros g _; reflexivity|].
      split; [|discriminate].
      intros _. split; [|intros g _]; reflexivity.
  - split; [intros g _; reflexivity|].
    split; intros _; (split; [|intros g _]); reflexivity.
Qed.

End flags.

(** ** The two loops of [load] *)

Lemma GetIndex_index (entry : value) (i : nat) :
  GetIndex entry i
  = if nullish entry then Throw TypeError else Normal (index entry i).
Proof. unfold index. destruct entry; reflexivity. Qed.

Lemma has_room_set_room_items (id id' : string) (its : value)
  (rooms : list (string * value)) :
  Bitsy.has_room id (Bitsy.set_room_items id' its rooms)
  = Bitsy.has_room id rooms.
Proof.
  induction rooms as [|[k old] rooms IH]; simpl; [reflexivity|].
  destruct (String.eqb k id') eqn:Hk; simpl; rewrite ?IH; reflexivity.
Qed.

Lemma set_room_items_missing (id : string) (its : value)
  (rooms : list (string * value)) :
  Bitsy.has_room id rooms = false ->
  Bitsy.set_room_items id its rooms = rooms.
Proof.
  induction rooms as [|[k old] rooms IH]; simpl; [reflexivity|].
  destruct (String.eqb k id); [discriminate|].
  intros Hmissing. rewrite IH by exact Hmissing. reflexivity.
Qed.

(** The loop over the items runs to its end exactly when every entry can be
    indexed and names a room of the engine or a property that [bitsy.room]
    inherits; the entries of the second kind set no room. *)
Lemma forEach_load_item_passes (entries : list value) (w : world) :
  Forall (entry_passes (Bitsy.room (bitsy w))) entries ->
  forEach load_item entries w
  = (with_bitsy (set_rooms (restore_items entries)) w, Normal tt).
Proof.
  revert w. induction entries as [|e entries IH]; intros w Hall; simpl.
  - destruct w as [o [] st a i n c]. reflexivity.
  - apply Forall_cons in Hall. destruct Hall as [[Hnn Hkey] Hall].
    unfold bind. rewrite load_item_eq, !GetIndex_index, Hnn.
    destruct (Bitsy.has_room _ _) eqn:Hroom.
    + rewrite IH.
      * destruct w as [o [] st a i n c]. reflexivity.
      * eapply Forall_impl; [exact Hall|].
        intros e' [? He']. split; [assumption|]. simpl.
        rewrite has_room_set_room_items. exact He'.
    + simpl in Hkey. rewrite Hkey, IH by exact Hall.
      destruct w as [o [cr pl rooms vars sh ie] st a i n c].
      unfold with_bitsy, set_rooms, restore_items. simpl in *.
      rewrite (set_room_items_missing _ _ _ Hroom). reflexivity.
Qed.

Lemma forEach_load_item_normal (entries : list value) (w : world) :
  Forall (fun entry =>
            nullish entry = false
            /\ Bitsy.has_room (ToString (index entry 0)) (Bitsy.room (bitsy w))
               = true) entries ->
  forEach load_item entries w
  = (with_bitsy (set_rooms (restore_items entries)) w, Normal tt).
Proof.
  intros Hall. apply forEach_load_item_passes.
  eapply Forall_impl; [exact Hall|].
  intros e [Hnn Hroom]. split; [exact Hnn|]. rewrite Hroom. reflexivity.
Qed.

Lemma forEach_load_item_throws (entries : list value) (w : world) :
  snd (forEach load_item entries w) = Normal tt ->
  Forall (entry_passes (Bitsy.room (bitsy w))) entries.
Proof.
  revert w. induction entries as [|e entries IH]; intros w Hnormal.
  - constructor.
  - simpl in Hnormal. unfold bind in Hnormal.
    rewrite load_item_eq, !GetIndex_index in Hnormal.
    destruct (nullish e) eqn:Hnn; [discriminate|].
    destruct (Bitsy.has_room _ _) eqn:Hroom.
    + constructor; [split; [exact Hnn | rewrite Hroom; reflexivity]|].
      apply IH in Hnormal. eapply Forall_impl; [exact Hnormal|].
      intros e' [? He']. split; [assumption|]. simpl in He'.
      rewrite has_room_set_room_items in He'. exact He'.
    + destruct (object_prototype_key _) eqn:Hkey; [|discriminate].
      constructor; [split; [exact Hnn | rewrite Hroom, Hkey; reflexivity]|].
      apply IH. exact Hnormal.
Qed.

(** The loop over the variables runs to its end exactly when every entry can
    be indexed. *)
Lemma forEach_load_variable_normal (entries : list value) (w : world) :
  Forall (fun entry => nullish entry = false) entries ->
  forEach load_variable entries w
  = (with_bitsy (set_variables (restore_variables entries)) w, Normal tt).
Proof.
  revert w. induction entries as [|e entries IH]; intros w Hall; simpl.
  - destruct w as [o [] st a i n c]. reflexivity.
  - apply Forall_cons in Hall. destruct Hall as [Hnn Hall].
    unfold bind. rewrite load_variable_eq, !GetIndex_index, Hnn.
    rewrite IH by exact Hall.
    destruct w as [o [] st a i n c]. reflexivity.
Qed.

Lemma forEach_load_variable_throws (entries : list value) (w : world) :
  snd (forEach load_variable entries w) = Normal tt ->
  Forall (fun entry => nullish entry = false) entries.
Proof.
  revert w. induction entries as [|e entries IH]; intros w Hnormal.
  - constructor.
  - simpl in Hnormal. unfold bind in Hnormal.
    rewrite load_variable_eq, !GetIndex_index in Hnormal.
    destruct (nullish e) eqn:Hnn; [discriminate|].
    constructor; [exact Hnn|]. eapply IH. exact Hnormal.
Qed.

Lemma forEach_load_item_player (entries : list value) (w : world) :
  Bitsy.player (bitsy (fst (forEach load_item entries w)))
  = Bitsy.player (bitsy w).
Proof.
  revert w. induction entries as [|e entries IH]; intros w; simpl.
  - reflexivity.
  - unfold bind. rewrite load_item_eq.
    destruct (GetIndex e 0) as [id|]; [|reflexivity].
    destruct (Bitsy.has_room _ _).
    + destruct (GetIndex e 1) as [its|]; [|reflexivity].
      rewrite IH. reflexivity.
    + destruct (object_prototype_key _); [|reflexivity].
      destruct (GetIndex e 1) as [its|]; [|reflexivity].
      rewrite IH. reflexivity.
Qed.

(** ** What [load] leaves behind *)

Lemma load_blocks_normal_prefix (gs1 gs2 : list flag) (snapshot : value)
  (w : world) :
  snd (load_blocks (gs1 ++ gs2) snapshot w) = Normal tt ->
  snd (load_blocks gs1 snapshot w) = Normal tt.
Proof.
  rewrite load_blocks_app.
  destruct (load_blocks gs1 snapshot w) as [w1 [[]|e]]; simpl; auto.
Qed.

Ltac not_in_flags := simpl; intros ?; destruct_or?; try discriminate; contradiction.

(** The position, as the first block leaves it. *)
Lemma load_snapshot_position (snapshot : value) (w : world) :
  same_part Position (bitsy (fst (load_position snapshot w)))
                     (bitsy (fst (load_snapshot snapshot w))).
Proof.
  rewrite load_snapshot_blocks.
  apply (load_blocks_part Position [] [Items; Variables; Dialog]);
    [not_in_flags | not_in_flags | reflexivity].
Qed.

Lemma load_snapshot_items (snapshot : value) (w : world) :
  snd (load_position snapshot w) = Normal tt ->
  same_part Items (bitsy (fst (load_items snapshot w)))
                  (bitsy (fst (load_snapshot snapshot w)))
  /\ (snd (load_items snapshot w) <> Normal tt ->
      snd (load_snapshot snapshot w) = snd (load_items snapshot w)).
Proof.
  intros Hnormal. rewrite load_snapshot_blocks.
  apply (load_blocks_part Items [Position] [Variables; Dialog]);
    [not_in_flags | not_in_flags |].
  simpl. unfold bind.
  destruct (load_position snapshot w) as [w' [[]|e]]; simpl in *;
    [reflexivity | discriminate].
Qed.

Lemma load_snapshot_variables (snapshot : value) (w : world) :
  snd (load_blocks [Position; Items] snapshot w) = Normal tt ->
  same_part Variables (bitsy (fst (load_variables snapshot w)))
                      (bitsy (fst (load_snapshot snapshot w)))
  /\ (snd (load_variables snapshot w) <> Normal tt ->
      snd (load_snapshot snapshot w) = snd (load_variables snapshot w)).
Proof.
  intros Hnormal. rewrite load_snapshot_blocks.
  apply (load_blocks_part Variables [Position; Items] [Dialog]);
    [not_in_flags | not_in_flags | exact Hnormal].
Qed.

Lemma load_snapshot_dialog (snapshot : value) (w : world) :
  snd (load_blocks [Position; Items; Variables] snapshot w) = Normal tt ->
  same_part Dialog (bitsy (fst (load_dialog snapshot w)))
                   (bitsy (fst (load_snapshot snapshot w)))
  /\ (snd (load_dialog snapshot w) <> Normal tt ->
      snd (load_snapshot snapshot w) = snd (load_dialog snapshot w)).
Proof.
  intros Hnormal. rewrite load_snapshot_blocks.
  apply (load_blocks_part Dialog [Position; Items; Variables] []);
    [not_in_flags | not_in_flags | exact Hnormal].
Qed.

(** The blocks before a block complete when the whole of [load] does. *)
Lemma load_snapshot_normal (snapshot : value) (w : world) :
  snd (load_snapshot snapshot w) = Normal tt ->
  snd (load_blocks [Position] snapshot w) = Normal tt
  /\ snd (load_blocks [Position; Items] snapshot w) = Normal tt
  /\ snd (load_blocks [Position; Items; Variables] snapshot w) = Normal tt.
Proof.
  rewrite load_snapshot_blocks. intros Hnormal.
  split; [|split].
  - apply (load_blocks_normal_prefix [Position] [Items; Variables; Dialog]).
    exact Hnormal.
  - apply (load_blocks_normal_prefix [Position; Items] [Variables; Dialog]).
    exact Hnormal.
  - apply (load_blocks_normal_prefix [Position; Items; Variables] [Dialog]).
    exact Hnormal.
Qed.

Lemma restore_position_falsy_xy (snapshot : value) (b : Bitsy.t) :
  ToBoolean (field snapshot "x") && ToBoolean (field snapshot "y") = false ->
  Sprite.x (Bitsy.player (restore_position snapshot b))
  = Sprite.x (Bitsy.player b)
  /\ Sprite.y (Bitsy.player (restore_position snapshot b))
     = Sprite.y (Bitsy.player b).
Proof.
  intros Hfalsy. unfold restore_position. rewrite Hfalsy.
  destruct (ToBoolean (field snapshot "room")); simpl; auto.
Qed.

Lemma restore_position_truthy_xy (snapshot : value) (b : Bitsy.t) :
  ToBoolean (field snapshot "x") && ToBoolean (field snapshot "y") = true ->
  Sprite.x (Bitsy.player (restore_position snapshot b)) = field snapshot "x"
  /\ Sprite.y (Bitsy.player (restore_position snapshot b))
     = field snapshot "y".
Proof.
  intros Htruthy. unfold restore_position. rewrite Htruthy.
  destruct (ToBoolean (field snapshot "room")); simpl; auto.
Qed.

Lemma restore_position_falsy_room (snapshot : value) (b : Bitsy.t) :
  ToBoolean (field snapshot "room") = false ->
  Bitsy.curRoom (restore_position snapshot b) = Bitsy.curRoom b
  /\ Sprite.room (Bitsy.player (restore_position snapshot b))
     = Sprite.room (Bitsy.player b).
Proof.
  intros Hfalsy. unfold restore_position. rewrite Hfalsy.
  destruct (_ && _); simpl; auto.
Qed.

Lemma restore_position_truthy_room (snapshot : value) (b : Bitsy.t) :
  ToBoolean (field snapshot "room") = true ->
  Bitsy.curRoom (restore_position snapshot b) = field snapshot "room"
  /\ Sprite.room (Bitsy.player (restore_position snapshot b))
     = field snapshot "room".
Proof.
  intros Htruthy. unfold restore_position. rewrite Htruthy.
  destruct (_ && _); simpl; auto.
Qed.

(** The fields of the snapshot that [save] builds. *)
Lemma field_build_snapshot (o : HackOptions.t) (b : Bitsy.t) :
  let snapshot := JObject (build_snapshot o b) in
  (HackOptions.position o = true ->
   field snapshot "room" = Bitsy.curRoom b
   /\ field snapshot "x" = Sprite.x (Bitsy.player b)
   /\ field snapshot "y" = Sprite.y (Bitsy.player b))
  /\ (HackOptions.items o = true ->
      field snapshot "inventory" = Sprite.inventory (Bitsy.player b)
      /\ field snapshot "items"
         = JArray (map (fun r => JArray [JString (fst r); snd r])
                     (Bitsy.room b)))
  /\ (HackOptions.variables o = true ->
      field snapshot "variables"
      = JArray (map (fun name =>
                       JArray [name;
                               Bitsy.GetVariable name (Bitsy.variable b)])
                  (Bitsy.GetVariableNames (Bitsy.variable b))))
  /\ (HackOptions.dialog o = true ->
      field snapshot "sequenceIndices"
      = SaveHack.sequenceIndices (Bitsy.saveHack b)
      /\ field snapshot "shuffles" = SaveHack.shuffles (Bitsy.saveHack b)).
Proof.
  unfold field, Get. snapshot_flags o;
    repeat split; intros; try discriminate;
    rewrite ?own_get_own_set; reflexivity.
Qed.

(** ** The guards of [load] *)

Section guards.
Context `{codec : JSON}.

(** The position after [load], for a stored text that parses. *)
Lemma load_position_result (w : world) (text : string) (snapshot : value) :
  localStorage w !! HackOptions.key (hackOptions w) = Some text ->
  JSON_parse text = Some snapshot ->
  same_part Position
    (if negb (String.eqb text "")
        && HackOptions.position (hackOptions w) && negb (nullish snapshot)
     then restore_position snapshot (bitsy w) else bitsy w)
    (bitsy (fst (load w))).
Proof.
  intros Hstored Hparsed. rewrite load_eq, Hstored.
  destruct text as [|c text]; [reflexivity|]. rewrite Hparsed.
  pose proof (load_snapshot_position snapshot w) as Hpos.
  rewrite load_position_eq in Hpos. simpl negb at 1.
  destruct (HackOptions.position (hackOptions w)); simpl in *; [|exact Hpos].
  destruct (nullish snapshot); simpl in *; exact Hpos.
Qed.

(** C9. Whatever is stored, [load] changes the player's [x] and [y] only
    when the saved [x] and the saved [y] are both truthy: a snapshot whose
    [x] or [y] is 0, as [save] writes it for a player in the first column
    or the first row, leaves both coordinates as they were.  In the same
    way a falsy [room] leaves [curRoom] and the player's room as they were.
    With the position flag on, truthy values are restored. *)
Theorem position_guard_is_falsy_based (w : world) (text : string)
  (snapshot : value) :
  localStorage w !! HackOptions.key (hackOptions w) = Some text ->
  JSON_parse text = Some snapshot ->
  let p := Bitsy.player (bitsy w) in
  let w' := fst (load w) in
  let p' := Bitsy.player (bitsy w') in
  (ToBoolean (field snapshot "x") && ToBoolean (field snapshot "y") = false ->
   Sprite.x p' = Sprite.x p /\ Sprite.y p' = Sprite.y p)
  /\ (field snapshot "x" = JNumber (Finite 0)
      \/ field snapshot "y" = JNumber (Finite 0) ->
      Sprite.x p' = Sprite.x p /\ Sprite.y p' = Sprite.y p)
  /\ (forall o b,
        HackOptions.position o = true ->
        snapshot = JObject (build_snapshot o b) ->
        Sprite.x (Bitsy.player b) = JNumber (Finite 0)
        \/ Sprite.y (Bitsy.player b) = JNumber (Finite 0) ->
        Sprite.x p' = Sprite.x p /\ Sprite.y p' = Sprite.y p)
  /\ (ToBoolean (field snapshot "room") = false ->
      Bitsy.curRoom (bitsy w') = Bitsy.curRoom (bitsy w)
      /\ Sprite.room p' = Sprite.room p)
  /\ (HackOptions.position (hackOptions w) = true ->
      text <> "" ->
      ToBoolean (field snapshot "x") && ToBoolean (field snapshot "y") = true ->
      Sprite.x p' = field snapshot "x" /\ Sprite.y p' = field snapshot "y").
Proof.
  intros Hstored Hparsed p w' p'.
  pose proof (load_position_result w text snapshot Hstored Hparsed)
    as (Hroom & Hproom & Hx & Hy).
  fold w' in Hroom, Hproom, Hx, Hy. fold p' in Hproom, Hx, Hy.
  assert (Hfalsy :
    ToBoolean (field snapshot "x") && ToBoolean (field snapshot "y") = false ->
    Sprite.x p' = Sprite.x p /\ Sprite.y p' = Sprite.y p).
  { intros Hf. rewrite Hx, Hy.
    destruct (_ && _ && _); [|auto].
    apply restore_position_falsy_xy. exact Hf. }
  assert (Hzero :
    field snapshot "x" = JNumber (Finite 0)
    \/ field snapshot "y" = JNumber (Finite 0) ->
    Sprite.x p' = Sprite.x p /\ Sprite.y p' = Sprite.y p).
  { intros [H0|H0]; apply Hfalsy; rewrite H0; simpl;
      [reflexivity | apply andb_false_r]. }
  split; [exact Hfalsy|]. split; [exact Hzero|]. split; [|split].
  - intros o b Hpos -> Hedge. apply Hzero.
    destruct (field_build_snapshot o b) as [Hfields _].
    destruct (Hfields Hpos) as (_ & Hfx & Hfy).
    rewrite Hfx, Hfy. exact Hedge.
  - intros Hf. rewrite Hroom, Hproom.
    destruct (_ && _ && _); [|auto].
    apply restore_position_falsy_room. exact Hf.
  - intros Hpos Hne Ht. rewrite Hx, Hy, Hpos.
    assert (Hnn : nullish snapshot = false).
    { destruct snapshot; try reflexivity; discriminate. }
    rewrite Hnn. destruct (String.eqb_spec text ""); [contradiction|].
    simpl. apply restore_position_truthy_xy. exact Ht.
Qed.

End guards.

(** ** [load] on arbitrary snapshots *)

Lemma forEach_load_item_completion (entries : list value) (w : world) :
  snd (forEach load_item entries w) = Normal tt
  \/ snd (forEach load_item entries w) = Throw TypeError.
Proof.
  revert w. induction entries as [|e entries IH]; intros w; simpl; [auto|].
  unfold bind. rewrite load_item_eq, !GetIndex_index.
  destruct (nullish e); [auto|].
  destruct (Bitsy.has_room _ _); [apply IH|].
  destruct (object_prototype_key _); [apply IH | auto].
Qed.

Lemma forEach_load_variable_completion (entries : list value) (w : world) :
  snd (forEach load_variable entries w) = Normal tt
  \/ snd (forEach load_variable entries w) = Throw TypeError.
Proof.
  revert w. induction entries as [|e entries IH]; intros w; simpl; [auto|].
  unfold bind. rewrite load_variable_eq, !GetIndex_index.
  destruct (nullish e); [auto | apply IH].
Qed.

(** The only exception the blocks of [load] throw is a [TypeError]. *)
Lemma load_block_completion (g : flag) (snapshot : value) (w : world) :
  snd (load_block g snapshot w) = Normal tt
  \/ snd (load_block g snapshot w) = Throw TypeError.
Proof.
  destruct g; simpl.
  - rewrite load_position_eq.
    destruct (negb _); [auto|]. destruct (nullish _); auto.
  - rewrite load_items_eq.
    destruct (negb _); [auto|]. destruct (nullish _); [auto|]. simpl.
    destruct (ToBoolean _); [|auto].
    destruct (field snapshot "items"); simpl; auto.
    apply forEach_load_item_completion.
  - rewrite load_variables_eq.
    destruct (negb _); [auto|]. destruct (nullish _); [auto|].
    destruct (ToBoolean _); [|auto].
    destruct (field snapshot "variables"); simpl; auto.
    apply forEach_load_variable_completion.
  - rewrite load_dialog_eq.
    destruct (negb _); [auto|]. destruct (nullish _); auto.
Qed.

Lemma load_blocks_completion (gs : list flag) (snapshot : value) (w : world) :
  snd (load_blocks gs snapshot w) = Normal tt
  \/ snd (load_blocks gs snapshot w) = Throw TypeError.
Proof.
  revert w. induction gs as [|g gs IH]; intros w; simpl; [auto|].
  unfold bind. destruct (load_block_completion g snapshot w) as [Hc|Hc];
    destruct (load_block g snapshot w) as [w' c]; simpl in *; subst c; auto.
Qed.

Lemma load_items_result (snapshot : value) (w : world) :
  HackOptions.items (hackOptions w) = true ->
  nullish snapshot = false ->
  let r := load_items snapshot w in
  Sprite.inventory (Bitsy.player (bitsy (fst r)))
  = Sprite.inventory (Bitsy.player (restore_inventory snapshot (bitsy w)))
  /\ (ToBoolean (field snapshot "items") = true ->
      is_array (field snapshot "items") = false ->
      snd r = Throw TypeError)
  /\ (snd r = Normal tt ->
      forall entries, field snapshot "items" = JArray entries ->
        Bitsy.room (bitsy (fst r)) = restore_items entries (Bitsy.room (bitsy w))).
Proof.
  intros Hflag Hnn r. subst r. rewrite load_items_eq, Hflag, Hnn. simpl.
  destruct (ToBoolean (field snapshot "items")) eqn:Htruthy.
  - destruct (field snapshot "items") as [| | | | |entries|] eqn:Hitems;
      simpl;
      try (split; [reflexivity | split; [intros; reflexivity | discriminate]]).
    split; [rewrite forEach_load_item_player; reflexivity|].
    split; [discriminate|].
    intros Hnormal entries' [= <-].
    rewrite forEach_load_item_passes
      by (eapply forEach_load_item_throws; exact Hnormal).
    simpl. unfold restore_inventory.
    destruct (ToBoolean (field snapshot "inventory")); reflexivity.
  - simpl. split; [reflexivity|]. split; [discriminate|].
    intros _ entries Hitems. rewrite Hitems in Htruthy. discriminate.
Qed.

Lemma load_variables_result (snapshot : value) (w : world) :
  HackOptions.variables (hackOptions w) = true ->
  nullish snapshot = false ->
  let r := load_variables snapshot w in
  (ToBoolean (field snapshot "variables") = true ->
   is_array (field snapshot "variables") = false ->
   snd r = Throw TypeError)
  /\ (snd r = Normal tt ->
      forall entries, field snapshot "variables" = JArray entries ->
        Bitsy.variable (bitsy (fst r))
        = restore_variables entries (Bitsy.variable (bitsy w))).
Proof.
  intros Hflag Hnn r. subst r. rewrite load_variables_eq, Hflag, Hnn. simpl.
  destruct (ToBoolean (field snapshot "variables")) eqn:Htruthy.
  - destruct (field snapshot "variables") as [| | | | |entries|] eqn:Hvars;
      simpl; try (split; [intros; reflexivity | discriminate]).
    split; [discriminate|].
    intros Hnormal entries' [= <-].
    rewrite forEach_load_variable_normal
      by (eapply forEach_load_variable_throws; exact Hnormal).
    reflexivity.
  - simpl. split; [discriminate|].
    intros _ entries Hvars. rewrite Hvars in Htruthy. discriminate.
Qed.

(** ** Hooks and events *)

#[local] Instance same_storage_preorder : PreOrder same_storage.
Proof.
  split.
  - intros w. repeat split.
  - intros w1 w2 w3 (?&?&?&?) (?&?&?&?). repeat split; congruence.
Qed.

Section events.
Context `{codec : JSON}.

Lemma same_host_same_storage (w w' : world) :
  same_host w w' -> same_storage w w'.
Proof. intros (Ho & Hst & _). repeat split; congruence. Qed.

Lemma same_host_keeps_no_autosave (w w' : world) :
  same_host w w' -> keeps no_autosave w w'.
Proof.
  intros (Ho & _ & _ & Hi & _) [Hd Hnone]. split; congruence.
Qed.

Lemma before_reset_cur_game_eq (w : world) :
  before_reset_cur_game w =
  (if HackOptions.clearOnEnd (hackOptions w) && Bitsy.isEnding (bitsy w)
   then with_localStorage
          (fun st => delete (HackOptions.key (hackOptions w)) st) w
   else w, Normal tt).
Proof.
  unfold before_reset_cur_game, bind, gets, when, clear, modify. simpl.
  destruct (HackOptions.clearOnEnd _); simpl; [|reflexivity].
  destruct (Bitsy.isEnding _); reflexivity.
Qed.

Lemma before_startExportedGame_eq (w : world) :
  before_startExportedGame w =
  (if HackOptions.clearOnStart (hackOptions w)
   then with_localStorage
          (fun st => delete (HackOptions.key (hackOptions w)) st) w
   else w, Normal tt).
Proof.
  unfold before_startExportedGame, bind, gets, when, clear, modify. simpl.
  destruct (HackOptions.clearOnStart _); reflexivity.
Qed.

Lemma onready_autosave_eq (w : world) :
  onready_autosave w =
  (if lt_Infinity (HackOptions.autosaveInterval (hackOptions w)) then
     {| hackOptions := hackOptions w; bitsy := bitsy w;
        localStorage := localStorage w;
        autosaveInterval := Some (next_interval w);
        intervals :=
          match autosaveInterval w with
          | Some i => filter (fun t => fst t <> i) (intervals w)
          | None => intervals w
          end ++ [(next_interval w,
                   (cb_save, HackOptions.autosaveInterval (hackOptions w)))];
        next_interval := S (next_interval w);
        calls := calls w |}
   else w, Normal tt).
Proof.
  unfold onready_autosave, bind, gets, when, clearInterval, setInterval,
    modify. simpl.
  destruct (lt_Infinity _); [|reflexivity]. simpl.
  destruct (autosaveInterval w); reflexivity.
Qed.

Lemma onready_same_storage : preserves same_storage onready.
Proof.
  intros w. unfold onready, bind. rewrite onready_autosave_eq.
  set (w1 := if lt_Infinity _ then _ else w).
  assert (H1 : same_storage w w1).
  { subst w1. destruct (lt_Infinity _); repeat split. }
  simpl. etransitivity; [exact H1|].
  unfold onready_autoload, bind, gets, when. simpl.
  destruct (HackOptions.loadOnStart _); [|reflexivity].
  apply same_host_same_storage, load_same_host.
Qed.

Lemma onready_keeps_no_autosave : preserves (keeps no_autosave) onready.
Proof.
  intros w Hno. unfold onready, bind. rewrite onready_autosave_eq.
  destruct Hno as [Hd Hnone]. rewrite Hd. simpl.
  unfold onready_autoload, bind, gets, when. simpl.
  destruct (HackOptions.loadOnStart _); [|split; assumption].
  apply (same_host_keeps_no_autosave w); [apply load_same_host|].
  split; assumption.
Qed.

(** What an event does to the storage. *)
Lemma reset_cur_game_storage (fresh : Bitsy.t) (w : world) :
  let w' := fst (reset_cur_game fresh w) in
  localStorage w' =
  (if HackOptions.clearOnEnd (hackOptions w) && Bitsy.isEnding (bitsy w)
   then delete (HackOptions.key (hackOptions w)) (localStorage w)
   else localStorage w)
  /\ HackOptions.key (hackOptions w') = HackOptions.key (hackOptions w).
Proof.
  unfold reset_cur_game, bind. rewrite before_reset_cur_game_eq.
  unfold reload_game, modify.
  match goal with
  | |- context [onready ?w1] =>
      destruct (onready_same_storage w1) as (Hst & Hk & _);
      destruct (onready w1) as [w2 c2]
  end.
  simpl in *. rewrite Hst, Hk.
  destruct (_ && _); split; reflexivity.
Qed.

Lemma startExportedGame_storage (fresh : Bitsy.t) (w : world) :
  localStorage (fst (startExportedGame fresh w)) =
  if HackOptions.clearOnStart (hackOptions w)
  then delete (HackOptions.key (hackOptions w)) (localStorage w)
  else localStorage w.
Proof.
  unfold startExportedGame, bind. rewrite before_startExportedGame_eq.
  unfold reload_game, modify.
  match goal with
  | |- context [onready ?w1] =>
      destruct (onready_same_storage w1) as (Hst & _);
      destruct (onready w1) as [w2 c2]
  end.
  simpl in *. rewrite Hst.
  destruct (HackOptions.clearOnStart _); reflexivity.
Qed.

Lemma dialogLoad_storage (fresh : Bitsy.t) (parameters : list value)
  (w : world) :
  localStorage (fst (dialogLoad fresh parameters w)) =
  if HackOptions.clearOnEnd (hackOptions w) && Bitsy.isEnding (bitsy w)
  then delete (HackOptions.key (hackOptions w)) (localStorage w)
  else localStorage w.
Proof.
  unfold dialogLoad, bind, gets, modify. simpl.
  match goal with
  | |- context [reset_cur_game fresh ?w1] =>
      destruct (reset_cur_game_storage fresh w1) as [Hst _];
      destruct (reset_cur_game fresh w1) as [w2 [[]|e]]
  end; simpl in *; exact Hst.
Qed.

Lemma handle_storage (e : event) (w : world) :
  let slot := HackOptions.key (hackOptions w) in
  let saved :=
    <[slot := JSON_stringify
                (JObject (build_snapshot (hackOptions w) (bitsy w)))]>
      (localStorage w) in
  localStorage (fst (handle e w)) =
  match e with
  | tag_save => saved
  | tag_clear => delete slot (localStorage w)
  | tag_load _ _ | engine_reset_cur_game _ =>
      if HackOptions.clearOnEnd (hackOptions w) && Bitsy.isEnding (bitsy w)
      then delete slot (localStorage w) else localStorage w
  | engine_startExportedGame _ =>
      if HackOptions.clearOnStart (hackOptions w)
      then delete slot (localStorage w) else localStorage w
  | timer id =>
      match interval_callback id w with
      | Some cb_save => saved
      | None => localStorage w
      end
  | play _ => localStorage w
  end.
Proof.
  destruct e; simpl; try reflexivity.
  - apply dialogLoad_storage.
  - apply reset_cur_game_storage.
  - apply startExportedGame_storage.
  - unfold fire_interval, bind, gets. simpl.
    destruct (interval_callback id w) as [[]|]; reflexivity.
Qed.

End events.

Section lifecycle.
Context `{codec : JSON}.

Lemma reset_cur_game_keeps_no_autosave (fresh : Bitsy.t) :
  preserves (keeps no_autosave) (reset_cur_game fresh).
Proof.
  intros w Hno. unfold reset_cur_game, bind.
  rewrite before_reset_cur_game_eq. unfold reload_game, modify.
  match goal with
  | |- context [onready ?w1] =>
      pose proof (onready_keeps_no_autosave w1) as Hready;
      destruct (onready w1) as [w2 c2]
  end.
  simpl in *. apply Hready. destruct Hno as [Hd Hnone].
  destruct (_ && _); split; assumption.
Qed.

Lemma startExportedGame_keeps_no_autosave (fresh : Bitsy.t) :
  preserves (keeps no_autosave) (startExportedGame fresh).
Proof.
  intros w Hno. unfold startExportedGame, bind.
  rewrite before_startExportedGame_eq. unfold reload_game, modify.
  match goal with
  | |- context [onready ?w1] =>
      pose proof (onready_keeps_no_autosave w1) as Hready;
      destruct (onready w1) as [w2 c2]
  end.
  simpl in *. apply Hready. destruct Hno as [Hd Hnone].
  destruct (HackOptions.clearOnStart _); split; assumption.
Qed.

Lemma dialogLoad_keeps_no_autosave (fresh : Bitsy.t) (parameters : list value) :
  preserves (keeps no_autosave) (dialogLoad fresh parameters).
Proof.
  intros w Hno. unfold dialogLoad, bind, gets, modify. simpl.
  match goal with
  | |- context [reset_cur_game fresh ?w1] =>
      pose proof (reset_cur_game_keeps_no_autosave fresh w1) as Hreset;
      destruct (reset_cur_game fresh w1) as [w2 [[]|e]]
  end; simpl in *.
  - destruct Hreset as [Hd Hnone]; [destruct Hno; split; assumption|].
    split; assumption.
  - apply Hreset. destruct Hno; split; assumption.
Qed.

Lemma interval_callback_none (id : nat) (w : world) :
  intervals w = [] -> interval_callback id w = None.
Proof. unfold interval_callback. intros ->. reflexivity. Qed.

Lemma handle_keeps_no_autosave (e : event) :
  preserves (keeps no_autosave) (handle e).
Proof.
  destruct e; simpl.
  - intros w Hno. exact Hno.
  - apply dialogLoad_keeps_no_autosave.
  - intros w Hno. exact Hno.
  - apply reset_cur_game_keeps_no_autosave.
  - apply startExportedGame_keeps_no_autosave.
  - intros w Hno. unfold fire_interval, bind, gets. simpl.
    rewrite interval_callback_none by apply Hno. exact Hno.
  - intros w Hno. exact Hno.
Qed.

Lemma run_no_autosave (es : list event) (w : world) :
  no_autosave w -> autosaves es w = 0%nat /\ no_autosave (run es w).
Proof.
  revert w. induction es as [|e es IH]; intros w Hno; simpl; [auto|].
  destruct (IH (fst (handle e w))) as [Hcount Hlast];
    [apply handle_keeps_no_autosave; exact Hno|].
  split; [|exact Hlast]. rewrite Hcount.
  destruct e; try reflexivity.
  rewrite interval_callback_none by apply Hno. reflexivity.
Qed.

(** C6. The [onready] hook installs a timer that calls [save] every
    [hackOptions.autosaveInterval] (and drops the timer it installed before)
    when the interval is less than [Infinity], and does nothing otherwise.
    With the interval [Infinity] and no timer installed, as when the page
    is loaded with the default options, no run of events makes a timer call
    [save]. *)
Theorem autosave_enablement (w : world) (es : list event) :
  let d := HackOptions.autosaveInterval (hackOptions w) in
  let w' := fst (onready_autosave w) in
  (lt_Infinity d = true ->
   autosaveInterval w' = Some (next_interval w)
   /\ intervals w'
      = match autosaveInterval w with
        | Some i => filter (fun t => fst t <> i) (intervals w)
        | None => intervals w
        end ++ [(next_interval w, (cb_save, d))]
   /\ interval_callback (next_interval w) w' = Some cb_save)
  /\ (lt_Infinity d = false -> onready_autosave w = (w, Normal tt))
  /\ (d = PosInfinity -> lt_Infinity d = false)
  /\ (d = PosInfinity -> intervals w = [] ->
      autosaves es w = 0%nat /\ intervals (run es w) = []).
Proof.
  intros d w'. subst w'. rewrite onready_autosave_eq. fold d.
  split; [|split; [|split]].
  - intros ->. simpl. split; [reflexivity|]. split; [reflexivity|].
    unfold interval_callback. simpl.
    match goal with
    | |- context [find ?p ?l] => destruct (find p l) as [[i [[] d']]|] eqn:Hfind
    end; [reflexivity|].
    eapply find_none in Hfind;
      [|apply in_or_app; right; left; reflexivity].
    simpl in Hfind. rewrite bool_decide_eq_true_2 in Hfind by reflexivity.
    discriminate.
  - intros ->. reflexivity.
  - intros ->. reflexivity.
  - intros Hd Hnone.
    destruct (run_no_autosave es w) as [Hcount [_ Hlast]];
      [split; assumption | auto].
Qed.

(** C7, as the code has it.  An event that finds a snapshot stored leaves
    none exactly when it is the [clear] tag, or it goes through the
    [reset_cur_game] hook with [clearOnEnd] on and [isEnding] set, or it
    goes through the [startExportedGame] hook with [clearOnStart] on.  A
    reset with [clearOnEnd] off or [isEnding] not set leaves the stored
    snapshot as it is. *)
Theorem snapshot_destruction (e : event) (w : world) :
  is_Some (localStorage w !! HackOptions.key (hackOptions w)) ->
  let o := hackOptions w in
  (removes_snapshot e w <->
   e = tag_clear
   \/ (resets e = true /\ HackOptions.clearOnEnd o = true
       /\ Bitsy.isEnding (bitsy w) = true)
   \/ (starts e = true /\ HackOptions.clearOnStart o = true))
  /\ (resets e = true ->
      HackOptions.clearOnEnd o && Bitsy.isEnding (bitsy w) = false ->
      localStorage (fst (handle e w)) !! HackOptions.key o
      = localStorage w !! HackOptions.key o).
Proof.
  intros Hsome o. unfold removes_snapshot. fold o.
  pose proof (handle_storage e w) as Hst. simpl in Hst. fold o in Hst.
  rewrite Hst. clear Hst.
  assert (Hnot : localStorage w !! HackOptions.key o <> None).
  { destruct Hsome as [s Hs]. unfold o. rewrite Hs. discriminate. }
  split.
  - split.
    + intros [_ Hnone]. destruct e; simpl in *.
      * rewrite lookup_insert_eq in Hnone. discriminate.
      * right; left.
        destruct (HackOptions.clearOnEnd o), (Bitsy.isEnding (bitsy w));
          simpl in Hnone; auto; contradiction.
      * left. reflexivity.
      * right; left.
        destruct (HackOptions.clearOnEnd o), (Bitsy.isEnding (bitsy w));
          simpl in Hnone; auto; contradiction.
      * right; right.
        destruct (HackOptions.clearOnStart o); auto; contradiction.
      * destruct (interval_callback id w) as [[]|];
          [rewrite lookup_insert_eq in Hnone; discriminate | contradiction].
      * contradiction.
    + intros Hcase. split; [exact Hsome|].
      destruct Hcase as [->|[(Hr & Hend & Hending)|(Hs & Hstart)]].
      * apply lookup_delete_eq.
      * destruct e; try discriminate; rewrite Hend, Hending; simpl;
          apply lookup_delete_eq.
      * destruct e; try discriminate. rewrite Hstart.
        apply lookup_delete_eq.
  - intros Hr Hoff. destruct e; try discriminate; rewrite Hoff; reflexivity.
Qed.

End lifecycle.

(** ** Saving and loading again *)

Lemma SameValueZero_eq (a b : value) : SameValueZero a b = true -> a = b.
Proof.
  destruct a as [| |x|[m| | |]|s| |], b as [| |y|[n| | |]|t| |];
    simpl; try discriminate; try reflexivity.
  - intros H. apply Bool.eqb_prop in H. congruence.
  - intros H. apply Z.eqb_eq in H. congruence.
  - intros H. apply String.eqb_eq in H. congruence.
Qed.

Lemma SameValueZero_sym (a b : value) : SameValueZero a b = SameValueZero b a.
Proof.
  destruct (SameValueZero a b) eqn:Hab.
  - apply SameValueZero_eq in Hab as Heq. subst b. symmetry. exact Hab.
  - destruct (SameValueZero b a) eqn:Hba; [|reflexivity].
    apply SameValueZero_eq in Hba as Heq. subst b. congruence.
Qed.

Lemma GetVariable_SetVariable_same (name v : value)
  (vars : list (value * value)) :
  SameValueZero name name = true ->
  Bitsy.GetVariable name (Bitsy.SetVariable name v vars) = v.
Proof.
  intros Hself. induction vars as [|[k u] vars IH]; simpl.
  - rewrite Hself. reflexivity.
  - destruct (SameValueZero k name) eqn:Hk; simpl; rewrite Hk; auto.
Qed.

Lemma GetVariable_SetVariable_other (name other v : value)
  (vars : list (value * value)) :
  SameValueZero other name = false ->
  Bitsy.GetVariable name (Bitsy.SetVariable other v vars)
  = Bitsy.GetVariable name vars.
Proof.
  intros Hother. induction vars as [|[k u] vars IH]; simpl.
  - rewrite Hother. reflexivity.
  - destruct (SameValueZero k other) eqn:Hk; simpl.
    + apply SameValueZero_eq in Hk. subst k. rewrite Hother. reflexivity.
    + rewrite IH. reflexivity.
Qed.

Lemma restore_variables_cons (entry : value) (entries : list value)
  (vars : list (value * value)) :
  restore_variables (entry :: entries) vars
  = restore_variables entries
      (Bitsy.SetVariable (index entry 0) (index entry 1) vars).
Proof. reflexivity. Qed.

Lemma restore_items_cons (entry : value) (entries : list value)
  (rooms : list (string * value)) :
  restore_items (entry :: entries) rooms
  = restore_items entries
      (Bitsy.set_room_items (ToString (index entry 0)) (index entry 1) rooms).
Proof. reflexivity. Qed.

Lemma GetVariable_restore_other (name : value) (entries : list value)
  (vars : list (value * value)) :
  Forall (fun entry => SameValueZero (index entry 0) name = false) entries ->
  Bitsy.GetVariable name (restore_variables entries vars)
  = Bitsy.GetVariable name vars.
Proof.
  revert vars. induction entries as [|e entries IH]; intros vars Hall.
  - reflexivity.
  - apply Forall_cons in Hall. destruct Hall as [He Hall].
    rewrite restore_variables_cons, IH by exact Hall.
    apply GetVariable_SetVariable_other. exact He.
Qed.

Lemma GetVariable_distinct (name v : value) (vars : list (value * value)) :
  distinct_names vars -> In (name, v) vars ->
  Bitsy.GetVariable name vars = v.
Proof.
  induction vars as [|[k u] vars IH]; intros Hdistinct Hin; [contradiction|].
  destruct Hdistinct as (Hself & Hrest & Hdistinct). simpl.
  destruct Hin as [[= -> ->]|Hin].
  - rewrite Hself. reflexivity.
  - rewrite List.Forall_forall in Hrest. specialize (Hrest _ Hin). simpl in Hrest.
    rewrite SameValueZero_sym, Hrest. apply IH; assumption.
Qed.

(** The [variables] field of a snapshot pairs every name with its value. *)
Lemma saved_variables (vars : list (value * value)) :
  distinct_names vars ->
  map (fun name => JArray [name; Bitsy.GetVariable name vars])
    (Bitsy.GetVariableNames vars)
  = map (fun kv => JArray [fst kv; snd kv]) vars.
Proof.
  intros Hdistinct. unfold Bitsy.GetVariableNames. rewrite map_map.
  apply map_ext_in. intros [k v] Hin. simpl.
  rewrite (GetVariable_distinct k v vars Hdistinct Hin). reflexivity.
Qed.

Lemma restore_saved_variables (saved vars : list (value * value))
  (name v : value) :
  distinct_names saved -> In (name, v) saved ->
  Bitsy.GetVariable name
    (restore_variables (map (fun kv => JArray [fst kv; snd kv]) saved) vars)
  = v.
Proof.
  revert vars. induction saved as [|[k u] saved IH];
    intros vars Hdistinct Hin; [contradiction|].
  destruct Hdistinct as (Hself & Hrest & Hdistinct).
  simpl map. rewrite restore_variables_cons.
  change (index (JArray [k; u]) 0) with k.
  change (index (JArray [k; u]) 1) with u.
  destruct Hin as [[= -> ->]|Hin].
  - rewrite GetVariable_restore_other.
    + apply GetVariable_SetVariable_same. exact Hself.
    + apply List.Forall_map. exact Hrest.
  - apply IH; assumption.
Qed.

Lemma restore_items_other (entries : list value) (id : string) (its : value)
  (rooms : list (string * value)) :
  Forall (fun entry => ToString (index entry 0) <> id) entries ->
  restore_items entries ((id, its) :: rooms)
  = (id, its) :: restore_items entries rooms.
Proof.
  revert its rooms. induction entries as [|e entries IH];
    intros its rooms Hall; [reflexivity|].
  apply Forall_cons in Hall. destruct Hall as [He Hall].
  rewrite !restore_items_cons. simpl Bitsy.set_room_items.
  destruct (String.eqb_spec id (ToString (index e 0))) as [Heq|Hne];
    [congruence|].
  apply IH. exact Hall.
Qed.

(** The [items] field of a snapshot puts back the item list of every
    room. *)
Lemma restore_saved_items (saved rooms : list (string * value)) :
  NoDup (map fst saved) ->
  map fst rooms = map fst saved ->
  restore_items (map (fun r => JArray [JString (fst r); snd r]) saved) rooms
  = saved.
Proof.
  revert rooms. induction saved as [|[id its] saved IH];
    intros rooms Hnodup Hids.
  - destruct rooms; [reflexivity | discriminate].
  - destruct rooms as [|[id' old] rooms]; [discriminate|].
    simpl in Hids. injection Hids as -> Hids.
    simpl in Hnodup. apply NoDup_cons in Hnodup.
    destruct Hnodup as [Hnotin Hnodup].
    simpl map. rewrite restore_items_cons.
    change (index (JArray [JString id; its]) 0) with (JString id).
    change (index (JArray [JString id; its]) 1) with its.
    simpl ToString. simpl Bitsy.set_room_items. rewrite String.eqb_refl.
    rewrite restore_items_other.
    + f_equal. apply IH; assumption.
    + apply List.Forall_map, List.Forall_forall. intros [k v] Hin. simpl.
      intros ->. apply Hnotin. apply list_elem_of_In, in_map_iff.
      exists (id, v). split; [reflexivity | exact Hin].
Qed.

Lemma saved_items_have_rooms (saved rooms : list (string * value)) :
  map fst rooms = map fst saved ->
  Forall (fun entry =>
            nullish entry = false
            /\ Bitsy.has_room (ToString (index entry 0)) rooms = true)
    (map (fun r => JArray [JString (fst r); snd r]) saved).
Proof.
  intros Hids. apply List.Forall_map, List.Forall_forall. intros [id its] Hin. simpl.
  split; [reflexivity|].
  assert (Hid : In id (map fst rooms)).
  { rewrite Hids. apply in_map_iff. exists (id, its). auto. }
  clear Hids Hin. induction rooms as [|[k old] rooms IH]; [contradiction|].
  simpl in *. destruct (String.eqb_spec k id); [reflexivity|].
  destruct Hid; [contradiction | auto].
Qed.

(** Blocks that each complete on the world complete one after the other. *)
Lemma load_blocks_all_normal (gs : list flag) (snapshot : value) (w : world) :
  NoDup gs ->
  (forall g, In g gs -> snd (load_block g snapshot w) = Normal tt) ->
  snd (load_blocks gs snapshot w) = Normal tt.
Proof.
  revert w. induction gs as [|g gs IH]; intros w Hnodup Hall; [reflexivity|].
  apply NoDup_cons in Hnodup. destruct Hnodup as [Hnotin Hnodup].
  rewrite list_elem_of_In in Hnotin.
  simpl. unfold bind.
  pose proof (Hall g (or_introl eq_refl)) as Hg.
  pose proof (load_block_touches g snapshot w) as ((Ho & _) & _ & Hp).
  destruct (load_block g snapshot w) as [w' c]; simpl in *. subst c.
  apply IH; [exact Hnodup|]. intros g' Hin.
  assert (Hne : g' <> g) by (intros ->; contradiction).
  destruct (load_block_deterministic g' snapshot w w') as [Hc _];
    [congruence | apply Hp; exact Hne |].
  rewrite <- Hc. apply Hall. right. exact Hin.
Qed.

Section round_trip.
Context `{codec : JSON}.

(** The round trip of C1 where the code keeps it.  With the four flags on, a codec that
    gives back the snapshot of the engine state, a truthy room, truthy
    coordinates (neither is 0), and the rooms of the game unchanged, [load]
    after [save] completes and puts back the room, the coordinates, the
    inventory, the item list of every room, the value of every dialog
    variable that was saved and the dialog progress, whatever the engine
    state has become in between. *)
Theorem save_then_load_restores (w : world) (later : Bitsy.t) :
  let o := hackOptions w in
  let b := bitsy w in
  let snapshot := JObject (build_snapshot o b) in
  HackOptions.position o = true ->
  HackOptions.items o = true ->
  HackOptions.variables o = true ->
  HackOptions.dialog o = true ->
  JSON_stringify snapshot <> "" ->
  JSON_parse (JSON_stringify snapshot) = Some snapshot ->
  ToBoolean (Bitsy.curRoom b) = true ->
  ToBoolean (Sprite.x (Bitsy.player b)) = true ->
  ToBoolean (Sprite.y (Bitsy.player b)) = true ->
  ToBoolean (Sprite.inventory (Bitsy.player b)) = true ->
  ToBoolean (SaveHack.sequenceIndices (Bitsy.saveHack b)) = true ->
  NoDup (map fst (Bitsy.room b)) ->
  map fst (Bitsy.room later) = map fst (Bitsy.room b) ->
  distinct_names (Bitsy.variable b) ->
  let r := load (with_bitsy (fun _ => later) (fst (save w))) in
  let b' := bitsy (fst r) in
  snd r = Normal tt
  /\ Bitsy.curRoom b' = Bitsy.curRoom b
  /\ Sprite.room (Bitsy.player b') = Bitsy.curRoom b
  /\ Sprite.x (Bitsy.player b') = Sprite.x (Bitsy.player b)
  /\ Sprite.y (Bitsy.player b') = Sprite.y (Bitsy.player b)
  /\ Sprite.inventory (Bitsy.player b') = Sprite.inventory (Bitsy.player b)
  /\ Bitsy.room b' = Bitsy.room b
  /\ (forall name v, In (name, v) (Bitsy.variable b) ->
        Bitsy.GetVariable name (Bitsy.variable b') = v)
  /\ Bitsy.saveHack b' = Bitsy.saveHack b.
Proof.
  intros o b snapshot Hp Hi Hv Hd Hne Hparse Hroom Hx Hy Hinv Hseq
    Hnodup Hids Hnames r b'.
  set (w2 := with_bitsy (fun _ => later) (fst (save w))) in *.
  assert (Hstored :
    localStorage w2 !! HackOptions.key (hackOptions w2)
    = Some (JSON_stringify snapshot)).
  { subst w2. rewrite save_eq. simpl. apply lookup_insert_eq. }
  assert (Hr : r = load_snapshot snapshot w2).
  { subst r. rewrite load_eq, Hstored.
    destruct (JSON_stringify snapshot); [contradiction|].
    rewrite Hparse. reflexivity. }
  subst b'. rewrite Hr. clear Hr r Hstored.
  destruct (field_build_snapshot o b) as (Hfp & Hfi & Hfv & Hfd).
  destruct (Hfp Hp) as (Hfroom & Hfx & Hfy).
  destruct (Hfi Hi) as (Hfinv & Hfitems).
  specialize (Hfv Hv). destruct (Hfd Hd) as (Hfseq & Hfsh).
  fold snapshot in Hfroom, Hfx, Hfy, Hfinv, Hfitems, Hfv, Hfseq, Hfsh.
  rewrite saved_variables in Hfv by exact Hnames.
  (* each block on its own *)
  assert (Hb1 : load_position snapshot w2
                = (with_bitsy (restore_position snapshot) w2, Normal tt)).
  { rewrite load_position_eq. change (hackOptions w2) with o.
    rewrite Hp. reflexivity. }
  assert (Hb2 : load_items snapshot w2
                = (with_bitsy
                     (set_rooms
                        (restore_items
                           (map (fun r => JArray [JString (fst r); snd r])
                              (Bitsy.room b))))
                     (with_bitsy (restore_inventory snapshot) w2),
                   Normal tt)).
  { rewrite load_items_eq. change (hackOptions w2) with o.
    rewrite Hi, Hfitems. simpl.
    apply forEach_load_item_normal.
    unfold restore_inventory. rewrite Hfinv, Hinv. simpl.
    apply saved_items_have_rooms. exact Hids. }
  assert (Hb3 : load_variables snapshot w2
                = (with_bitsy
                     (set_variables
                        (restore_variables
                           (map (fun kv => JArray [fst kv; snd kv])
                              (Bitsy.variable b)))) w2,
                   Normal tt)).
  { rewrite load_variables_eq. change (hackOptions w2) with o.
    rewrite Hv, Hfv. simpl.
    apply forEach_load_variable_normal.
    apply List.Forall_map, List.Forall_forall. intros kv _. reflexivity. }
  assert (Hb4 : load_dialog snapshot w2
                = (with_bitsy (restore_dialog snapshot) w2, Normal tt)).
  { rewrite load_dialog_eq. change (hackOptions w2) with o.
    rewrite Hd. reflexivity. }
  assert (Hall : forall gs, NoDup gs ->
            snd (load_blocks gs snapshot w2) = Normal tt).
  { intros gs Hgs. apply load_blocks_all_normal; [exact Hgs|].
    intros [] _; simpl; [rewrite Hb1 | rewrite Hb2 | rewrite Hb3 | rewrite Hb4];
      reflexivity. }
  assert (Hnd : forall gs : list flag,
            bool_decide (NoDup gs) = true -> NoDup gs)
    by (intros gs; apply bool_decide_eq_true_1).
  pose proof (load_snapshot_position snapshot w2) as (Hr1 & Hr2 & Hr3 & Hr4).
  destruct (load_snapshot_items snapshot w2) as [[Hr5 Hr6] _];
    [rewrite Hb1; reflexivity|].
  destruct (load_snapshot_variables snapshot w2) as [Hr7 _];
    [apply Hall, Hnd; reflexivity|].
  destruct (load_snapshot_dialog snapshot w2) as [Hr8 _];
    [apply Hall, Hnd; reflexivity|].
  simpl in Hr7, Hr8.
  rewrite Hb1 in Hr1, Hr2, Hr3, Hr4. rewrite Hb2 in Hr5, Hr6.
  rewrite Hb3 in Hr7. rewrite Hb4 in Hr8. simpl in *.
  split.
  { rewrite load_snapshot_blocks. apply Hall, Hnd. reflexivity. }
  rewrite Hr1, Hr2, Hr3, Hr4, Hr5, Hr6, Hr7, Hr8.
  unfold restore_position, restore_inventory, restore_dialog.
  rewrite Hfroom, Hfx, Hfy, Hfinv, Hfseq, Hfsh, Hroom, Hx, Hy, Hinv, Hseq.
  simpl.
  repeat (split; [reflexivity|]).
  split; [apply restore_saved_items; assumption|].
  split; [|destruct (Bitsy.saveHack b); reflexivity].
  intros name v Hin. apply restore_saved_variables; assumption.
Qed.

End round_trip.

(** ** [load] on arbitrary snapshots, block by block *)

Lemma forEach_app (f : value -> M unit) (l1 l2 : list value) (w : world) :
  forEach f (l1 ++ l2) w =
  match forEach f l1 w with
  | (w1, Normal _) => forEach f l2 w1
  | (w1, Throw e) => (w1, Throw e)
  end.
Proof.
  revert w. induction l1 as [|e l1 IH]; intros w; simpl; [reflexivity|].
  unfold bind. destruct (f e w) as [w' [[]|err]]; auto.
Qed.

Lemma has_room_restore_items (id : string) (entries : list value)
  (rooms : list (string * value)) :
  Bitsy.has_room id (restore_items entries rooms) = Bitsy.has_room id rooms.
Proof.
  revert rooms. induction entries as [|e entries IH]; intros rooms.
  - reflexivity.
  - rewrite restore_items_cons, IH. apply has_room_set_room_items.
Qed.




(** Every entry passes or throws. *)
Lemma entry_passes_or_throws (rooms : list (string * value)) (entry : value) :
  entry_passes rooms entry \/ entry_throws rooms entry.
Proof.
  unfold entry_passes, entry_throws.
  destruct (nullish entry); [auto|].
  destruct (_ || _); auto.
Qed.

(** The two loops at the first entry they cannot take. *)
Lemma forEach_load_item_stops (good rest : list value) (bad : value)
  (w : world) :
  Forall (entry_passes (Bitsy.room (bitsy w))) good ->
  entry_throws (Bitsy.room (bitsy w)) bad ->
  forEach load_item (good ++ bad :: rest) w
  = (with_bitsy (set_rooms (restore_items good)) w, Throw TypeError).
Proof.
  intros Hgood Hbad. rewrite forEach_app.
  rewrite forEach_load_item_passes by exact Hgood.
  cbn [forEach]. unfold bind. rewrite load_item_eq, !GetIndex_index.
  change (Bitsy.room (bitsy (with_bitsy (set_rooms (restore_items good)) w)))
    with (restore_items good (Bitsy.room (bitsy w))).
  destruct (nullish bad) eqn:Hnull; [reflexivity|]. cbv iota.
  rewrite has_room_restore_items.
  destruct Hbad as [Hbad|Hbad]; [congruence|].
  apply orb_false_elim in Hbad. destruct Hbad as [Hroom Hkey].
  rewrite Hroom, Hkey. reflexivity.
Qed.

Lemma forEach_load_variable_stops (good rest : list value) (bad : value)
  (w : world) :
  Forall (fun entry => nullish entry = false) good ->
  nullish bad = true ->
  forEach load_variable (good ++ bad :: rest) w
  = (with_bitsy (set_variables (restore_variables good)) w, Throw TypeError).
Proof.
  intros Hgood Hbad. rewrite forEach_app.
  rewrite forEach_load_variable_normal by exact Hgood.
  cbn [forEach]. unfold bind. rewrite load_variable_eq, !GetIndex_index, Hbad.
  reflexivity.
Qed.

(** The [items] block with its flag on: how it ends and the rooms it
    leaves. *)
Lemma load_items_on (snapshot : value) (w : world) :
  HackOptions.items (hackOptions w) = true ->
  nullish snapshot = false ->
  let r := load_items snapshot w in
  let rooms := Bitsy.room (bitsy w) in
  (ToBoolean (field snapshot "items") = true ->
   is_array (field snapshot "items") = false ->
   snd r = Throw TypeError /\ Bitsy.room (bitsy (fst r)) = rooms)
  /\ (forall entries,
        field snapshot "items" = JArray entries ->
        Forall (entry_passes rooms) entries ->
        snd r = Normal tt
        /\ Bitsy.room (bitsy (fst r)) = restore_items entries rooms)
  /\ (forall good bad rest,
        field snapshot "items" = JArray (good ++ bad :: rest) ->
        Forall (entry_passes rooms) good ->
        entry_throws rooms bad ->
        snd r = Throw TypeError
        /\ Bitsy.room (bitsy (fst r)) = restore_items good rooms).
Proof.
  intros Hflag Hnn r rooms. subst r.
  rewrite load_items_eq, Hflag, Hnn. cbn [negb].
  set (w' := with_bitsy (restore_inventory snapshot) w).
  assert (Hsame : Bitsy.room (bitsy w') = rooms).
  { subst w' rooms. unfold restore_inventory. simpl.
    destruct (ToBoolean _); reflexivity. }
  split; [|split].
  - intros Ht Hna. rewrite Ht.
    destruct (field snapshot "items"); try discriminate; simpl; auto.
  - intros entries Hitems Hall. rewrite Hitems. cbn [ToBoolean call_forEach].
    rewrite <- Hsame in Hall.
    rewrite forEach_load_item_passes by exact Hall.
    split; [reflexivity|].
    change (restore_items entries (Bitsy.room (bitsy w'))
            = restore_items entries rooms).
    rewrite Hsame. reflexivity.
  - intros good bad rest Hitems Hgood Hbad. rewrite Hitems.
    cbn [ToBoolean call_forEach].
    rewrite <- Hsame in Hgood, Hbad.
    rewrite forEach_load_item_stops by assumption.
    split; [reflexivity|].
    change (restore_items good (Bitsy.room (bitsy w'))
            = restore_items good rooms).
    rewrite Hsame. reflexivity.
Qed.

(** The [variables] block with its flag on. *)
Lemma load_variables_on (snapshot : value) (w : world) :
  HackOptions.variables (hackOptions w) = true ->
  nullish snapshot = false ->
  let r := load_variables snapshot w in
  let vars := Bitsy.variable (bitsy w) in
  (ToBoolean (field snapshot "variables") = true ->
   is_array (field snapshot "variables") = false ->
   snd r = Throw TypeError /\ Bitsy.variable (bitsy (fst r)) = vars)
  /\ (forall entries,
        field snapshot "variables" = JArray entries ->
        Forall (fun entry => nullish entry = false) entries ->
        snd r = Normal tt
        /\ Bitsy.variable (bitsy (fst r)) = restore_variables entries vars)
  /\ (forall good bad rest,
        field snapshot "variables" = JArray (good ++ bad :: rest) ->
        Forall (fun entry => nullish entry = false) good ->
        nullish bad = true ->
        snd r = Throw TypeError
        /\ Bitsy.variable (bitsy (fst r)) = restore_variables good vars).
Proof.
  intros Hflag Hnn r vars. subst r.
  rewrite load_variables_eq, Hflag, Hnn. cbn [negb].
  split; [|split].
  - intros Ht Hna. rewrite Ht.
    destruct (field snapshot "variables"); try discriminate; simpl; auto.
  - intros entries Hvars Hall. rewrite Hvars. cbn [ToBoolean call_forEach].
    rewrite forEach_load_variable_normal by exact Hall.
    split; reflexivity.
  - intros good bad rest Hvars Hgood Hbad. rewrite Hvars.
    cbn [ToBoolean call_forEach].
    rewrite forEach_load_variable_stops by assumption.
    split; reflexivity.
Qed.

Lemma load_items_completes (snapshot : value) (w : world) :
  nullish snapshot = false ->
  items_block_completes (hackOptions w) snapshot (Bitsy.room (bitsy w)) ->
  snd (load_items snapshot w) = Normal tt.
Proof.
  intros Hnn [Hoff|[Hfalsy|(entries & Hitems & Hall)]].
  - rewrite load_items_eq, Hoff. reflexivity.
  - rewrite load_items_eq, Hnn, Hfalsy. destruct (negb _); reflexivity.
  - destruct (HackOptions.items (hackOptions w)) eqn:Hflag.
    + destruct (load_items_on snapshot w Hflag Hnn) as (_ & Hdone & _).
      apply (Hdone entries Hitems Hall).
    + rewrite load_items_eq, Hflag. reflexivity.
Qed.

Lemma load_variables_completes (snapshot : value) (w : world) :
  nullish snapshot = false ->
  variables_block_completes (hackOptions w) snapshot ->
  snd (load_variables snapshot w) = Normal tt.
Proof.
  intros Hnn [Hoff|[Hfalsy|(entries & Hvars & Hall)]].
  - rewrite load_variables_eq, Hoff. reflexivity.
  - rewrite load_variables_eq, Hnn, Hfalsy. destruct (negb _); reflexivity.
  - destruct (HackOptions.variables (hackOptions w)) eqn:Hflag.
    + destruct (load_variables_on snapshot w Hflag Hnn) as (_ & Hdone & _).
      apply (Hdone entries Hvars Hall).
    + rewrite load_variables_eq, Hflag. reflexivity.
Qed.

(** Blocks that stopped leave the fields of the later blocks alone. *)
Lemma load_blocks_stopped (f : flag) (gs1 gs2 : list flag) (snapshot : value)
  (w : world) :
  ~ In f gs1 ->
  snd (load_blocks gs1 snapshot w) <> Normal tt ->
  same_part f (bitsy w)
    (bitsy (fst (load_blocks (gs1 ++ gs2) snapshot w))).
Proof.
  intros Hnotin Hthrow. rewrite load_blocks_app.
  pose proof (load_blocks_frame f gs1 snapshot w Hnotin) as Hframe.
  destruct (load_blocks gs1 snapshot w) as [w1 [[]|e]]; simpl in *;
    [exfalso; apply Hthrow; reflexivity | exact Hframe].
Qed.

(** An exception in the [items] block leaves the variables and the dialog
    progress as they were, and one in the [variables] block the dialog
    progress. *)
Lemma load_snapshot_items_throw (snapshot : value) (w : world) :
  snd (load_position snapshot w) = Normal tt ->
  snd (load_items snapshot w) <> Normal tt ->
  snd (load_snapshot snapshot w) = snd (load_items snapshot w)
  /\ Bitsy.variable (bitsy (fst (load_snapshot snapshot w)))
     = Bitsy.variable (bitsy w)
  /\ Bitsy.saveHack (bitsy (fst (load_snapshot snapshot w)))
     = Bitsy.saveHack (bitsy w).
Proof.
  intros Hfirst Hthrow.
  destruct (load_snapshot_items snapshot w Hfirst) as [_ Hc].
  split; [apply Hc; exact Hthrow|].
  assert (Hstop : snd (load_blocks [Position; Items] snapshot w) <> Normal tt).
  { destruct (load_blocks_part Items [Position] [] snapshot w) as [_ Hsame];
      [not_in_flags | not_in_flags | |].
    - simpl. unfold bind.
      destruct (load_position snapshot w) as [w' [[]|e]]; simpl in *;
        [reflexivity | discriminate].
    - change ([Position] ++ [Items]) with [Position; Items] in Hsame.
      simpl load_block in Hsame. rewrite (Hsame Hthrow). exact Hthrow. }
  rewrite load_snapshot_blocks.
  split.
  - apply (load_blocks_stopped Variables [Position; Items] [Variables; Dialog]);
      [not_in_flags | exact Hstop].
  - apply (load_blocks_stopped Dialog [Position; Items] [Variables; Dialog]);
      [not_in_flags | exact Hstop].
Qed.

Lemma load_snapshot_variables_throw (snapshot : value) (w : world) :
  snd (load_blocks [Position; Items] snapshot w) = Normal tt ->
  snd (load_variables snapshot w) <> Normal tt ->
  snd (load_snapshot snapshot w) = snd (load_variables snapshot w)
  /\ Bitsy.saveHack (bitsy (fst (load_snapshot snapshot w)))
     = Bitsy.saveHack (bitsy w).
Proof.
  intros Hsecond Hthrow.
  destruct (load_snapshot_variables snapshot w Hsecond) as [_ Hc].
  split; [apply Hc; exact Hthrow|].
  assert (Hstop :
    snd (load_blocks [Position; Items; Variables] snapshot w) <> Normal tt).
  { destruct (load_blocks_part Variables [Position; Items] [] snapshot w)
      as [_ Hsame]; [not_in_flags | not_in_flags | exact Hsecond |].
    change ([Position; Items] ++ [Variables])
      with [Position; Items; Variables] in Hsame.
    simpl load_block in Hsame. rewrite (Hsame Hthrow). exact Hthrow. }
  rewrite load_snapshot_blocks.
  apply (load_blocks_stopped Dialog [Position; Items; Variables] [Dialog]);
    [not_in_flags | exact Hstop].
Qed.

(** [load] on [null]: the first block whose flag is on throws. *)
Lemma load_snapshot_nullish (snapshot : value) (w : world) :
  nullish snapshot = true ->
  let o := hackOptions w in
  load_snapshot snapshot w
  = (w, if HackOptions.position o || HackOptions.items o
           || HackOptions.variables o || HackOptions.dialog o
        then Throw TypeError else Normal tt).
Proof.
  intros Hnull o. unfold load_snapshot, bind.
  rewrite load_position_eq. fold o.
  destruct (HackOptions.position o); simpl; rewrite ?Hnull; [reflexivity|].
  rewrite load_items_eq. fold o.
  destruct (HackOptions.items o); simpl; rewrite ?Hnull; [reflexivity|].
  rewrite load_variables_eq. fold o.
  destruct (HackOptions.variables o); simpl; rewrite ?Hnull; [reflexivity|].
  rewrite load_dialog_eq. fold o.
  destruct (HackOptions.dialog o); simpl; rewrite ?Hnull; reflexivity.
Qed.

(** What the blocks of [load] make of a snapshot that is not [null]. *)
Lemma load_snapshot_unvalidated (snapshot : value) (w : world) :
  nullish snapshot = false ->
  let o := hackOptions w in
  let b := bitsy w in
  let b' := bitsy (fst (load_snapshot snapshot w)) in
  let c := snd (load_snapshot snapshot w) in
  let rooms := Bitsy.room b in
  let vars := Bitsy.variable b in
  (forall f, enabled f o = false -> same_part f b b')
  /\ (HackOptions.position o = true ->
      (ToBoolean (field snapshot "room") = true ->
       Bitsy.curRoom b' = field snapshot "room"
       /\ Sprite.room (Bitsy.player b') = field snapshot "room")
      /\ (ToBoolean (field snapshot "x") && ToBoolean (field snapshot "y")
          = true ->
          Sprite.x (Bitsy.player b') = field snapshot "x"
          /\ Sprite.y (Bitsy.player b') = field snapshot "y"))
  /\ (HackOptions.items o = true ->
      (ToBoolean (field snapshot "inventory") = true ->
       Sprite.inventory (Bitsy.player b') = field snapshot "inventory")
      /\ (ToBoolean (field snapshot "items") = true ->
          is_array (field snapshot "items") = false ->
          c = Throw TypeError /\ Bitsy.room b' = rooms
          /\ Bitsy.variable b' = vars
          /\ Bitsy.saveHack b' = Bitsy.saveHack b)
      /\ (forall entries,
            field snapshot "items" = JArray entries ->
            Forall (entry_passes rooms) entries ->
            Bitsy.room b' = restore_items entries rooms)
      /\ (forall good bad rest,
            field snapshot "items" = JArray (good ++ bad :: rest) ->
            Forall (entry_passes rooms) good ->
            entry_throws rooms bad ->
            c = Throw TypeError /\ Bitsy.room b' = restore_items good rooms
            /\ Bitsy.variable b' = vars
            /\ Bitsy.saveHack b' = Bitsy.saveHack b))
  /\ (items_block_completes o snapshot rooms ->
      HackOptions.variables o = true ->
      (ToBoolean (field snapshot "variables") = true ->
       is_array (field snapshot "variables") = false ->
       c = Throw TypeError /\ Bitsy.variable b' = vars
       /\ Bitsy.saveHack b' = Bitsy.saveHack b)
      /\ (forall entries,
            field snapshot "variables" = JArray entries ->
            Forall (fun entry => nullish entry = false) entries ->
            Bitsy.variable b' = restore_variables entries vars)
      /\ (forall good bad rest,
            field snapshot "variables" = JArray (good ++ bad :: rest) ->
            Forall (fun entry => nullish entry = false) good ->
            nullish bad = true ->
            c = Throw TypeError
            /\ Bitsy.variable b' = restore_variables good vars
            /\ Bitsy.saveHack b' = Bitsy.saveHack b))
  /\ (items_block_completes o snapshot rooms ->
      variables_block_completes o snapshot ->
      c = Normal tt
      /\ (HackOptions.dialog o = true ->
          ToBoolean (field snapshot "sequenceIndices") = true ->
          Bitsy.saveHack b'
          = {| SaveHack.sequenceIndices := field snapshot "sequenceIndices";
               SaveHack.shuffles := field snapshot "shuffles" |})).
Proof.
  intros Hnn o b b' c rooms vars. subst b' c.
  assert (Hfirst : snd (load_position snapshot w) = Normal tt).
  { rewrite load_position_eq, Hnn. destruct (negb _); reflexivity. }
  assert (Hlast : snd (load_dialog snapshot w) = Normal tt).
  { rewrite load_dialog_eq, Hnn. destruct (negb _); reflexivity. }
  assert (Hnd : forall gs : list flag,
            bool_decide (NoDup gs) = true -> NoDup gs)
    by (intros gs; apply bool_decide_eq_true_1).
  assert (Hsecond : items_block_completes o snapshot rooms ->
            snd (load_blocks [Position; Items] snapshot w) = Normal tt).
  { intros Hic. apply load_blocks_all_normal; [apply Hnd; reflexivity|].
    intros g [<-|[<-|[]]]; simpl;
      [exact Hfirst | apply load_items_completes; assumption]. }
  split.
  { intros f Hoff. rewrite load_snapshot_blocks.
    apply load_blocks_keeps. exact Hoff. }
  split.
  { intros Hp.
    pose proof (load_snapshot_position snapshot w) as Hpos.
    rewrite load_position_eq in Hpos. fold o in Hpos.
    rewrite Hp, Hnn in Hpos. simpl in Hpos.
    destruct Hpos as (Hroom & Hproom & Hx & Hy). fold b in Hroom, Hproom, Hx, Hy.
    split.
    - intros Ht. rewrite Hroom, Hproom.
      apply restore_position_truthy_room. exact Ht.
    - intros Ht. rewrite Hx, Hy.
      apply restore_position_truthy_xy. exact Ht. }
  split.
  { intros Hi.
    destruct (load_snapshot_items snapshot w Hfirst) as [[Hinv Hrooms] _].
    destruct (load_items_result snapshot w Hi Hnn) as (Hinv' & _ & _).
    destruct (load_items_on snapshot w Hi Hnn) as (Hna & Hall & Hstop).
    fold rooms in Hna, Hall, Hstop.
    split.
    { intros Ht. rewrite Hinv, Hinv'. unfold restore_inventory.
      rewrite Ht. reflexivity. }
    split.
    { intros Ht Hnarr. destruct (Hna Ht Hnarr) as [Hc Hr].
      destruct (load_snapshot_items_throw snapshot w Hfirst)
        as (Hc' & Hv & Hs); [rewrite Hc; discriminate|].
      rewrite Hc', Hc, Hrooms, Hr. auto. }
    split.
    { intros entries Hitems Hgood.
      destruct (Hall entries Hitems Hgood) as [_ Hr].
      rewrite Hrooms, Hr. reflexivity. }
    intros good bad rest Hitems Hgood Hbad.
    destruct (Hstop good bad rest Hitems Hgood Hbad) as [Hc Hr].
    destruct (load_snapshot_items_throw snapshot w Hfirst)
      as (Hc' & Hv & Hs); [rewrite Hc; discriminate|].
    rewrite Hc', Hc, Hrooms, Hr. auto. }
  split.
  { intros Hic Hv.
    destruct (load_snapshot_variables snapshot w (Hsecond Hic)) as [Hvars _].
    simpl in Hvars.
    destruct (load_variables_on snapshot w Hv Hnn) as (Hna & Hall & Hstop).
    fold vars in Hna, Hall, Hstop.
    split.
    { intros Ht Hnarr. destruct (Hna Ht Hnarr) as [Hc Hr].
      destruct (load_snapshot_variables_throw snapshot w (Hsecond Hic))
        as (Hc' & Hs); [rewrite Hc; discriminate|].
      rewrite Hc', Hc, Hvars, Hr. auto. }
    split.
    { intros entries Hentries Hgood.
      destruct (Hall entries Hentries Hgood) as [_ Hr].
      rewrite Hvars, Hr. reflexivity. }
    intros good bad rest Hentries Hgood Hbad.
    destruct (Hstop good bad rest Hentries Hgood Hbad) as [Hc Hr].
    destruct (load_snapshot_variables_throw snapshot w (Hsecond Hic))
      as (Hc' & Hs); [rewrite Hc; discriminate|].
    rewrite Hc', Hc, Hvars, Hr. auto. }
  intros Hic Hvc.
  assert (Hall : forall gs, NoDup gs ->
            snd (load_blocks gs snapshot w) = Normal tt).
  { intros gs Hgs. apply load_blocks_all_normal; [exact Hgs|].
    intros [] _; simpl;
      [ exact Hfirst | apply load_items_completes; assumption
      | apply load_variables_completes; assumption | exact Hlast ]. }
  split.
  { rewrite load_snapshot_blocks. apply Hall, Hnd. reflexivity. }
  intros Hd Ht.
  destruct (load_snapshot_dialog snapshot w) as [Hdialog _];
    [apply Hall, Hnd; reflexivity|].
  simpl in Hdialog. rewrite Hdialog, load_dialog_eq. fold o.
  rewrite Hd, Hnn. simpl. unfold restore_dialog. rewrite Ht. reflexivity.
Qed.

Section validation.
Context `{codec : JSON}.

(** C8, as the code has it.  [load] checks no schema and reports nothing:
    it makes no host call and changes nothing but the engine state, and an
    exception leaves it uncaught.  For a stored text that parses to [null],
    the first block whose flag is on throws before anything is written.  For
    any other parsed value the blocks of position, items, variables and
    dialog run in this order, and a block whose flag is off writes nothing.
    Position: a truthy [room] is written as it is, and [x] and [y] are when
    both are truthy.  Items: a truthy [inventory] is written as it is; a
    truthy [items] that is no array ends [load] by a [TypeError]; an array
    is put back entry by entry, the second element as it is to the room the
    first names (an entry that names a property [bitsy.room] inherits sets
    no room), up to the first entry that cannot be indexed or names neither,
    where [load] ends by a [TypeError] with the entries before it put back;
    either exception leaves the variables and the dialog progress as they
    were.  Variables, when the items block
    has nothing to stop at: a truthy [variables] that is no array ends
    [load] by a [TypeError]; an array is set entry by entry up to the first
    entry that cannot be indexed, where [load] ends by a [TypeError] with
    the entries before it set; either exception leaves the dialog progress
    as it was.  Dialog, when neither block has anything to stop at: [load]
    returns, and a truthy [sequenceIndices] is written as it is, with what
    is stored under [shuffles]. *)
Theorem load_does_not_validate (w : world) (text : string) (snapshot : value) :
  localStorage w !! HackOptions.key (hackOptions w) = Some text ->
  text <> "" ->
  JSON_parse text = Some snapshot ->
  let o := hackOptions w in
  let b := bitsy w in
  let b' := bitsy (fst (load w)) in
  let c := snd (load w) in
  let rooms := Bitsy.room b in
  let vars := Bitsy.variable b in
  same_host w (fst (load w))
  /\ (nullish snapshot = true ->
      load w
      = (w, if HackOptions.position o || HackOptions.items o
               || HackOptions.variables o || HackOptions.dialog o
            then Throw TypeError else Normal tt))
  /\ (nullish snapshot = false ->
      (forall f, enabled f o = false -> same_part f b b')
      /\ (HackOptions.position o = true ->
          (ToBoolean (field snapshot "room") = true ->
           Bitsy.curRoom b' = field snapshot "room"
           /\ Sprite.room (Bitsy.player b') = field snapshot "room")
          /\ (ToBoolean (field snapshot "x") && ToBoolean (field snapshot "y")
              = true ->
              Sprite.x (Bitsy.player b') = field snapshot "x"
              /\ Sprite.y (Bitsy.player b') = field snapshot "y"))
      /\ (HackOptions.items o = true ->
          (ToBoolean (field snapshot "inventory") = true ->
           Sprite.inventory (Bitsy.player b') = field snapshot "inventory")
          /\ (ToBoolean (field snapshot "items") = true ->
              is_array (field snapshot "items") = false ->
              c = Throw TypeError /\ Bitsy.room b' = rooms
              /\ Bitsy.variable b' = vars
              /\ Bitsy.saveHack b' = Bitsy.saveHack b)
          /\ (forall entries,
                field snapshot "items" = JArray entries ->
                Forall (entry_passes rooms) entries ->
                Bitsy.room b' = restore_items entries rooms)
          /\ (forall good bad rest,
                field snapshot "items" = JArray (good ++ bad :: rest) ->
                Forall (entry_passes rooms) good ->
                entry_throws rooms bad ->
                c = Throw TypeError
                /\ Bitsy.room b' = restore_items good rooms
                /\ Bitsy.variable b' = vars
                /\ Bitsy.saveHack b' = Bitsy.saveHack b))
      /\ (items_block_completes o snapshot rooms ->
          HackOptions.variables o = true ->
          (ToBoolean (field snapshot "variables") = true ->
           is_array (field snapshot "variables") = false ->
           c = Throw TypeError /\ Bitsy.variable b' = vars
           /\ Bitsy.saveHack b' = Bitsy.saveHack b)
          /\ (forall entries,
                field snapshot "variables" = JArray entries ->
                Forall (fun entry => nullish entry = false) entries ->
                Bitsy.variable b' = restore_variables entries vars)
          /\ (forall good bad rest,
                field snapshot "variables" = JArray (good ++ bad :: rest) ->
                Forall (fun entry => nullish entry = false) good ->
                nullish bad = true ->
                c = Throw TypeError
                /\ Bitsy.variable b' = restore_variables good vars
                /\ Bitsy.saveHack b' = Bitsy.saveHack b))
      /\ (items_block_completes o snapshot rooms ->
          variables_block_completes o snapshot ->
          c = Normal tt
          /\ (HackOptions.dialog o = true ->
              ToBoolean (field snapshot "sequenceIndices") = true ->
              Bitsy.saveHack b'
              = {| SaveHack.sequenceIndices :=
                     field snapshot "sequenceIndices";
                   SaveHack.shuffles := field snapshot "shuffles" |}))).
Proof.
  intros Hstored Hne Hparsed o b b' c rooms vars.
  split; [apply load_same_host|].
  subst b' c. rewrite load_eq, Hstored.
  destruct text as [|ch text]; [contradiction|]. rewrite Hparsed.
  split; [intros Hnull; apply load_snapshot_nullish; exact Hnull|].
  intros Hnn. apply load_snapshot_unvalidated. exact Hnn.
Qed.

End validation.

(** ** Runs on the sample worlds *)

(** C1, where the code departs from it.  The player is saved in the first
    column of room 1, at (0, 2); the game goes back to its start; [load]
    then completes and restores the room but leaves the player at (4, 4),
    the coordinates of the start. *)
Theorem save_load_loses_edge_position :
  let saved :=
    fst (@save JsonText.codec (world_of HackOptions.default game_at_edge ∅)) in
  let r := @load JsonText.codec (with_bitsy (fun _ => game_start) saved) in
  Bitsy.curRoom game_at_edge = JString "1"
  /\ Sprite.x (Bitsy.player game_at_edge) = JNumber (Finite 0)
  /\ Sprite.y (Bitsy.player game_at_edge) = JNumber (Finite 2)
  /\ snd r = Normal tt
  /\ Bitsy.curRoom (bitsy (fst r)) = JString "1"
  /\ Sprite.x (Bitsy.player (bitsy (fst r))) = JNumber (Finite 4)
  /\ Sprite.y (Bitsy.player (bitsy (fst r))) = JNumber (Finite 4).
Proof. vm_compute. repeat split. Qed.

(** C7, against its wording: with [clearOnStart] on, the start of the
    exported game removes the stored snapshot, and it is neither the [clear]
    tag nor a reset. *)
Lemma start_hook_removes_snapshot :
  let w := world_of clear_on_start game_start {[ "snapshot" := "{}" ]} in
  let e := engine_startExportedGame game_start in
  @removes_snapshot JsonText.codec e w
  /\ e <> tag_clear
  /\ resets e = false.
Proof.
  split; [|split; [discriminate | reflexivity]].
  split; [eexists; reflexivity | vm_compute; reflexivity].
Qed.

(** C5, against its wording: the number under [items] ends [load] with the
    [items] flag on before the variables are reached, and with the flag off
    the entry under [variables] is loaded: switching [items] off changes what
    [load] leaves in the dialog variables. *)
Lemma disabled_flag_changes_later_fields :
  let text := text_of snapshot_with_bad_items in
  let w := world_of (set_flag Items false HackOptions.default) game_start
             {[ "snapshot" := text ]} in
  let on := with_hackOptions (set_flag Items true) w in
  let a := JString "a" in
  JsonText.parse text = Some snapshot_with_bad_items
  /\ enabled Items (hackOptions w) = false
  /\ snd (@load JsonText.codec on) = Throw TypeError
  /\ Bitsy.GetVariable a (Bitsy.variable (bitsy (fst (@load JsonText.codec on))))
     = JNumber (Finite 42)
  /\ snd (@load JsonText.codec w) = Normal tt
  /\ Bitsy.GetVariable a (Bitsy.variable (bitsy (fst (@load JsonText.codec w))))
     = JNumber (Finite 1)
  /\ ~ same_part Variables (bitsy (fst (@load JsonText.codec w)))
                           (bitsy (fst (@load JsonText.codec on))).
Proof. vm_compute. repeat split; discriminate. Qed.

(** C8, against its wording: a truthy [x] is not written when [y] is
    missing, a truthy [items] that is no array is not written but ends
    [load] by a [TypeError], and the truthy [sequenceIndices] behind it is
    not written either. *)
Lemma load_skips_truthy_fields :
  let text := text_of unchecked_snapshot in
  let w := world_of HackOptions.default game_start {[ "snapshot" := text ]} in
  let r := @load JsonText.codec w in
  JsonText.parse text = Some unchecked_snapshot
  /\ ToBoolean (field unchecked_snapshot "x") = true
  /\ Sprite.x (Bitsy.player (bitsy (fst r))) <> field unchecked_snapshot "x"
  /\ ToBoolean (field unchecked_snapshot "items") = true
  /\ snd r = Throw TypeError
  /\ Bitsy.room (bitsy (fst r)) = Bitsy.room game_start
  /\ ToBoolean (field unchecked_snapshot "sequenceIndices") = true
  /\ SaveHack.sequenceIndices (Bitsy.saveHack (bitsy (fst r)))
     <> field unchecked_snapshot "sequenceIndices".
Proof. vm_compute. repeat split; discriminate. Qed.

(** ** The statements at the sample worlds *)

Lemma load_without_snapshot_witness :
  let w := world_of HackOptions.default game_later ∅ in
  localStorage w !! HackOptions.key (hackOptions w) = None
  /\ @load JsonText.codec w = (w, Normal tt).
Proof.
  split; [reflexivity|].
  apply (@load_without_snapshot JsonText.codec). reflexivity.
Defined.

Lemma single_slot_witness :
  let w := world_of HackOptions.default game_later {[ "other" := "kept" ]} in
  let ops := [op_save; op_load; op_clear; op_save] in
  "other" <> HackOptions.key (hackOptions w)
  /\ localStorage (@perform_all JsonText.codec ops w) !! "other" = Some "kept".
Proof.
  intros w ops.
  assert (Hother : "other" <> HackOptions.key (hackOptions w))
    by discriminate.
  split; [exact Hother|].
  destruct (@single_slot JsonText.codec ops w "other" Hother) as [Hkept _].
  rewrite Hkept. reflexivity.
Defined.

Lemma snapshot_contents_witness :
  let w := world_of HackOptions.default game_later ∅ in
  HackOptions.position (hackOptions w) = true
  /\ HackOptions.items (hackOptions w) = true
  /\ HackOptions.variables (hackOptions w) = true
  /\ HackOptions.dialog (hackOptions w) = true
  /\ map fst (build_snapshot (hackOptions w) (bitsy w))
     = ["room"; "x"; "y"; "inventory"; "items"; "variables";
        "sequenceIndices"; "shuffles"].
Proof.
  intros w. repeat (split; [reflexivity|]).
  destruct (@snapshot_contents JsonText.codec w eq_refl eq_refl eq_refl eq_refl)
    as (_ & Hfields & _).
  exact Hfields.
Defined.

Lemma feature_flag_framing_witness :
  let o := set_flag Variables false HackOptions.default in
  let text := text_of (JObject (build_snapshot HackOptions.default game_later)) in
  let w := world_of o game_start {[ "snapshot" := text ]} in
  let on := with_hackOptions (set_flag Variables true) w in
  enabled Variables (hackOptions w) = false
  /\ same_part Variables (bitsy w) (bitsy (fst (@load JsonText.codec w)))
  /\ same_part Position (bitsy (fst (@load JsonText.codec w)))
                        (bitsy (fst (@load JsonText.codec on)))
  /\ snd (@load JsonText.codec on) = Normal tt
  /\ snd (@load JsonText.codec w) = Normal tt
  /\ same_part Dialog (bitsy (fst (@load JsonText.codec w)))
                      (bitsy (fst (@load JsonText.codec on))).
Proof.
  intros o text w on.
  assert (Hoff : enabled Variables (hackOptions w) = false) by reflexivity.
  assert (Hon : snd (@load JsonText.codec on) = Normal tt)
    by (vm_compute; reflexivity).
  destruct (@feature_flag_framing JsonText.codec Variables w Hoff)
    as (_ & Hkept & _ & Hearlier & _ & Hothers).
  destruct (Hothers Hon) as [Hnormal Hsame].
  split; [exact Hoff|]. split; [exact Hkept|].
  split; [apply Hearlier; simpl; lia|].
  split; [exact Hon|]. split; [exact Hnormal|]. apply Hsame. discriminate.
Defined.

Lemma autosave_enablement_witness :
  let w := world_of HackOptions.default game_start ∅ in
  let es := [engine_startExportedGame game_start; timer 0; tag_save;
             tag_load game_start []; timer 0] in
  let timed := world_of autosave_5s game_start ∅ in
  HackOptions.autosaveInterval (hackOptions w) = PosInfinity
  /\ intervals w = []
  /\ @autosaves JsonText.codec es w = 0%nat
  /\ lt_Infinity (HackOptions.autosaveInterval (hackOptions timed)) = true
  /\ intervals (fst (onready_autosave timed)) = [(0%nat, (cb_save, Finite 5000))].
Proof.
  intros w es timed.
  destruct (@autosave_enablement JsonText.codec w es) as (_ & _ & _ & Hnever).
  destruct (@autosave_enablement JsonText.codec timed []) as (Hinstall & _).
  split; [reflexivity|]. split; [reflexivity|].
  split; [apply Hnever; reflexivity|].
  split; [reflexivity|].
  destruct (Hinstall eq_refl) as (_ & Htimers & _). exact Htimers.
Defined.

Lemma snapshot_destruction_witness :
  let w := world_of HackOptions.default game_start {[ "snapshot" := "{}" ]} in
  is_Some (localStorage w !! HackOptions.key (hackOptions w))
  /\ @removes_snapshot JsonText.codec tag_clear w
  /\ localStorage (fst (@handle JsonText.codec
                          (engine_reset_cur_game game_start) w))
       !! HackOptions.key (hackOptions w)
     = Some "{}".
Proof.
  intros w.
  assert (Hsome : is_Some (localStorage w !! HackOptions.key (hackOptions w)))
    by (eexists; reflexivity).
  split; [exact Hsome|].
  destruct (@snapshot_destruction JsonText.codec tag_clear w Hsome)
    as [Hiff _].
  destruct (@snapshot_destruction JsonText.codec
              (engine_reset_cur_game game_start) w Hsome) as [_ Hkept].
  split; [apply Hiff; left; reflexivity|].
  rewrite Hkept; reflexivity.
Defined.

Lemma load_does_not_validate_witness :
  let text := text_of snapshot_with_unknown_room in
  let w := world_of HackOptions.default game_start {[ "snapshot" := text ]} in
  let r := @load JsonText.codec w in
  let mistyped :=
    world_of HackOptions.default game_start
      {[ "snapshot" := text_of mistyped_snapshot ]} in
  let r' := @load JsonText.codec mistyped in
  let b' := bitsy (fst r') in
  localStorage w !! HackOptions.key (hackOptions w) = Some text
  /\ text <> ""
  /\ JsonText.parse text = Some snapshot_with_unknown_room
  /\ snd r = Throw TypeError
  /\ Bitsy.room (bitsy (fst r)) = Bitsy.room game_start
  /\ Bitsy.variable (bitsy (fst r)) = Bitsy.variable game_start
  /\ JsonText.parse (text_of mistyped_snapshot) = Some mistyped_snapshot
  /\ snd r' = Normal tt
  /\ Bitsy.curRoom b' = JNumber (Finite 7)
  /\ Sprite.x (Bitsy.player b') = JString "left"
  /\ Sprite.y (Bitsy.player b') = JBool true
  /\ Sprite.inventory (Bitsy.player b') = JString "empty"
  /\ Bitsy.room b' = [("0", JArray [tea]); ("1", JNumber (Finite 9))]
  /\ Bitsy.saveHack b'
     = {| SaveHack.sequenceIndices := JNumber (Finite 1);
          SaveHack.shuffles := JUndefined |}.
Proof.
  intros text w r mistyped r' b'.
  assert (Hstored :
    localStorage w !! HackOptions.key (hackOptions w) = Some text)
    by (vm_compute; reflexivity).
  assert (Hne : text <> "") by (vm_compute; discriminate).
  assert (Hparsed : JsonText.parse text = Some snapshot_with_unknown_room)
    by (vm_compute; reflexivity).
  assert (Hstored' :
    localStorage mistyped !! HackOptions.key (hackOptions mistyped)
    = Some (text_of mistyped_snapshot))
    by (vm_compute; reflexivity).
  assert (Hne' : text_of mistyped_snapshot <> "")
    by (vm_compute; discriminate).
  assert (Hparsed' :
    JsonText.parse (text_of mistyped_snapshot) = Some mistyped_snapshot)
    by (vm_compute; reflexivity).
  destruct (@load_does_not_validate JsonText.codec w text
              snapshot_with_unknown_room Hstored Hne Hparsed)
    as (_ & _ & Hwritten).
  destruct (Hwritten eq_refl) as (_ & _ & Hitems & _).
  destruct (Hitems eq_refl) as (_ & _ & _ & Hstops).
  destruct (Hstops [] (JArray [JString "cellar"; JArray []]) [] eq_refl
              (List.Forall_nil _)) as (Hc & Hrooms & Hvars & _);
    [right; reflexivity|].
  destruct (@load_does_not_validate JsonText.codec mistyped
              (text_of mistyped_snapshot) mistyped_snapshot
              Hstored' Hne' Hparsed')
    as (_ & _ & Hwritten').
  destruct (Hwritten' eq_refl) as (_ & Hposition & Hitems' & _ & Hdialog).
  destruct (Hposition eq_refl) as [Hroom Hxy].
  destruct (Hitems' eq_refl) as (Hinv & _ & Hall & _).
  assert (Hic : items_block_completes (hackOptions mistyped) mistyped_snapshot
                  (Bitsy.room (bitsy mistyped))).
  { right. right. eexists. split; [reflexivity|].
    repeat constructor. }
  assert (Hvc : variables_block_completes (hackOptions mistyped)
                  mistyped_snapshot).
  { right. right. eexists. split; [reflexivity|]. repeat constructor. }
  destruct (Hdialog Hic Hvc) as [Hnormal Hsaved].
  split; [exact Hstored|]. split; [exact Hne|]. split; [exact Hparsed|].
  split; [exact Hc|]. split; [exact Hrooms|]. split; [exact Hvars|].
  split; [exact Hparsed'|]. split; [exact Hnormal|].
  split; [apply Hroom; reflexivity|].
  split; [apply Hxy; reflexivity|].
  split; [apply Hxy; reflexivity|].
  split; [apply Hinv; reflexivity|].
  split; [|apply Hsaved; reflexivity].
  exact (eq_trans
           (Hall [JArray [JString "1"; JNumber (Finite 9)]] eq_refl
              ltac:(repeat constructor))
           eq_refl).
Defined.

Lemma position_guard_is_falsy_based_witness :
  let snapshot := JObject (build_snapshot HackOptions.default game_at_edge) in
  let text := text_of snapshot in
  let w := world_of HackOptions.default game_start {[ "snapshot" := text ]} in
  let p' := Bitsy.player (bitsy (fst (@load JsonText.codec w))) in
  localStorage w !! HackOptions.key (hackOptions w) = Some text
  /\ JsonText.parse text = Some snapshot
  /\ field snapshot "x" = JNumber (Finite 0)
  /\ Sprite.x p' = JNumber (Finite 4)
  /\ Sprite.y p' = JNumber (Finite 4).
Proof.
  intros snapshot text w p'.
  assert (Hstored :
    localStorage w !! HackOptions.key (hackOptions w) = Some text)
    by (vm_compute; reflexivity).
  assert (Hparsed : JsonText.parse text = Some snapshot)
    by (vm_compute; reflexivity).
  destruct (@position_guard_is_falsy_based JsonText.codec w text snapshot
              Hstored Hparsed) as (_ & Hzero & _).
  split; [exact Hstored|]. split; [exact Hparsed|].
  split; [reflexivity|].
  apply Hzero. left. reflexivity.
Defined.

Lemma save_then_load_restores_witness :
  let w := world_of HackOptions.default game_later ∅ in
  let r := @load JsonText.codec
             (with_bitsy (fun _ => game_start)
                (fst (@save JsonText.codec w))) in
  JsonText.parse (text_of (JObject (build_snapshot (hackOptions w) (bitsy w))))
  = Some (JObject (build_snapshot (hackOptions w) (bitsy w)))
  /\ snd r = Normal tt
  /\ Bitsy.curRoom (bitsy (fst r)) = JString "1"
  /\ Sprite.x (Bitsy.player (bitsy (fst r))) = JNumber (Finite 7)
  /\ Sprite.y (Bitsy.player (bitsy (fst r))) = JNumber (Finite 2)
  /\ Bitsy.room (bitsy (fst r)) = Bitsy.room game_later
  /\ Bitsy.GetVariable (JString "met") (Bitsy.variable (bitsy (fst r)))
     = JBool true.
Proof.
  intros w r.
  assert (Hparse :
    JsonText.parse
      (text_of (JObject (build_snapshot (hackOptions w) (bitsy w))))
    = Some (JObject (build_snapshot (hackOptions w) (bitsy w))))
    by (vm_compute; reflexivity).
  assert (Hne : text_of (JObject (build_snapshot (hackOptions w) (bitsy w)))
                <> "") by (vm_compute; discriminate).
  assert (Hrooms : NoDup (map fst (Bitsy.room game_later)))
    by (apply (bool_decide_unpack _); vm_compute; exact I).
  assert (Hnames : distinct_names (Bitsy.variable game_later))
    by (simpl; repeat constructor).
  destruct (@save_then_load_restores JsonText.codec w game_start
              eq_refl eq_refl eq_refl eq_refl Hne Hparse
              eq_refl eq_refl eq_refl eq_refl eq_refl Hrooms eq_refl Hnames)
    as (Hnormal & Hroom & _ & Hx & Hy & _ & Hitems & Hvars & _).
  split; [exact Hparse|]. split; [exact Hnormal|].
  split; [exact Hroom|]. split; [exact Hx|]. split; [exact Hy|].
  split; [exact Hitems|].
  apply Hvars. right. left. reflexivity.
Defined.

(** * Further properties of the save hack *)

(** ** Dialog progress *)

Lemma not_inherited_not_proto (key : string) :
  inherited_key key = false -> String.eqb key "__proto__" = false.
Proof.
  unfold inherited_key. intros Hkey.
  destruct (String.eqb key "__proto__") eqn:Heq; [|reflexivity].
  apply String.eqb_eq in Heq. subst key. discriminate.
Qed.

Lemma PutComputed_object (key : string) (v : value)
  (members : list (string * value)) :
  String.eqb key "__proto__" = false ->
  PutComputed (JObject members) key v
  = Some (Normal (JObject (own_set key v members))).
Proof.
  intros Hkey. unfold PutComputed. rewrite Hkey, orb_true_r. reflexivity.
Qed.

Lemma has_own_own_set (p q : string) (v : value)
  (members : list (string * value)) :
  has_own p (own_set q v members)
  = String.eqb q p || has_own p members.
Proof.
  unfold has_own.
  induction members as [|[k u] members IH]; simpl.
  - rewrite orb_false_r. reflexivity.
  - destruct (String.eqb_spec k q) as [->|Hkq]; simpl.
    + destruct (String.eqb q p); reflexivity.
    + rewrite IH. destruct (String.eqb k p), (String.eqb q p); reflexivity.
Qed.

Lemma GetComputed_own_set_same (key : string) (v : value)
  (members : list (string * value)) :
  GetComputed (JObject (own_set key v members)) key = Some (Normal v).
Proof.
  unfold GetComputed.
  rewrite has_own_own_set, String.eqb_refl, own_get_own_set, String.eqb_refl.
  reflexivity.
Qed.

Lemma GetComputed_own_set_other (key other : string) (v : value)
  (members : list (string * value)) :
  other <> key ->
  GetComputed (JObject (own_set key v members)) other
  = GetComputed (JObject members) other.
Proof.
  intros Hother. unfold GetComputed.
  rewrite has_own_own_set, own_get_own_set.
  destruct (String.eqb_spec key other); [congruence | reflexivity].
Qed.

Lemma saveSeqIdx_object (w : world) (id index : value)
  (members : list (string * value)) :
  SaveHack.sequenceIndices (Bitsy.saveHack (bitsy w)) = JObject members ->
  String.eqb (ToString id) "__proto__" = false ->
  saveSeqIdx id index w
  = Some (with_bitsy
            (set_sequenceIndices
               (JObject (own_set (ToString id) index members))) w,
          Normal tt).
Proof.
  intros Htable Hkey. unfold saveSeqIdx.
  rewrite Htable, PutComputed_object by exact Hkey. reflexivity.
Qed.

Lemma saveShuffle_object (w : world) (id options : value)
  (members : list (string * value)) :
  SaveHack.shuffles (Bitsy.saveHack (bitsy w)) = JObject members ->
  String.eqb (ToString id) "__proto__" = false ->
  saveShuffle id options w
  = Some (with_bitsy
            (set_shuffles (JObject (own_set (ToString id) options members))) w,
          Normal tt).
Proof.
  intros Htable Hkey. unfold saveShuffle.
  rewrite Htable, PutComputed_object by exact Hkey. reflexivity.
Qed.

Lemma touches_only_dialog_saveHack (t : SaveHack.t) (w : world) :
  touches_only Dialog w (with_bitsy (set_saveHack t) w).
Proof.
  split; [repeat split|]. split; [reflexivity|].
  intros f Hf. destruct f; simpl; auto. contradiction.
Qed.

Lemma own_get_own_set_same (p : string) (v : value)
  (members : list (string * value)) :
  own_get p (own_set p v members) = v.
Proof. rewrite own_get_own_set, String.eqb_refl. reflexivity. Qed.

(** X1. On a table of indices that is an object, and for a node whose id is
    not [__proto__]: the index a sequence node records is the index it reads
    back, the indices of the other nodes stay what they were, and nothing but
    the table of indices changes. *)
Theorem saveSeqIdx_then_loadSeqIdx (w : world) (id index : value)
  (members : list (string * value)) :
  SaveHack.sequenceIndices (Bitsy.saveHack (bitsy w)) = JObject members ->
  ToString id <> "__proto__" ->
  let w' :=
    with_bitsy
      (set_sequenceIndices (JObject (own_set (ToString id) index members))) w in
  saveSeqIdx id index w = Some (w', Normal tt)
  /\ loadSeqIdx id w' = Some (Normal index)
  /\ (forall other, ToString other <> ToString id ->
        loadSeqIdx other w' = loadSeqIdx other w)
  /\ touches_only Dialog w w'
  /\ SaveHack.shuffles (Bitsy.saveHack (bitsy w'))
     = SaveHack.shuffles (Bitsy.saveHack (bitsy w)).
Proof.
  intros Htable Hkey w'. apply String.eqb_neq in Hkey.
  split; [apply saveSeqIdx_object; assumption|].
  unfold loadSeqIdx. cbn [w' bitsy with_bitsy set_sequenceIndices set_saveHack
                          Bitsy.saveHack SaveHack.sequenceIndices
                          SaveHack.shuffles].
  rewrite Htable.
  split; [apply GetComputed_own_set_same|].
  split; [intros other Hother; apply GetComputed_own_set_other; exact Hother|].
  split; [apply touches_only_dialog_saveHack | reflexivity].
Qed.

(** X2. On a table of orders that is an object, and for a node whose id is
    not [__proto__]: the order a shuffle node records is the order it reads
    back, the orders of the other nodes stay what they were, and nothing but
    the table of orders changes. *)
Theorem saveShuffle_then_loadShuffle (w : world) (id options : value)
  (members : list (string * value)) :
  SaveHack.shuffles (Bitsy.saveHack (bitsy w)) = JObject members ->
  ToString id <> "__proto__" ->
  let w' :=
    with_bitsy
      (set_shuffles (JObject (own_set (ToString id) options members))) w in
  saveShuffle id options w = Some (w', Normal tt)
  /\ loadShuffle id w' = Some (Normal options)
  /\ (forall other, ToString other <> ToString id ->
        loadShuffle other w' = loadShuffle other w)
  /\ touches_only Dialog w w'
  /\ SaveHack.sequenceIndices (Bitsy.saveHack (bitsy w'))
     = SaveHack.sequenceIndices (Bitsy.saveHack (bitsy w)).
Proof.
  intros Htable Hkey w'. apply String.eqb_neq in Hkey.
  split; [apply saveShuffle_object; assumption|].
  unfold loadShuffle. cbn [w' bitsy with_bitsy set_shuffles set_saveHack
                           Bitsy.saveHack SaveHack.sequenceIndices
                           SaveHack.shuffles].
  rewrite Htable.
  split; [apply GetComputed_own_set_same|].
  split; [intros other Hother; apply GetComputed_own_set_other; exact Hother|].
  split; [apply touches_only_dialog_saveHack | reflexivity].
Qed.

(** X3. A sequence node with no recorded index keeps its own index; once an
    index other than [undefined] is recorded, the node resumes at it,
    whatever index it holds itself.  The table of indices is an object and
    the id of the node is not an inherited name. *)
Theorem resume_index_uses_recorded_index (w : world) (id index recorded : value)
  (members : list (string * value)) :
  SaveHack.sequenceIndices (Bitsy.saveHack (bitsy w)) = JObject members ->
  inherited_key (ToString id) = false ->
  (own_get (ToString id) members = JUndefined ->
   resume_index id index w = Some (Normal index))
  /\ (recorded <> JUndefined ->
      exists w', saveSeqIdx id recorded w = Some (w', Normal tt)
                 /\ resume_index id index w' = Some (Normal recorded)).
Proof.
  intros Htable Hkey. split.
  - intros Hmissing. unfold resume_index, loadSeqIdx, GetComputed.
    rewrite Htable, Hkey, orb_true_r, Hmissing. reflexivity.
  - intros Hdefined.
    eexists. split.
    { apply saveSeqIdx_object;
        [exact Htable | apply not_inherited_not_proto; exact Hkey]. }
    unfold resume_index, loadSeqIdx.
    cbn [bitsy with_bitsy set_sequenceIndices set_saveHack Bitsy.saveHack
         SaveHack.sequenceIndices].
    rewrite GetComputed_own_set_same.
    destruct recorded; try reflexivity. contradiction.
Qed.

Lemma own_set_own_set_same (p : string) (v v' : value)
  (members : list (string * value)) :
  own_set p v' (own_set p v members) = own_set p v' members.
Proof.
  induction members as [|[k u] members IH]; simpl.
  - rewrite String.eqb_refl. reflexivity.
  - destruct (String.eqb k p) eqn:Hk; simpl; rewrite Hk; [reflexivity|].
    rewrite IH. reflexivity.
Qed.

(** The injected statements of a shuffle node on tables that are objects. *)
Lemma resume_shuffle_object (u : world) (id index mine : value)
  (indices members : list (string * value)) :
  SaveHack.sequenceIndices (Bitsy.saveHack (bitsy u)) = JObject indices ->
  SaveHack.shuffles (Bitsy.saveHack (bitsy u)) = JObject members ->
  inherited_key (ToString id) = false ->
  let saved := own_get (ToString id) members in
  let order := if ToBoolean saved then saved else mine in
  let u' :=
    with_bitsy
      (set_shuffles (JObject (own_set (ToString id) order members))) u in
  exists index1,
    resume_shuffle id index mine u = Some (u', Normal (index1, order)).
Proof.
  intros Hi Hs Hkey saved order u'.
  pose proof (not_inherited_not_proto _ Hkey) as Hproto.
  unfold resume_shuffle, resume_index, loadSeqIdx, loadShuffle.
  rewrite Hi, Hs. unfold GetComputed at 1 2. rewrite Hkey, !orb_true_r.
  fold saved. fold order.
  rewrite (saveShuffle_object u id order members Hs Hproto). fold u'.
  eexists. reflexivity.
Qed.

(** X4. A shuffle node with no recorded order records the order it holds
    the first time it is evaluated.  From then on, as long as the table of
    orders is what that evaluation left, the node uses the recorded order,
    whatever order it holds itself and whatever indices are recorded, and
    leaves the table as it is. *)
Theorem resume_shuffle_keeps_first_order (w : world)
  (id index optionsShuffled : value)
  (indices shuffles : list (string * value)) :
  SaveHack.sequenceIndices (Bitsy.saveHack (bitsy w)) = JObject indices ->
  SaveHack.shuffles (Bitsy.saveHack (bitsy w)) = JObject shuffles ->
  inherited_key (ToString id) = false ->
  ToBoolean (own_get (ToString id) shuffles) = false ->
  ToBoolean optionsShuffled = true ->
  exists w1 index1,
    resume_shuffle id index optionsShuffled w
    = Some (w1, Normal (index1, optionsShuffled))
    /\ loadShuffle id w1 = Some (Normal optionsShuffled)
    /\ SaveHack.sequenceIndices (Bitsy.saveHack (bitsy w1)) = JObject indices
    /\ forall u indices' index' reshuffled,
         SaveHack.shuffles (Bitsy.saveHack (bitsy u))
         = SaveHack.shuffles (Bitsy.saveHack (bitsy w1)) ->
         SaveHack.sequenceIndices (Bitsy.saveHack (bitsy u))
         = JObject indices' ->
         exists w2 index2,
           resume_shuffle id index' reshuffled u
           = Some (w2, Normal (index2, optionsShuffled))
           /\ SaveHack.shuffles (Bitsy.saveHack (bitsy w2))
              = SaveHack.shuffles (Bitsy.saveHack (bitsy w1)).
Proof.
  intros Hindices Hshuffles Hkey Hnone Htruthy.
  destruct (resume_shuffle_object w id index optionsShuffled indices shuffles
              Hindices Hshuffles Hkey) as (index1 & Hfirst).
  rewrite Hnone in Hfirst. cbv iota in Hfirst.
  eexists _, index1. split; [exact Hfirst|].
  unfold loadShuffle.
  cbn [bitsy with_bitsy set_shuffles set_saveHack Bitsy.saveHack
       SaveHack.sequenceIndices SaveHack.shuffles].
  split; [apply GetComputed_own_set_same|]. split; [exact Hindices|].
  intros u indices' index' reshuffled Hs Hi.
  destruct (resume_shuffle_object u id index' reshuffled indices' _ Hi Hs Hkey)
    as (index2 & Hsecond).
  rewrite own_get_own_set_same, Htruthy, own_set_own_set_same in Hsecond.
  eexists _, index2. split; [exact Hsecond | reflexivity].
Qed.

Section dialog_progress.
Context `{codec : JSON}.

(** The dialog progress after a [load] that ran to its end. *)
Lemma load_dialog_result (w : world) (text : string) (snapshot : value) :
  HackOptions.dialog (hackOptions w) = true ->
  localStorage w !! HackOptions.key (hackOptions w) = Some text ->
  text <> "" ->
  JSON_parse text = Some snapshot ->
  snd (load w) = Normal tt ->
  ToBoolean (field snapshot "sequenceIndices") = true ->
  Bitsy.saveHack (bitsy (fst (load w)))
  = {| SaveHack.sequenceIndices := field snapshot "sequenceIndices";
       SaveHack.shuffles := field snapshot "shuffles" |}.
Proof.
  intros Hd Hstored Hne Hparsed Hnormal Htruthy.
  rewrite load_eq, Hstored in *.
  destruct text as [|c text]; [contradiction|]. rewrite Hparsed in *.
  assert (Hnn : nullish snapshot = false).
  { destruct snapshot; try reflexivity; discriminate. }
  destruct (load_snapshot_normal snapshot w Hnormal) as (_ & _ & Hthird).
  destruct (load_snapshot_dialog snapshot w Hthird) as [Hdialog _].
  simpl in Hdialog. rewrite Hdialog, load_dialog_eq, Hd, Hnn. simpl.
  unfold restore_dialog. rewrite Htruthy. reflexivity.
Qed.

(** X5. Saving and loading again puts every node back where it was: when the
    dialog flag is on, the codec gives the snapshot back and [load] runs to
    its end, every sequence node reads the index and every shuffle node the
    order it read when the game was saved, whatever the dialog has done in
    between. *)
Theorem dialog_progress_survives_reload (w : world) (later : Bitsy.t) :
  let o := hackOptions w in
  let snapshot := JObject (build_snapshot o (bitsy w)) in
  HackOptions.dialog o = true ->
  ToBoolean (SaveHack.sequenceIndices (Bitsy.saveHack (bitsy w))) = true ->
  JSON_stringify snapshot <> "" ->
  JSON_parse (JSON_stringify snapshot) = Some snapshot ->
  let r := load (with_bitsy (fun _ => later) (fst (save w))) in
  snd r = Normal tt ->
  forall id,
    loadSeqIdx id (fst r) = loadSeqIdx id w
    /\ loadShuffle id (fst r) = loadShuffle id w.
Proof.
  intros o snapshot Hd Htruthy Hne Hparse r Hnormal id.
  set (w2 := with_bitsy (fun _ => later) (fst (save w))) in *.
  assert (Hstored :
    localStorage w2 !! HackOptions.key (hackOptions w2)
    = Some (JSON_stringify snapshot)).
  { subst w2. rewrite save_eq. simpl. apply lookup_insert_eq. }
  destruct (field_build_snapshot o (bitsy w)) as (_ & _ & _ & Hfd).
  destruct (Hfd Hd) as [Hfseq Hfsh]. fold snapshot in Hfseq, Hfsh.
  assert (Hsaved :
    Bitsy.saveHack (bitsy (fst r)) = Bitsy.saveHack (bitsy w)).
  { subst r.
    rewrite (load_dialog_result w2 (JSON_stringify snapshot) snapshot);
      try assumption; [|rewrite Hfseq; exact Htruthy].
    rewrite Hfseq, Hfsh. destruct (Bitsy.saveHack (bitsy w)). reflexivity. }
  unfold loadSeqIdx, loadShuffle. rewrite Hsaved. split; reflexivity.
Qed.

(** X6. [load] takes [shuffles] from the snapshot without a guard of its own:
    after a snapshot with a truthy [sequenceIndices] and no [shuffles] is
    loaded, every shuffle node that reads or records its order throws a
    [TypeError]. *)
Theorem load_without_shuffles_breaks_shuffle_nodes (w : world) (text : string)
  (snapshot : value) :
  HackOptions.dialog (hackOptions w) = true ->
  localStorage w !! HackOptions.key (hackOptions w) = Some text ->
  text <> "" ->
  JSON_parse text = Some snapshot ->
  snd (load w) = Normal tt ->
  ToBoolean (field snapshot "sequenceIndices") = true ->
  nullish (field snapshot "shuffles") = true ->
  forall id options,
    loadShuffle id (fst (load w)) = Some (Throw TypeError)
    /\ saveShuffle id options (fst (load w))
       = Some (fst (load w), Throw TypeError).
Proof.
  intros Hd Hstored Hne Hparsed Hnormal Htruthy Hmissing id options.
  pose proof (load_dialog_result w text snapshot Hd Hstored Hne Hparsed
                Hnormal Htruthy) as Hsaved.
  unfold loadShuffle, saveShuffle. rewrite Hsaved. simpl.
  destruct (field snapshot "shuffles"); try discriminate; split; reflexivity.
Qed.

End dialog_progress.

(** ** [load] on what it finds stored *)

Section stored_text.
Context `{codec : JSON}.

(** X7. What [load] does with a text it cannot use.  An empty string counts as
    no snapshot.  A text that does not parse ends [load] by a [SyntaxError],
    and a text that parses to [null] by a [TypeError] at the first field
    read, unless every flag is off; in each case nothing has been written. *)
Theorem load_on_unusable_text (w : world) (text : string) :
  localStorage w !! HackOptions.key (hackOptions w) = Some text ->
  let o := hackOptions w in
  (text = "" -> load w = (w, Normal tt))
  /\ (text <> "" -> JSON_parse text = None -> load w = (w, Throw SyntaxError))
  /\ (forall snapshot,
        text <> "" -> JSON_parse text = Some snapshot ->
        nullish snapshot = true ->
        load w =
        (w, if HackOptions.position o || HackOptions.items o
               || HackOptions.variables o || HackOptions.dialog o
            then Throw TypeError else Normal tt)).
Proof.
  intros Hstored o. rewrite load_eq, Hstored.
  split; [intros ->; reflexivity|].
  split.
  - intros Hne Hbad. destruct text; [contradiction|]. rewrite Hbad.
    reflexivity.
  - intros snapshot Hne Hparsed Hnull. destruct text; [contradiction|].
    rewrite Hparsed. unfold load_snapshot, bind.
    rewrite load_position_eq. fold o.
    destruct (HackOptions.position o); simpl; rewrite ?Hnull; [reflexivity|].
    rewrite load_items_eq. fold o.
    destruct (HackOptions.items o); simpl; rewrite ?Hnull; [reflexivity|].
    rewrite load_variables_eq. fold o.
    destruct (HackOptions.variables o); simpl; rewrite ?Hnull; [reflexivity|].
    rewrite load_dialog_eq. fold o.
    destruct (HackOptions.dialog o); simpl; rewrite ?Hnull; reflexivity.
Qed.



End stored_text.

(** ** What [load] never removes *)

#[local] Instance keeps_names_preorder : PreOrder keeps_names.
Proof.
  split.
  - intros w. split; [reflexivity|]. exists []. rewrite app_nil_r. reflexivity.
  - intros w1 w2 w3 [Hr12 [a12 Hv12]] [Hr23 [a23 Hv23]].
    split; [congruence|]. exists (a12 ++ a23).
    rewrite Hv23, Hv12, app_assoc. reflexivity.
Qed.

Lemma set_room_items_ids (id : string) (its : value)
  (rooms : list (string * value)) :
  map fst (Bitsy.set_room_items id its rooms) = map fst rooms.
Proof.
  induction rooms as [|[k old] rooms IH]; simpl; [reflexivity|].
  destruct (String.eqb k id); simpl; [reflexivity|]. rewrite IH. reflexivity.
Qed.

Lemma SetVariable_names (name v : value) (vars : list (value * value)) :
  exists added,
    Bitsy.GetVariableNames (Bitsy.SetVariable name v vars)
    = Bitsy.GetVariableNames vars ++ added.
Proof.
  unfold Bitsy.GetVariableNames.
  induction vars as [|[k u] vars [added IH]]; simpl.
  - exists [name]. reflexivity.
  - destruct (SameValueZero k name); simpl.
    + exists []. rewrite app_nil_r. reflexivity.
    + exists added. rewrite IH. reflexivity.
Qed.

Lemma keeps_names_with_bitsy (h : Bitsy.t -> Bitsy.t) :
  (forall b,
     map fst (Bitsy.room (h b)) = map fst (Bitsy.room b)
     /\ exists added,
          Bitsy.GetVariableNames (Bitsy.variable (h b))
          = Bitsy.GetVariableNames (Bitsy.variable b) ++ added) ->
  preserves keeps_names (modify (with_bitsy h)).
Proof. intros Hh w. apply Hh. Qed.

Ltac names_kept :=
  apply keeps_names_with_bitsy; intros ?; simpl; split;
  [ first [reflexivity | apply set_room_items_ids]
  | first [ apply SetVariable_names
          | exists []; rewrite app_nil_r; reflexivity ] ].

Lemma load_snapshot_keeps_names (snapshot : value) :
  preserves keeps_names (load_snapshot snapshot).
Proof.
  unfold load_snapshot, load_position, load_items, load_variables, load_dialog,
    load_item, load_variable.
  repeat frame_step; names_kept.
Qed.

Section never_removed.
Context `{codec : JSON}.

(** X9. Whatever is stored and however [load] ends, the engine has the same
    rooms after it as before, and every dialog variable of before is still
    there, in its place: [load] only adds variables, at the end. *)
Theorem load_keeps_rooms_and_variables (w : world) :
  map fst (Bitsy.room (bitsy (fst (load w))))
  = map fst (Bitsy.room (bitsy w))
  /\ exists added,
       Bitsy.GetVariableNames (Bitsy.variable (bitsy (fst (load w))))
       = Bitsy.GetVariableNames (Bitsy.variable (bitsy w)) ++ added.
Proof.
  change (keeps_names w (fst (load w))). rewrite load_eq.
  destruct (localStorage w !! _) as [[|c text]|]; try reflexivity.
  destruct (JSON_parse _) as [snapshot|]; [|reflexivity].
  apply load_snapshot_keeps_names.
Qed.

End never_removed.

Lemma forEach_load_variable_other (name : value) (entries : list value)
  (w : world) :
  Forall (fun entry => SameValueZero (index entry 0) name = false) entries ->
  Bitsy.GetVariable name
    (Bitsy.variable (bitsy (fst (forEach load_variable entries w))))
  = Bitsy.GetVariable name (Bitsy.variable (bitsy w)).
Proof.
  revert w. induction entries as [|e entries IH]; intros w Hall; simpl.
  - reflexivity.
  - apply Forall_cons in Hall. destruct Hall as [He Hall].
    unfold bind. rewrite load_variable_eq, !GetIndex_index.
    destruct (nullish e); [reflexivity|].
    rewrite IH by exact Hall. simpl.
    apply GetVariable_SetVariable_other. exact He.
Qed.

(** The variables after [load]: those of before, when an earlier block
    threw, and those the [variables] block leaves otherwise. *)
Lemma load_snapshot_variables_cases (snapshot : value) (w : world) :
  Bitsy.variable (bitsy (fst (load_snapshot snapshot w)))
  = Bitsy.variable (bitsy w)
  \/ Bitsy.variable (bitsy (fst (load_snapshot snapshot w)))
     = Bitsy.variable (bitsy (fst (load_variables snapshot w))).
Proof.
  destruct (load_blocks_completion [Position; Items] snapshot w)
    as [Hnormal|Hthrow].
  - right. destruct (load_snapshot_variables snapshot w Hnormal) as [Hv _].
    exact Hv.
  - left. rewrite load_snapshot_blocks.
    change [Position; Items; Variables; Dialog]
      with ([Position; Items] ++ [Variables; Dialog]).
    rewrite load_blocks_app.
    pose proof (load_blocks_frame Variables [Position; Items] snapshot w)
      as Hframe.
    destruct (load_blocks [Position; Items] snapshot w) as [w2 c2].
    simpl in Hthrow. subst c2. simpl. apply Hframe. not_in_flags.
Qed.

Section stale_variables.
Context `{codec : JSON}.

(** X10. A dialog variable that the snapshot does not name keeps its value:
    what the game has set since the snapshot was saved survives the load,
    whatever else is stored and however [load] ends. *)
Theorem load_leaves_unnamed_variables (w : world) (text : string)
  (snapshot : value) (entries : list value) (name : value) :
  localStorage w !! HackOptions.key (hackOptions w) = Some text ->
  JSON_parse text = Some snapshot ->
  field snapshot "variables" = JArray entries ->
  Forall (fun entry => SameValueZero (index entry 0) name = false) entries ->
  Bitsy.GetVariable name (Bitsy.variable (bitsy (fst (load w))))
  = Bitsy.GetVariable name (Bitsy.variable (bitsy w)).
Proof.
  intros Hstored Hparsed Hvars Hall. rewrite load_eq, Hstored.
  destruct text as [|c text]; [reflexivity|]. rewrite Hparsed.
  destruct (load_snapshot_variables_cases snapshot w) as [Hv|Hv]; rewrite Hv;
    [reflexivity|].
  rewrite load_variables_eq.
  destruct (negb _); [reflexivity|].
  destruct (nullish snapshot); [reflexivity|].
  rewrite Hvars. simpl.
  apply forEach_load_variable_other. exact Hall.
Qed.

End stale_variables.

(** ** The [load] tag *)

Lemma same_parts_eq (b1 b2 : Bitsy.t) :
  (forall g, same_part g b1 b2) ->
  Bitsy.isEnding b2 = Bitsy.isEnding b1 ->
  b2 = b1.
Proof.
  intros Hparts Hending.
  pose proof (Hparts Position) as (H1 & H2 & H3 & H4).
  pose proof (Hparts Items) as (H5 & H6).
  pose proof (Hparts Variables) as H7. pose proof (Hparts Dialog) as H8.
  destruct b1 as [c1 [r1 x1 y1 i1] rs1 v1 s1 e1],
    b2 as [c2 [r2 x2 y2 i2] rs2 v2 s2 e2].
  simpl in *. congruence.
Qed.

(** What the blocks of [load] do is decided by the flags and the engine
    state. *)
Lemma load_blocks_congruent (gs : list flag) (snapshot : value)
  (w1 w2 : world) :
  (forall g, enabled g (hackOptions w1) = enabled g (hackOptions w2)) ->
  bitsy w1 = bitsy w2 ->
  snd (load_blocks gs snapshot w1) = snd (load_blocks gs snapshot w2)
  /\ bitsy (fst (load_blocks gs snapshot w1))
     = bitsy (fst (load_blocks gs snapshot w2)).
Proof.
  revert w1 w2. induction gs as [|g gs IH]; intros w1 w2 Hflags Hb;
    [simpl; auto|].
  simpl. unfold bind.
  pose proof (load_block_touches g snapshot w1) as ((Ho1 & _) & He1 & Hp1).
  pose proof (load_block_touches g snapshot w2) as ((Ho2 & _) & He2 & Hp2).
  destruct (load_block_deterministic g snapshot w1 w2 (Hflags g)) as [Hc Hs];
    [rewrite Hb; reflexivity|].
  assert (Hb' : bitsy (fst (load_block g snapshot w1))
                = bitsy (fst (load_block g snapshot w2))).
  { symmetry. apply same_parts_eq; [|congruence].
    intros g'. destruct (decide (g' = g)) as [->|Hne]; [exact Hs|].
    etransitivity; [symmetry; apply Hp1; exact Hne|].
    rewrite Hb. apply Hp2. exact Hne. }
  destruct (load_block g snapshot w1) as [w1' c1],
    (load_block g snapshot w2) as [w2' c2]; simpl in *. subst c2.
  destruct c1 as [[]|e]; [|auto].
  apply IH; [|exact Hb']. intros g'. rewrite Ho1, Ho2. apply Hflags.
Qed.

Section load_tag.
Context `{codec : JSON}.

(** [load] reads the four flags, the key, the storage and the engine state,
    and nothing else of the world. *)
Lemma load_congruent (w1 w2 : world) :
  (forall g, enabled g (hackOptions w1) = enabled g (hackOptions w2)) ->
  HackOptions.key (hackOptions w1) = HackOptions.key (hackOptions w2) ->
  localStorage w1 = localStorage w2 ->
  bitsy w1 = bitsy w2 ->
  snd (load w1) = snd (load w2)
  /\ bitsy (fst (load w1)) = bitsy (fst (load w2)).
Proof.
  intros Hflags Hkey Hst Hb. rewrite !load_eq, Hkey, Hst.
  destruct (localStorage w2 !! _) as [[|c text]|]; auto.
  destruct (JSON_parse _) as [snapshot|]; [|auto].
  rewrite !load_snapshot_blocks. apply load_blocks_congruent; assumption.
Qed.

(** The world in which the [load] of the tag runs. *)
Lemma dialogLoad_eq (fresh : Bitsy.t) (parameters : list value) (w : world) :
  exists ready,
    (forall g, enabled g (hackOptions ready) = enabled g (hackOptions w))
    /\ hackOptions ready = HackOptions.set_loadOnStart true (hackOptions w)
    /\ localStorage ready = localStorage (after_reset fresh w)
    /\ bitsy ready = bitsy (after_reset fresh w)
    /\ calls ready = calls w
    /\ dialogLoad fresh parameters w =
       match load ready with
       | (w', Normal _) =>
           (with_call (startNarrating (load_title parameters))
              (with_call EndDialog
                 (with_hackOptions
                    (HackOptions.set_loadOnStart
                       (HackOptions.loadOnStart (hackOptions w))) w')),
            Normal tt)
       | (w', Throw e) => (w', Throw e)
       end.
Proof.
  unfold dialogLoad, reset_cur_game, onready, bind, gets, modify.
  cbn [fst snd].
  rewrite before_reset_cur_game_eq. unfold reload_game, modify.
  rewrite onready_autosave_eq.
  unfold onready_autoload, bind, gets, when, after_reset.
  cbn [fst snd hackOptions bitsy with_hackOptions with_bitsy
       with_localStorage HackOptions.set_loadOnStart
       HackOptions.clearOnEnd HackOptions.autosaveInterval
       HackOptions.key HackOptions.loadOnStart].
  destruct (HackOptions.clearOnEnd (hackOptions w) && Bitsy.isEnding (bitsy w));
    cbn [fst snd hackOptions bitsy with_hackOptions with_bitsy
         with_localStorage HackOptions.set_loadOnStart
         HackOptions.autosaveInterval HackOptions.loadOnStart];
    destruct (lt_Infinity (HackOptions.autosaveInterval (hackOptions w)));
    cbn [fst snd hackOptions bitsy with_hackOptions with_bitsy
         with_localStorage HackOptions.set_loadOnStart
         HackOptions.loadOnStart];
    match goal with
    | |- context [load ?r] =>
        exists r; repeat (split; [try reflexivity; intros []; reflexivity|]);
        destruct (load r) as [w' [[]|e]]; reflexivity
    end.
Qed.

(** X11. The [load] tag loads whether [loadOnStart] is on or off.  When it runs
    to its end, the engine is what [load] makes of the freshly reset game
    (with the snapshot gone if the [clearOnEnd] hook removed it),
    [hackOptions] are what they were, and the dialog is ended and the title
    narrated, an empty title standing for a missing or falsy parameter. *)
Theorem load_tag_loads_whatever_loadOnStart (fresh : Bitsy.t)
  (parameters : list value) (w : world) :
  let r := dialogLoad fresh parameters w in
  snd r = Normal tt ->
  hackOptions (fst r) = hackOptions w
  /\ snd (load (after_reset fresh w)) = Normal tt
  /\ bitsy (fst r) = bitsy (fst (load (after_reset fresh w)))
  /\ calls (fst r)
     = calls w ++ [EndDialog; startNarrating (load_title parameters)].
Proof.
  intros r Hnormal. subst r.
  destruct (dialogLoad_eq fresh parameters w)
    as (ready & Hflags & Ho & Hst & Hb & Hcalls & Heq).
  rewrite Heq in *. clear Heq.
  destruct (load_congruent ready (after_reset fresh w)) as [Hc Hbitsy];
    [ intros g; rewrite Hflags; unfold after_reset;
      destruct (_ && _); reflexivity
    | rewrite Ho; unfold after_reset; destruct (_ && _); reflexivity
    | exact Hst | exact Hb |].
  pose proof (load_same_host ready) as (Ho' & _ & _ & _ & _ & Hcalls').
  destruct (load ready) as [w' [[]|e]]; simpl in *; [|discriminate].
  split.
  { rewrite Ho', Ho. destruct (hackOptions w). reflexivity. }
  split; [symmetry; exact Hc|]. split; [exact Hbitsy|].
  rewrite Hcalls', Hcalls, <- app_assoc. reflexivity.
Qed.

(** X12. [dialogLoad] switches [loadOnStart] on around the reset and has no
    handler for an exception: when the [load] of the tag throws, the option
    stays on, whatever it was, and the dialog is neither ended nor a title
    narrated. *)
Theorem load_tag_failure_leaves_loadOnStart_on (fresh : Bitsy.t)
  (parameters : list value) (w : world) (e : error) :
  let r := dialogLoad fresh parameters w in
  snd r = Throw e ->
  HackOptions.loadOnStart (hackOptions (fst r)) = true
  /\ snd (load (after_reset fresh w)) = Throw e
  /\ calls (fst r) = calls w.
Proof.
  intros r Hthrow. subst r.
  destruct (dialogLoad_eq fresh parameters w)
    as (ready & Hflags & Ho & Hst & Hb & Hcalls & Heq).
  rewrite Heq in *. clear Heq.
  destruct (load_congruent ready (after_reset fresh w)) as [Hc _];
    [ intros g; rewrite Hflags; unfold after_reset;
      destruct (_ && _); reflexivity
    | rewrite Ho; unfold after_reset; destruct (_ && _); reflexivity
    | exact Hst | exact Hb |].
  pose proof (load_same_host ready) as (Ho' & _ & _ & _ & _ & Hcalls').
  destruct (load ready) as [w' [[]|e']]; simpl in *; [discriminate|].
  injection Hthrow as ->.
  split; [rewrite Ho', Ho; reflexivity|].
  split; [symmetry; exact Hc | congruence].
Qed.

End load_tag.

(** ** The autosave timer *)

Lemma one_timer_same (w w' : world) :
  autosaveInterval w' = autosaveInterval w ->
  intervals w' = intervals w ->
  one_timer w -> one_timer w'.
Proof. unfold one_timer. intros -> ->. auto. Qed.

Lemma onready_autosave_keeps_one_timer (w : world) :
  one_timer w -> one_timer (fst (onready_autosave w)).
Proof.
  intros Hone. rewrite onready_autosave_eq.
  destruct (lt_Infinity _); [|exact Hone]. simpl.
  right. exists (next_interval w), (HackOptions.autosaveInterval (hackOptions w)).
  split; [reflexivity|]. simpl.
  destruct Hone as [[-> ->]|(id & d & -> & ->)]; [reflexivity|].
  rewrite filter_cons. simpl.
  destruct (decide (id <> id)) as [Hne|_]; [contradiction | reflexivity].
Qed.

Section autosave_timer.
Context `{codec : JSON}.

Lemma onready_keeps_one_timer : preserves (keeps one_timer) onready.
Proof.
  intros w Hone. unfold onready, bind.
  pose proof (onready_autosave_keeps_one_timer w Hone) as Hready.
  rewrite onready_autosave_eq in *. simpl in *.
  unfold onready_autoload, bind, gets, when. simpl.
  match goal with
  | |- context [HackOptions.loadOnStart ?o] =>
      destruct (HackOptions.loadOnStart o)
  end; [|exact Hready].
  match goal with
  | |- context [load ?r] =>
      pose proof (load_same_host r) as (_ & _ & Hvar & Hints & _)
  end.
  eapply one_timer_same; [exact Hvar | exact Hints | exact Hready].
Qed.

Lemma reset_cur_game_keeps_one_timer (fresh : Bitsy.t) :
  preserves (keeps one_timer) (reset_cur_game fresh).
Proof.
  intros w Hone. unfold reset_cur_game, bind.
  rewrite before_reset_cur_game_eq. unfold reload_game, modify.
  match goal with
  | |- context [onready ?w1] =>
      pose proof (onready_keeps_one_timer w1) as Hready;
      destruct (onready w1) as [w2 c2]
  end.
  simpl in *. apply Hready.
  eapply one_timer_same; [| |exact Hone]; destruct (_ && _); reflexivity.
Qed.

Lemma startExportedGame_keeps_one_timer (fresh : Bitsy.t) :
  preserves (keeps one_timer) (startExportedGame fresh).
Proof.
  intros w Hone. unfold startExportedGame, bind.
  rewrite before_startExportedGame_eq. unfold reload_game, modify.
  match goal with
  | |- context [onready ?w1] =>
      pose proof (onready_keeps_one_timer w1) as Hready;
      destruct (onready w1) as [w2 c2]
  end.
  simpl in *. apply Hready.
  eapply one_timer_same; [| |exact Hone];
    destruct (HackOptions.clearOnStart _); reflexivity.
Qed.

Lemma dialogLoad_keeps_one_timer (fresh : Bitsy.t) (parameters : list value) :
  preserves (keeps one_timer) (dialogLoad fresh parameters).
Proof.
  intros w Hone. unfold dialogLoad, bind, gets, modify. simpl.
  match goal with
  | |- context [reset_cur_game fresh ?w1] =>
      pose proof (reset_cur_game_keeps_one_timer fresh w1) as Hreset;
      destruct (reset_cur_game fresh w1) as [w2 [[]|e]]
  end; simpl in *.
  - eapply one_timer_same; [| |apply Hreset]; [reflexivity | reflexivity |].
    eapply one_timer_same; [| |exact Hone]; reflexivity.
  - apply Hreset. eapply one_timer_same; [| |exact Hone]; reflexivity.
Qed.

Lemma handle_keeps_one_timer (e : event) :
  preserves (keeps one_timer) (handle e).
Proof.
  destruct e; simpl.
  - intros w Hone. exact Hone.
  - apply dialogLoad_keeps_one_timer.
  - intros w Hone. exact Hone.
  - apply reset_cur_game_keeps_one_timer.
  - apply startExportedGame_keeps_one_timer.
  - intros w Hone. unfold fire_interval, bind, gets. simpl.
    destruct (interval_callback id w) as [[]|]; exact Hone.
  - intros w Hone. exact Hone.
Qed.

(** X13. The [onready] hook clears the timer it installed before it installs a
    new one: from a page with no timer, whatever tags, resets, starts and
    timer ticks follow, there is never more than one autosave timer, and
    the variable [autosaveInterval] names it. *)
Theorem one_autosave_timer (es : list event) (w : world) :
  autosaveInterval w = None ->
  intervals w = [] ->
  let w' := run es w in
  (length (intervals w') <= 1)%nat
  /\ forall id cb d,
       In (id, (cb, d)) (intervals w') ->
       autosaveInterval w' = Some id /\ cb = cb_save.
Proof.
  intros Hvar Hnone w'.
  assert (Hone : one_timer w') .
  { subst w'. assert (H0 : one_timer w) by (left; auto).
    clear Hvar Hnone. revert w H0.
    induction es as [|e es IH]; intros w H0; simpl; [exact H0|].
    apply IH. apply handle_keeps_one_timer. exact H0. }
  destruct Hone as [[Hv Hi]|(id & d & Hv & Hi)]; rewrite Hi; simpl.
  - split; [lia | contradiction].
  - split; [lia|]. intros id' cb d' [[= <- <- <-]|[]]. auto.
Qed.

(** With nothing stored, [onready] installs the timer at most. *)
Lemma onready_without_snapshot (w : world) :
  localStorage w !! HackOptions.key (hackOptions w) = None ->
  snd (onready w) = Normal tt
  /\ bitsy (fst (onready w)) = bitsy w
  /\ localStorage (fst (onready w)) = localStorage w.
Proof.
  intros Hnone. unfold onready, bind. rewrite onready_autosave_eq.
  set (w1 := if lt_Infinity _ then _ else w).
  assert (H1 : hackOptions w1 = hackOptions w /\ bitsy w1 = bitsy w
               /\ localStorage w1 = localStorage w).
  { subst w1. destruct (lt_Infinity _); auto. }
  destruct H1 as (Ho & Hb & Hst). cbn [fst snd].
  unfold onready_autoload, bind, gets, when. cbn [fst snd]. rewrite Ho.
  destruct (HackOptions.loadOnStart (hackOptions w)); [|auto].
  rewrite load_eq, Ho, Hst, Hnone. auto.
Qed.

(** X14. Both clear hooks run before the autoload of the same reset or start.
    With [clearOnStart] on, the start of the game removes the snapshot and
    then loads nothing: the game starts fresh.  With [clearOnEnd] on, the
    same holds for a reset after an ending, and for the [load] tag used
    after an ending, which resets the game without loading anything. *)
Theorem clear_hooks_run_before_autoload (fresh : Bitsy.t)
  (parameters : list value) (w : world) :
  let o := hackOptions w in
  let fresh_game := set_saveHack (Bitsy.saveHack (bitsy w)) fresh in
  (HackOptions.clearOnStart o = true ->
   let r := startExportedGame fresh w in
   snd r = Normal tt /\ bitsy (fst r) = fresh_game
   /\ localStorage (fst r) !! HackOptions.key o = None)
  /\ (HackOptions.clearOnEnd o = true -> Bitsy.isEnding (bitsy w) = true ->
      (let r := reset_cur_game fresh w in
       snd r = Normal tt /\ bitsy (fst r) = fresh_game
       /\ localStorage (fst r) !! HackOptions.key o = None)
      /\ (let r := dialogLoad fresh parameters w in
          snd r = Normal tt /\ bitsy (fst r) = fresh_game
          /\ localStorage (fst r) !! HackOptions.key o = None)).
Proof.
  intros o fresh_game.
  set (cleared :=
         with_bitsy (fun b => set_saveHack (Bitsy.saveHack b) fresh)
           (with_localStorage (fun st => delete (HackOptions.key o) st) w)).
  assert (Hgone : localStorage cleared !! HackOptions.key (hackOptions cleared)
                  = None) by apply lookup_delete_eq.
  destruct (onready_without_snapshot cleared Hgone) as (Hc & Hb & Hst).
  split.
  - intros Hstart r. subst r.
    unfold startExportedGame, bind.
    rewrite before_startExportedGame_eq. fold o. rewrite Hstart.
    unfold reload_game, modify. cbn [fst snd]. fold cleared.
    destruct (onready cleared) as [w' c]. simpl in *.
    split; [exact Hc|]. split; [exact Hb|]. rewrite Hst. exact Hgone.
  - intros Hend Hending. split.
    + intros r. subst r.
      unfold reset_cur_game, bind.
      rewrite before_reset_cur_game_eq. fold o. rewrite Hend, Hending.
      unfold reload_game, modify. cbn [fst snd andb]. fold cleared.
      destruct (onready cleared) as [w' c]. simpl in *.
      split; [exact Hc|]. split; [exact Hb|]. rewrite Hst. exact Hgone.
    + intros r. subst r.
      destruct (dialogLoad_eq fresh parameters w)
        as (ready & _ & Ho & Hst' & Hb' & _ & Heq).
      rewrite Heq. clear Heq.
      unfold after_reset in Hst', Hb'. fold o in Hst', Hb'.
      rewrite Hend, Hending in Hst', Hb'. simpl in Hst', Hb'.
      assert (Hload : load ready = (ready, Normal tt)).
      { rewrite load_eq, Ho, Hst'. simpl. fold o.
        rewrite lookup_delete_eq. reflexivity. }
      rewrite Hload. simpl. split; [reflexivity|]. split; [exact Hb'|].
      rewrite Hst'. apply lookup_delete_eq.
Qed.

End autosave_timer.

(** ** The further statements at the sample worlds *)

Lemma saveSeqIdx_then_loadSeqIdx_witness :
  let w := world_of HackOptions.default game_later ∅ in
  SaveHack.sequenceIndices (Bitsy.saveHack (bitsy w))
  = JObject [("12", JNumber (Finite 2))]
  /\ (exists w', saveSeqIdx (JString "7") (JNumber (Finite 3)) w
                 = Some (w', Normal tt)
                 /\ loadSeqIdx (JString "7") w' = Some (Normal (JNumber (Finite 3)))
                 /\ loadSeqIdx (JString "12") w'
                    = Some (Normal (JNumber (Finite 2)))).
Proof.
  intros w. split; [reflexivity|].
  assert (Hkey : ToString (JString "7") <> "__proto__") by discriminate.
  destruct (saveSeqIdx_then_loadSeqIdx w (JString "7") (JNumber (Finite 3))
              [("12", JNumber (Finite 2))] eq_refl Hkey)
    as (Hsave & Hload & Hother & _).
  eexists. split; [exact Hsave|]. split; [exact Hload|].
  rewrite Hother; [reflexivity | discriminate].
Defined.

Lemma saveShuffle_then_loadShuffle_witness :
  let w := world_of HackOptions.default game_start ∅ in
  let order := JArray [JNumber (Finite 1); JNumber (Finite 0)] in
  SaveHack.shuffles (Bitsy.saveHack (bitsy w)) = JObject []
  /\ (exists w', saveShuffle (JString "13") order w = Some (w', Normal tt)
                 /\ loadShuffle (JString "13") w' = Some (Normal order)).
Proof.
  intros w order. split; [reflexivity|].
  assert (Hkey : ToString (JString "13") <> "__proto__") by discriminate.
  destruct (saveShuffle_then_loadShuffle w (JString "13") order [] eq_refl
              Hkey)
    as (Hsave & Hload & _).
  eexists. split; [exact Hsave | exact Hload].
Defined.

Lemma resume_index_uses_recorded_index_witness :
  let w := world_of HackOptions.default game_later ∅ in
  SaveHack.sequenceIndices (Bitsy.saveHack (bitsy w))
  = JObject [("12", JNumber (Finite 2))]
  /\ resume_index (JString "7") (JNumber (Finite 0)) w
     = Some (Normal (JNumber (Finite 0)))
  /\ (exists w', saveSeqIdx (JString "7") (JNumber (Finite 3)) w
                 = Some (w', Normal tt)
                 /\ resume_index (JString "7") (JNumber (Finite 0)) w'
                    = Some (Normal (JNumber (Finite 3)))).
Proof.
  intros w. split; [reflexivity|].
  destruct (resume_index_uses_recorded_index w (JString "7")
              (JNumber (Finite 0)) (JNumber (Finite 3))
              [("12", JNumber (Finite 2))] eq_refl eq_refl)
    as [Hkeep Hresume].
  split; [apply Hkeep; reflexivity|].
  apply Hresume. discriminate.
Defined.

Lemma resume_shuffle_keeps_first_order_witness :
  let w := world_of HackOptions.default game_start ∅ in
  let order := JArray [JNumber (Finite 1); JNumber (Finite 0)] in
  let other := JArray [JNumber (Finite 0); JNumber (Finite 1)] in
  ToBoolean order = true
  /\ (exists w1 index1,
        resume_shuffle (JString "13") (JNumber (Finite 0)) order w
        = Some (w1, Normal (index1, order))
        /\ exists w2 index2,
             resume_shuffle (JString "13") (JNumber (Finite 1)) other w1
             = Some (w2, Normal (index2, order))).
Proof.
  intros w order other. split; [reflexivity|].
  destruct (resume_shuffle_keeps_first_order w (JString "13")
              (JNumber (Finite 0)) order [] [] eq_refl eq_refl eq_refl eq_refl
              eq_refl)
    as (w1 & index1 & Hfirst & _ & Hseq & Hlater).
  exists w1, index1. split; [exact Hfirst|].
  destruct (Hlater w1 [] (JNumber (Finite 1)) other eq_refl Hseq)
    as (w2 & index2 & Hsecond & _).
  exists w2, index2. exact Hsecond.
Defined.

Lemma dialog_progress_survives_reload_witness :
  let w := world_of HackOptions.default game_later ∅ in
  let r := @load JsonText.codec
             (with_bitsy (fun _ => game_start)
                (fst (@save JsonText.codec w))) in
  snd r = Normal tt
  /\ loadSeqIdx (JString "12") (fst r) = Some (Normal (JNumber (Finite 2))).
Proof.
  intros w r.
  assert (Hnormal : snd r = Normal tt) by (vm_compute; reflexivity).
  assert (Hne : text_of (JObject (build_snapshot (hackOptions w) (bitsy w)))
                <> "") by (vm_compute; discriminate).
  assert (Hparse :
    JsonText.parse
      (text_of (JObject (build_snapshot (hackOptions w) (bitsy w))))
    = Some (JObject (build_snapshot (hackOptions w) (bitsy w))))
    by (vm_compute; reflexivity).
  split; [exact Hnormal|].
  destruct (@dialog_progress_survives_reload JsonText.codec w game_start
              eq_refl eq_refl Hne Hparse Hnormal (JString "12")) as [Hseq _].
  exact (eq_trans Hseq eq_refl).
Defined.

Lemma load_without_shuffles_breaks_shuffle_nodes_witness :
  let text := text_of mistyped_snapshot in
  let w := world_of HackOptions.default game_start {[ "snapshot" := text ]} in
  snd (@load JsonText.codec w) = Normal tt
  /\ nullish (field mistyped_snapshot "shuffles") = true
  /\ loadShuffle (JString "13") (fst (@load JsonText.codec w))
     = Some (Throw TypeError).
Proof.
  intros text w.
  assert (Hnormal : snd (@load JsonText.codec w) = Normal tt)
    by (vm_compute; reflexivity).
  assert (Hstored :
    localStorage w !! HackOptions.key (hackOptions w) = Some text)
    by (vm_compute; reflexivity).
  assert (Hne : text <> "") by (vm_compute; discriminate).
  assert (Hparsed : JsonText.parse text = Some mistyped_snapshot)
    by (vm_compute; reflexivity).
  split; [exact Hnormal|]. split; [reflexivity|].
  destruct (@load_without_shuffles_breaks_shuffle_nodes JsonText.codec w text
              mistyped_snapshot eq_refl Hstored Hne Hparsed Hnormal
              eq_refl eq_refl (JString "13") JNull) as [Hload _].
  exact Hload.
Defined.

Lemma load_on_unusable_text_witness :
  let broken := world_of HackOptions.default game_start {[ "snapshot" := "{" ]} in
  let null := world_of HackOptions.default game_start {[ "snapshot" := "null" ]} in
  JsonText.parse "{" = None
  /\ @load JsonText.codec broken = (broken, Throw SyntaxError)
  /\ JsonText.parse "null" = Some JNull
  /\ @load JsonText.codec null = (null, Throw TypeError).
Proof.
  intros broken null.
  assert (Hbad : JsonText.parse "{" = None) by (vm_compute; reflexivity).
  assert (Hnull : JsonText.parse "null" = Some JNull)
    by (vm_compute; reflexivity).
  destruct (@load_on_unusable_text JsonText.codec broken "{" eq_refl)
    as (_ & Hsyntax & _).
  destruct (@load_on_unusable_text JsonText.codec null "null" eq_refl)
    as (_ & _ & Htype).
  split; [exact Hbad|].
  split; [apply Hsyntax; [discriminate | exact Hbad]|].
  split; [exact Hnull|].
  apply (Htype JNull); [discriminate | exact Hnull | reflexivity].
Defined.


Lemma load_leaves_unnamed_variables_witness :
  let snapshot := JObject (build_snapshot HackOptions.default game_start) in
  let text := text_of snapshot in
  let w := world_of HackOptions.default game_later {[ "snapshot" := text ]} in
  JsonText.parse text = Some snapshot
  /\ Bitsy.GetVariable (JString "met") (Bitsy.variable (bitsy w)) = JBool true
  /\ Bitsy.GetVariable (JString "met")
       (Bitsy.variable (bitsy (fst (@load JsonText.codec w))))
     = JBool true.
Proof.
  intros snapshot text w.
  assert (Hstored :
    localStorage w !! HackOptions.key (hackOptions w) = Some text)
    by (vm_compute; reflexivity).
  assert (Hparsed : JsonText.parse text = Some snapshot)
    by (vm_compute; reflexivity).
  split; [exact Hparsed|]. split; [reflexivity|].
  rewrite (@load_leaves_unnamed_variables JsonText.codec w text snapshot
             [JArray [JString "a"; JNumber (Finite 42)]] (JString "met")
             Hstored Hparsed eq_refl);
    [reflexivity | repeat constructor].
Defined.

Lemma load_tag_loads_whatever_loadOnStart_witness :
  let snapshot := JObject (build_snapshot HackOptions.default game_later) in
  let w := world_of no_load_on_start game_later
             {[ "snapshot" := text_of snapshot ]} in
  let r := @dialogLoad JsonText.codec game_start [] w in
  HackOptions.loadOnStart (hackOptions w) = false
  /\ snd r = Normal tt
  /\ hackOptions (fst r) = hackOptions w
  /\ Bitsy.curRoom (bitsy (fst r)) = JString "1"
  /\ calls (fst r) = [EndDialog; startNarrating (JString "")].
Proof.
  intros snapshot w r.
  assert (Hnormal : snd r = Normal tt) by (vm_compute; reflexivity).
  destruct (@load_tag_loads_whatever_loadOnStart JsonText.codec game_start []
              w Hnormal) as (Ho & _ & Hb & Hcalls).
  split; [reflexivity|]. split; [exact Hnormal|]. split; [exact Ho|].
  split; [|exact Hcalls].
  fold r in Hb. rewrite Hb. vm_compute. reflexivity.
Defined.

Lemma load_tag_failure_leaves_loadOnStart_on_witness :
  let w := world_of no_load_on_start game_later
             {[ "snapshot" := text_of unchecked_snapshot ]} in
  let r := @dialogLoad JsonText.codec game_start [] w in
  HackOptions.loadOnStart (hackOptions w) = false
  /\ snd r = Throw TypeError
  /\ HackOptions.loadOnStart (hackOptions (fst r)) = true
  /\ calls (fst r) = [].
Proof.
  intros w r.
  assert (Hthrow : snd r = Throw TypeError) by (vm_compute; reflexivity).
  destruct (@load_tag_failure_leaves_loadOnStart_on JsonText.codec game_start
              [] w TypeError Hthrow) as (Hon & _ & Hcalls).
  split; [reflexivity|]. split; [exact Hthrow|].
  split; [exact Hon | exact Hcalls].
Defined.

Lemma one_autosave_timer_witness :
  let w := world_of autosave_5s game_start ∅ in
  let es := [engine_startExportedGame game_start; timer 0;
             engine_reset_cur_game game_start; tag_load game_start [];
             timer 2] in
  autosaveInterval w = None
  /\ intervals w = []
  /\ (length (intervals (@run JsonText.codec es w)) <= 1)%nat
  /\ intervals (@run JsonText.codec es w) = [(2%nat, (cb_save, Finite 5000))].
Proof.
  intros w es.
  destruct (@one_autosave_timer JsonText.codec es w eq_refl eq_refl)
    as [Hlength _].
  split; [reflexivity|]. split; [reflexivity|]. split; [exact Hlength|].
  vm_compute. reflexivity.
Defined.

Lemma clear_hooks_run_before_autoload_witness :
  let snapshot := JObject (build_snapshot HackOptions.default game_later) in
  let started := world_of clear_on_start game_later
                   {[ "snapshot" := text_of snapshot ]} in
  let ended := world_of clear_on_end game_ended
                 {[ "snapshot" := text_of snapshot ]} in
  HackOptions.clearOnStart (hackOptions started) = true
  /\ Bitsy.curRoom
       (bitsy (fst (@startExportedGame JsonText.codec game_start started)))
     = JString "0"
  /\ HackOptions.clearOnEnd (hackOptions ended) = true
  /\ Bitsy.isEnding (bitsy ended) = true
  /\ Bitsy.curRoom
       (bitsy (fst (@dialogLoad JsonText.codec game_start [] ended)))
     = JString "0".
Proof.
  intros snapshot started ended.
  destruct (@clear_hooks_run_before_autoload JsonText.codec game_start []
              started) as [Hstart _].
  destruct (@clear_hooks_run_before_autoload JsonText.codec game_start []
              ended) as [_ Hend].
  destruct (Hstart eq_refl) as (_ & Hb1 & _).
  destruct (Hend eq_refl eq_refl) as (_ & _ & Hb2 & _).
  split; [reflexivity|]. split; [rewrite Hb1; reflexivity|].
  split; [reflexivity|]. split; [reflexivity|].
  rewrite Hb2. reflexivity.
Defined.
